(** * A shallow embedding of GridCal's circuit compilation, DC dispatch
    and CSR power kernel.

    Sources embedded:
    - [GridCal/Engine/Core/DataStructures/circuit_to_data.py]
    - [GridCal/Engine/Simulations/OPF/simple_dispatch.py]
    - [GridCal/Engine/Simulations/PowerFlow/numba_functions.py]

    Floating-point quantities are modelled as exact rationals [Q];
    numpy's index assignment [a[i] = v] is [set_at], which fails (the
    IndexError) out of range; a dictionary lookup [bus_dict[b]] that
    misses is the KeyError, i.e. [None]. *)

From Stdlib Require Import QArith Qround.
From stdpp Require Import base list gmap strings.

Open Scope Q_scope.

(* ------------------------------------------------------------------ *)
(** ** Python/numpy helpers *)

(** [a[i] = v] on a numpy array: IndexError out of range. *)
Definition set_at {A} (l : list A) (i : nat) (v : A) : option (list A) :=
  if decide (i < length l)%nat then Some (<[i:=v]> l) else None.

(** [for i, elm in enumerate(xs): body] where the body may raise. *)
Fixpoint foldi {A St} (f : nat -> A -> St -> option St) (i : nat) (xs : list A) (s : St)
  : option St :=
  match xs with
  | [] => Some s
  | x :: xs' => f i x s ≫= foldi f (Datatypes.S i) xs'
  end.

(** [np.zeros(n)] *)
Definition zeros (n : nat) : list Q := replicate n 0.

(* ------------------------------------------------------------------ *)
(** ** Devices of the topological model *)

Record Bus := { bus_idtag : nat; bus_name : string }.

(** [BranchImpedanceMode] *)
Inductive BranchImpedanceMode := Nominal | Lower | Upper.

Record Line := {
  line_name : string;
  line_bus_from : Bus; line_bus_to : Bus;
  line_R : Q; line_R_corrected : Q; line_X : Q; line_B : Q;
  line_tolerance : Q;
  line_active : bool; line_rate : Q }.

Record Transformer2W := {
  tr_name : string;
  tr_bus_from : Bus; tr_bus_to : Bus;
  tr_R : Q; tr_X : Q; tr_G : Q; tr_B : Q;
  tr_active : bool; tr_rate : Q }.

Record VscConverter := {
  vsc_name : string;
  vsc_bus_from : Bus; vsc_bus_to : Bus;
  vsc_R1 : Q; vsc_X1 : Q;
  vsc_active : bool; vsc_rate : Q }.

Record DcLine := {
  dc_name : string;
  dc_bus_from : Bus; dc_bus_to : Bus;
  dc_R : Q; dc_R_corrected : Q; dc_tolerance : Q;
  dc_active : bool; dc_rate : Q }.

(** The per-link values [get_hvdc_data] reads; the other scalar copies
    (power set points, voltage set points, reactive limits) are written
    like [rate] and are left out. *)
Record HvdcLine := {
  hvdc_name : string;
  hvdc_bus_from : Bus; hvdc_bus_to : Bus;
  hvdc_active : bool; hvdc_active_prof : list bool;
  hvdc_rate : Q; hvdc_rate_prof : list Q;
  hvdc_loss_factor : Q }.

Record MultiCircuit := {
  buses : list Bus;
  lines : list Line;
  transformers2w : list Transformer2W;
  vsc_converters : list VscConverter;
  dc_lines : list DcLine;
  hvdc_lines : list HvdcLine }.

(** The bus-identity -> dense-index map built once per compilation. *)
Abbreviation BusDict := (gmap nat nat).

Definition bus_index (bus_dict : BusDict) (b : Bus) : option nat :=
  bus_dict !! bus_idtag b.

(* ------------------------------------------------------------------ *)
(** ** get_line_data *)

Record LinesData := {
  line_names : list string;
  line_R_arr : list Q;
  line_X_arr : list Q;
  line_B_arr : list Q }.

(** Modelled from the spec: the [LinesData] constructor (not under src/)
    allocates fresh arrays with one entry per line. *)
Definition new_LinesData (nline : nat) : LinesData :=
  {| line_names := replicate nline ""%string; line_R_arr := zeros nline;
     line_X_arr := zeros nline; line_B_arr := zeros nline |}.

(** [R *= (1 - tol/100)] / [R *= (1 + tol/100)] as written in every
    builder: the tolerance branch reads the already stored value. *)
Definition tolerance_scale (mode : BranchImpedanceMode) (tol : Q) (r : Q) : Q :=
  match mode with
  | Lower => r * (1 - tol / 100)
  | Upper => r * (1 + tol / 100)
  | Nominal => r
  end.

Definition line_step (bus_dict : BusDict) (apply_temperature : bool)
    (mode : BranchImpedanceMode) (i : nat) (elm : Line) (nc : LinesData)
  : option LinesData :=
  f ← bus_index bus_dict (line_bus_from elm);
  t ← bus_index bus_dict (line_bus_to elm);
  names ← set_at (line_names nc) i (line_name elm);
  (* if apply_temperature: nc.line_R[i] = elm.R_corrected else elm.R *)
  R1 ← set_at (line_R_arr nc) i
         (if apply_temperature then line_R_corrected elm else line_R elm);
  (* nc.line_R[i] *= ... *)
  r ← R1 !! i;
  R2 ← set_at R1 i (tolerance_scale mode (line_tolerance elm) r);
  X ← set_at (line_X_arr nc) i (line_X elm);
  B ← set_at (line_B_arr nc) i (line_B elm);
  Some {| line_names := names; line_R_arr := R2; line_X_arr := X; line_B_arr := B |}.

Definition get_line_data (circuit : MultiCircuit) (bus_dict : BusDict)
    (apply_temperature : bool) (mode : BranchImpedanceMode) : option LinesData :=
  foldi (line_step bus_dict apply_temperature mode) 0 (lines circuit)
    (new_LinesData (length (lines circuit))).

(* ------------------------------------------------------------------ *)
(** ** get_dc_line_data *)

Record DcLinesData := {
  dc_line_names : list string;
  dc_line_R : list Q;
  dc_line_impedance_tolerance : list Q;
  dc_F : list nat;
  dc_T : list nat }.

(** Modelled from the spec: the [DcLinesData] constructor (not under
    src/) allocates fresh arrays with one entry per DC line. *)
Definition new_DcLinesData (ndcline : nat) : DcLinesData :=
  {| dc_line_names := replicate ndcline ""%string; dc_line_R := zeros ndcline;
     dc_line_impedance_tolerance := zeros ndcline;
     dc_F := replicate ndcline 0%nat; dc_T := replicate ndcline 0%nat |}.

Definition dc_line_step (bus_dict : BusDict) (apply_temperature : bool)
    (mode : BranchImpedanceMode) (i : nat) (elm : DcLine) (nc : DcLinesData)
  : option DcLinesData :=
  f ← bus_index bus_dict (dc_bus_from elm);
  t ← bus_index bus_dict (dc_bus_to elm);
  names ← set_at (dc_line_names nc) i (dc_name elm);
  R1 ← set_at (dc_line_R nc) i
         (if apply_temperature then dc_R_corrected elm else dc_R elm);
  r ← R1 !! i;
  R2 ← set_at R1 i (tolerance_scale mode (dc_tolerance elm) r);
  tol ← set_at (dc_line_impedance_tolerance nc) i (dc_tolerance elm);
  F ← set_at (dc_F nc) i f;
  T ← set_at (dc_T nc) i t;
  Some {| dc_line_names := names; dc_line_R := R2;
          dc_line_impedance_tolerance := tol; dc_F := F; dc_T := T |}.

Definition get_dc_line_data (circuit : MultiCircuit) (bus_dict : BusDict)
    (apply_temperature : bool) (mode : BranchImpedanceMode) : option DcLinesData :=
  foldi (dc_line_step bus_dict apply_temperature mode) 0 (dc_lines circuit)
    (new_DcLinesData (length (dc_lines circuit))).

(* ------------------------------------------------------------------ *)
(** ** get_branch_data: the unified branch container *)

Record BranchData := {
  branch_names : list string;
  branch_active : list bool;
  branch_rates : list Q;
  F : list nat;
  T : list nat;
  R : list Q;
  X : list Q;
  G : list Q;
  B : list Q }.

(** Modelled from the spec: the [BranchData] constructor (not under
    src/) allocates fresh zero-filled arrays with [nbr] entries. *)
Definition new_BranchData (nbr : nat) : BranchData :=
  {| branch_names := replicate nbr ""%string; branch_active := replicate nbr false;
     branch_rates := zeros nbr; F := replicate nbr 0%nat; T := replicate nbr 0%nat;
     R := zeros nbr; X := zeros nbr; G := zeros nbr; B := zeros nbr |}.

(** The "generic stuff" written at position [ii] by every branch class:
    name, active flag, rating, incidence ([F], [T]). *)
Definition set_generic (data : BranchData) (ii : nat) (name : string)
    (active : bool) (rate : Q) (f t : nat) : option BranchData :=
  names ← set_at (branch_names data) ii name;
  act ← set_at (branch_active data) ii active;
  rates ← set_at (branch_rates data) ii rate;
  Fs ← set_at (F data) ii f;
  Ts ← set_at (T data) ii t;
  Some {| branch_names := names; branch_active := act; branch_rates := rates;
          F := Fs; T := Ts; R := R data; X := X data; G := G data; B := B data |}.

Definition set_R (data : BranchData) (i : nat) (v : Q) : option BranchData :=
  Rs ← set_at (R data) i v;
  Some {| branch_names := branch_names data; branch_active := branch_active data;
          branch_rates := branch_rates data; F := F data; T := T data;
          R := Rs; X := X data; G := G data; B := B data |}.

Definition set_X (data : BranchData) (i : nat) (v : Q) : option BranchData :=
  Xs ← set_at (X data) i v;
  Some {| branch_names := branch_names data; branch_active := branch_active data;
          branch_rates := branch_rates data; F := F data; T := T data;
          R := R data; X := Xs; G := G data; B := B data |}.

Definition set_G (data : BranchData) (i : nat) (v : Q) : option BranchData :=
  Gs ← set_at (G data) i v;
  Some {| branch_names := branch_names data; branch_active := branch_active data;
          branch_rates := branch_rates data; F := F data; T := T data;
          R := R data; X := X data; G := Gs; B := B data |}.

Definition set_B (data : BranchData) (i : nat) (v : Q) : option BranchData :=
  Bs ← set_at (B data) i v;
  Some {| branch_names := branch_names data; branch_active := branch_active data;
          branch_rates := branch_rates data; F := F data; T := T data;
          R := R data; X := X data; G := G data; B := Bs |}.

(** [if apply_temperature: data.R[i] = R_corrected else R], then
    [data.R[i] *= ...] by tolerance mode, both at index [i]. *)
Definition set_R_corrected (data : BranchData) (i : nat) (apply_temperature : bool)
    (mode : BranchImpedanceMode) (Rnom Rcorr tol : Q) : option BranchData :=
  d1 ← set_R data i (if apply_temperature then Rcorr else Rnom);
  r ← R d1 !! i;
  set_R d1 i (tolerance_scale mode tol r).

(** Body of the AC-line loop (source lines 490-527). *)
Definition branch_line_step (bus_dict : BusDict) (apply_temperature : bool)
    (mode : BranchImpedanceMode) (i : nat) (elm : Line) (data : BranchData)
  : option BranchData :=
  f ← bus_index bus_dict (line_bus_from elm);
  t ← bus_index bus_dict (line_bus_to elm);
  d1 ← set_generic data i (line_name elm) (line_active elm) (line_rate elm) f t;
  d2 ← set_R_corrected d1 i apply_temperature mode
         (line_R elm) (line_R_corrected elm) (line_tolerance elm);
  d3 ← set_X d2 i (line_X elm);
  set_B d3 i (line_B elm).

(** Body of the 2-winding transformer loop (source lines 530-570),
    [ii = i + nline]. *)
Definition branch_tr_step (bus_dict : BusDict) (nline : nat)
    (i : nat) (elm : Transformer2W) (data : BranchData) : option BranchData :=
  let ii := (i + nline)%nat in
  f ← bus_index bus_dict (tr_bus_from elm);
  t ← bus_index bus_dict (tr_bus_to elm);
  d1 ← set_generic data ii (tr_name elm) (tr_active elm) (tr_rate elm) f t;
  d2 ← set_R d1 ii (tr_R elm);
  d3 ← set_X d2 ii (tr_X elm);
  d4 ← set_G d3 ii (tr_G elm);
  set_B d4 ii (tr_B elm).

(** Body of the VSC loop (source lines 573-615), [ii = i + nline + ntr]. *)
Definition branch_vsc_step (bus_dict : BusDict) (nline ntr : nat)
    (i : nat) (elm : VscConverter) (data : BranchData) : option BranchData :=
  let ii := (i + nline + ntr)%nat in
  f ← bus_index bus_dict (vsc_bus_from elm);
  t ← bus_index bus_dict (vsc_bus_to elm);
  d1 ← set_generic data ii (vsc_name elm) (vsc_active elm) (vsc_rate elm) f t;
  d2 ← set_R d1 ii (vsc_R1 elm);
  set_X d2 ii (vsc_X1 elm).

(** Body of the DC-line loop (source lines 618-651),
    [ii = i + nline + ntr + nvsc]. The generic fields are written at [ii];
    the resistance is written and scaled at [data.R[i]], as in the source. *)
Definition branch_dc_step (bus_dict : BusDict) (apply_temperature : bool)
    (mode : BranchImpedanceMode) (nline ntr nvsc : nat)
    (i : nat) (elm : DcLine) (data : BranchData) : option BranchData :=
  let ii := (i + nline + ntr + nvsc)%nat in
  f ← bus_index bus_dict (dc_bus_from elm);
  t ← bus_index bus_dict (dc_bus_to elm);
  d1 ← set_generic data ii (dc_name elm) (dc_active elm) (dc_rate elm) f t;
  set_R_corrected d1 i apply_temperature mode
    (dc_R elm) (dc_R_corrected elm) (dc_tolerance elm).

Definition get_branch_data (circuit : MultiCircuit) (bus_dict : BusDict)
    (apply_temperature : bool) (mode : BranchImpedanceMode) : option BranchData :=
  let nline := length (lines circuit) in
  let ntr := length (transformers2w circuit) in
  let nvsc := length (vsc_converters circuit) in
  let ndcline := length (dc_lines circuit) in
  let nbr := (nline + ntr + nvsc + ndcline)%nat in
  d1 ← foldi (branch_line_step bus_dict apply_temperature mode) 0
         (lines circuit) (new_BranchData nbr);
  d2 ← foldi (branch_tr_step bus_dict nline) 0 (transformers2w circuit) d1;
  d3 ← foldi (branch_vsc_step bus_dict nline ntr) 0 (vsc_converters circuit) d2;
  foldi (branch_dc_step bus_dict apply_temperature mode nline ntr nvsc) 0
    (dc_lines circuit) d3.

(** A small grid: buses 0..3, two AC lines, one transformer, one
    converter, one DC line. *)
Definition bus_k (k : nat) : Bus := {| bus_idtag := k; bus_name := "bus" |}.
Definition ex_bus_dict : BusDict := list_to_map [(0, 0); (1, 1); (2, 2); (3, 3)]%nat.

Definition mk_line (name : string) (a b : nat) (r : Q) : Line :=
  {| line_name := name; line_bus_from := bus_k a; line_bus_to := bus_k b;
     line_R := r; line_R_corrected := r; line_X := 0.2; line_B := 0;
     line_tolerance := 10; line_active := true; line_rate := 100 |}.
Definition mk_dc_line (name : string) (a b : nat) (r : Q) : DcLine :=
  {| dc_name := name; dc_bus_from := bus_k a; dc_bus_to := bus_k b;
     dc_R := r; dc_R_corrected := r; dc_tolerance := 10;
     dc_active := true; dc_rate := 100 |}.

Definition ex_circuit : MultiCircuit :=
  {| buses := [bus_k 0; bus_k 1; bus_k 2; bus_k 3];
     lines := [mk_line "L1" 0 1 0.1; mk_line "L2" 1 2 0.2];
     transformers2w := [{| tr_name := "T1"; tr_bus_from := bus_k 2; tr_bus_to := bus_k 3;
                           tr_R := 0.01; tr_X := 0.1; tr_G := 0; tr_B := 0;
                           tr_active := true; tr_rate := 50 |}];
     vsc_converters := [{| vsc_name := "C1"; vsc_bus_from := bus_k 3; vsc_bus_to := bus_k 0;
                           vsc_R1 := 0.001; vsc_X1 := 0.01;
                           vsc_active := true; vsc_rate := 50 |}];
     dc_lines := [mk_dc_line "D1" 0 3 0.5]; hvdc_lines := [] |}.

(** Resistance correction policy in the spec's words: the base
    resistance (temperature-corrected when the flag is set), scaled once
    by the tolerance mode. *)
Definition spec_corrected_R (apply_temperature : bool) (mode : BranchImpedanceMode)
    (Rnom Rcorr tol : Q) : Q :=
  let base := if apply_temperature then Rcorr else Rnom in
  match mode with
  | Lower => base * (1 - tol / 100)
  | Upper => base * (1 + tol / 100)
  | Nominal => base
  end.

(** One line and one DC line, R = 0.1 and tolerance 10 %. *)
Definition tol_circuit : MultiCircuit :=
  {| buses := [bus_k 0; bus_k 1]; lines := [mk_line "L" 0 1 0.1];
     transformers2w := []; vsc_converters := []; dc_lines := [mk_dc_line "D" 0 1 0.1];
     hvdc_lines := [] |}.

(* ------------------------------------------------------------------ *)
(** ** Complex numbers, generators, batteries and the voltage seed *)

Record Cplx := mkC { re : Q; im : Q }.

Definition Cadd (a b : Cplx) : Cplx := mkC (re a + re b) (im a + im b).
Definition Csub (a b : Cplx) : Cplx := mkC (re a - re b) (im a - im b).
Definition Cmul (a b : Cplx) : Cplx :=
  mkC (re a * re b - im a * im b) (re a * im b + im a * re b).
Definition Cconj (a : Cplx) : Cplx := mkC (re a) (- im a).
(** [==] on complex values. *)
Definition Ceqb (a b : Cplx) : bool := Qeq_bool (re a) (re b) && Qeq_bool (im a) (im b).

Record Generator := {
  gen_name : string; gen_bus : Bus;
  gen_Qmin : Q; gen_Qmax : Q; gen_is_controlled : bool; gen_Snom : Q;
  gen_P : Q; gen_P_prof : list Q;
  gen_active : bool; gen_active_prof : list bool;
  gen_Pf : Q; gen_Pf_prof : list Q;
  gen_Vset : Q; gen_Vset_prof : list Q;
  gen_enabled_dispatch : bool; gen_Pmax : Q; gen_Pmin : Q;
  gen_Cost : Q; gen_Cost_prof : list Q }.

Record Battery := {
  batt_name : string; batt_bus : Bus;
  batt_Qmin : Q; batt_Qmax : Q; batt_is_controlled : bool; batt_Snom : Q;
  batt_P : Q; batt_P_prof : list Q;
  batt_active : bool; batt_active_prof : list bool;
  batt_Pf : Q; batt_Pf_prof : list Q;
  batt_Vset : Q; batt_Vset_prof : list Q;
  batt_enabled_dispatch : bool; batt_Pmax : Q; batt_Pmin : Q;
  batt_Enom : Q; batt_min_soc : Q; batt_max_soc : Q; batt_soc_0 : Q;
  batt_discharge_efficiency : Q; batt_charge_efficiency : Q;
  batt_Cost : Q; batt_Cost_prof : list Q }.

(** [logger.append('Different set points at ' + bus.name + ': ' +
    str(Vset) + ' !=' + str(Vbus[i, 0]))] *)
Record Warning := DifferentSetPoints { w_bus : string; w_vset : Q; w_seed : Cplx }.

Abbreviation Vbus_t := (list (list Cplx)).

(** [x[k] = row] on a 2-D array with numpy broadcasting: a row of the
    array's width, or a single value (a scalar) spread over it. *)
Definition set_row {A} (a : list (list A)) (k : nat) (r : list A) : option (list (list A)) :=
  old ← a !! k;
  if decide (length r = length old) then set_at a k r
  else match r with
       | [v] => set_at a k (replicate (length old) v)
       | _ => None
       end.

(** Source lines 204-207 (generators) and 288-291 (batteries):
    [if Vbus[i, 0].real == 1.0: Vbus[i, :] = complex(Vset, 0)
     elif Vset != Vbus[i, 0]: logger.append(...)] *)
Definition seed_vbus (Vbus : Vbus_t) (logger : list Warning) (i : nat) (bus : Bus)
    (Vset : Q) : option (Vbus_t * list Warning) :=
  row ← Vbus !! i;
  v0 ← row !! 0%nat;
  if Qeq_bool (re v0) 1 then
    Vbus' ← set_at Vbus i (map (fun _ => mkC Vset 0) row);
    Some (Vbus', logger)
  else if negb (Ceqb (mkC Vset 0) v0) then
    Some (Vbus, logger ++ [DifferentSetPoints (bus_name bus) Vset v0])
  else Some (Vbus, logger).

Record GeneratorData := {
  generator_names : list string;
  generator_qmin : list Q; generator_qmax : list Q;
  generator_controllable : list bool; generator_installed_p : list Q;
  generator_p : list (list Q); generator_active : list (list bool);
  generator_pf : list (list Q); generator_v : list (list Q);
  generator_dispatchable : list bool; generator_pmax : list Q; generator_pmin : list Q;
  generator_cost : list (list Q) }.

(** Modelled from the spec: the [GeneratorData] / [GeneratorOpfData]
    constructors (not under src/) allocate per-device arrays; profile
    arrays have [ntime] columns. *)
Definition new_GeneratorData (ngen ntime : nat) : GeneratorData :=
  {| generator_names := replicate ngen ""%string;
     generator_qmin := zeros ngen; generator_qmax := zeros ngen;
     generator_controllable := replicate ngen false; generator_installed_p := zeros ngen;
     generator_p := replicate ngen (zeros ntime);
     generator_active := replicate ngen (replicate ntime false);
     generator_pf := replicate ngen (zeros ntime); generator_v := replicate ngen (zeros ntime);
     generator_dispatchable := replicate ngen false;
     generator_pmax := zeros ngen; generator_pmin := zeros ngen;
     generator_cost := replicate ngen (zeros ntime) |}.

(** Body of the generator loop of [get_generator_data] (source lines
    161-207), with [opf_results=None]. *)
Definition generator_step (bus_dict : BusDict) (time_series opf : bool) (k : nat)
    (elm : Generator) (st : GeneratorData * Vbus_t * list Warning)
  : option (GeneratorData * Vbus_t * list Warning) :=
  let '(data, Vbus, logger) := st in
  i ← bus_index bus_dict (gen_bus elm);
  names ← set_at (generator_names data) k (gen_name elm);
  qmin ← set_at (generator_qmin data) k (gen_Qmin elm);
  qmax ← set_at (generator_qmax data) k (gen_Qmax elm);
  ctrl ← set_at (generator_controllable data) k (gen_is_controlled elm);
  inst ← set_at (generator_installed_p data) k (gen_Snom elm);
  p ← set_row (generator_p data) k (if time_series then gen_P_prof elm else [gen_P elm]);
  act ← set_row (generator_active data) k
          (if time_series then gen_active_prof elm else [gen_active elm]);
  pf ← set_row (generator_pf data) k (if time_series then gen_Pf_prof elm else [gen_Pf elm]);
  v ← set_row (generator_v data) k (if time_series then gen_Vset_prof elm else [gen_Vset elm]);
  disp ← (if opf then set_at (generator_dispatchable data) k (gen_enabled_dispatch elm)
          else Some (generator_dispatchable data));
  pmax ← (if opf then set_at (generator_pmax data) k (gen_Pmax elm)
          else Some (generator_pmax data));
  pmin ← (if opf then set_at (generator_pmin data) k (gen_Pmin elm)
          else Some (generator_pmin data));
  cost ← (if opf then set_row (generator_cost data) k
                        (if time_series then gen_Cost_prof elm else [gen_Cost elm])
          else Some (generator_cost data));
  vl ← seed_vbus Vbus logger i (gen_bus elm) (gen_Vset elm);
  Some ({| generator_names := names; generator_qmin := qmin; generator_qmax := qmax;
           generator_controllable := ctrl; generator_installed_p := inst;
           generator_p := p; generator_active := act; generator_pf := pf; generator_v := v;
           generator_dispatchable := disp; generator_pmax := pmax; generator_pmin := pmin;
           generator_cost := cost |}, vl.1, vl.2).

Definition get_generator_data (generators : list Generator) (bus_dict : BusDict)
    (Vbus : Vbus_t) (logger : list Warning) (time_series opf : bool) (ntime : nat)
  : option (GeneratorData * Vbus_t * list Warning) :=
  foldi (generator_step bus_dict time_series opf) 0 generators
    (new_GeneratorData (length generators) ntime, Vbus, logger).

Record BatteryData := {
  battery_names : list string;
  battery_qmin : list Q; battery_qmax : list Q;
  battery_controllable : list bool; battery_installed_p : list Q;
  battery_p : list (list Q); battery_active : list (list bool);
  battery_pf : list (list Q); battery_v : list (list Q);
  battery_dispatchable : list bool; battery_pmax : list Q; battery_pmin : list Q;
  battery_enom : list Q; battery_min_soc : list Q; battery_max_soc : list Q;
  battery_soc_0 : list Q;
  battery_discharge_efficiency : list Q; battery_charge_efficiency : list Q;
  battery_cost : list (list Q) }.

(** Modelled from the spec: the [BatteryData] / [BatteryOpfData]
    constructors (not under src/) allocate per-device arrays; profile
    arrays have [ntime] columns. *)
Definition new_BatteryData (nbatt ntime : nat) : BatteryData :=
  {| battery_names := replicate nbatt ""%string;
     battery_qmin := zeros nbatt; battery_qmax := zeros nbatt;
     battery_controllable := replicate nbatt false; battery_installed_p := zeros nbatt;
     battery_p := replicate nbatt (zeros ntime);
     battery_active := replicate nbatt (replicate ntime false);
     battery_pf := replicate nbatt (zeros ntime); battery_v := replicate nbatt (zeros ntime);
     battery_dispatchable := replicate nbatt false;
     battery_pmax := zeros nbatt; battery_pmin := zeros nbatt;
     battery_enom := zeros nbatt; battery_min_soc := zeros nbatt;
     battery_max_soc := zeros nbatt; battery_soc_0 := zeros nbatt;
     battery_discharge_efficiency := zeros nbatt; battery_charge_efficiency := zeros nbatt;
     battery_cost := replicate nbatt (zeros ntime) |}.

(** [if opf: x[k] = v] on a per-device array. *)
Definition set_if_opf {A} (opf : bool) (a : list A) (k : nat) (v : A) : option (list A) :=
  if opf then set_at a k v else Some a.

(** Body of the battery loop of [get_battery_data] (source lines
    233-291), with [opf_results=None]. In both the time-series and the
    snapshot branch, [battery_min_soc[k]] and [battery_max_soc[k]] are
    both assigned [elm.max_soc] (source lines 255-256 and 276-277). *)
Definition battery_step (bus_dict : BusDict) (time_series opf : bool) (k : nat)
    (elm : Battery) (st : BatteryData * Vbus_t * list Warning)
  : option (BatteryData * Vbus_t * list Warning) :=
  let '(data, Vbus, logger) := st in
  i ← bus_index bus_dict (batt_bus elm);
  names ← set_at (battery_names data) k (batt_name elm);
  qmin ← set_at (battery_qmin data) k (batt_Qmin elm);
  qmax ← set_at (battery_qmax data) k (batt_Qmax elm);
  ctrl ← set_at (battery_controllable data) k (batt_is_controlled elm);
  inst ← set_at (battery_installed_p data) k (batt_Snom elm);
  p ← set_row (battery_p data) k (if time_series then batt_P_prof elm else [batt_P elm]);
  act ← set_row (battery_active data) k
          (if time_series then batt_active_prof elm else [batt_active elm]);
  pf ← set_row (battery_pf data) k (if time_series then batt_Pf_prof elm else [batt_Pf elm]);
  v ← set_row (battery_v data) k (if time_series then batt_Vset_prof elm else [batt_Vset elm]);
  disp ← set_if_opf opf (battery_dispatchable data) k (batt_enabled_dispatch elm);
  pmax ← set_if_opf opf (battery_pmax data) k (batt_Pmax elm);
  pmin ← set_if_opf opf (battery_pmin data) k (batt_Pmin elm);
  enom ← set_if_opf opf (battery_enom data) k (batt_Enom elm);
  min_soc ← set_if_opf opf (battery_min_soc data) k (batt_max_soc elm);
  max_soc ← set_if_opf opf (battery_max_soc data) k (batt_max_soc elm);
  soc_0 ← set_if_opf opf (battery_soc_0 data) k (batt_soc_0 elm);
  deff ← set_if_opf opf (battery_discharge_efficiency data) k (batt_discharge_efficiency elm);
  ceff ← set_if_opf opf (battery_charge_efficiency data) k (batt_charge_efficiency elm);
  cost ← (if opf then set_row (battery_cost data) k
                        (if time_series then batt_Cost_prof elm else [batt_Cost elm])
          else Some (battery_cost data));
  vl ← seed_vbus Vbus logger i (batt_bus elm) (batt_Vset elm);
  Some ({| battery_names := names; battery_qmin := qmin; battery_qmax := qmax;
           battery_controllable := ctrl; battery_installed_p := inst;
           battery_p := p; battery_active := act; battery_pf := pf; battery_v := v;
           battery_dispatchable := disp; battery_pmax := pmax; battery_pmin := pmin;
           battery_enom := enom; battery_min_soc := min_soc; battery_max_soc := max_soc;
           battery_soc_0 := soc_0; battery_discharge_efficiency := deff;
           battery_charge_efficiency := ceff; battery_cost := cost |}, vl.1, vl.2).

Definition get_battery_data (batteries : list Battery) (bus_dict : BusDict)
    (Vbus : Vbus_t) (logger : list Warning) (time_series opf : bool) (ntime : nat)
  : option (BatteryData * Vbus_t * list Warning) :=
  foldi (battery_step bus_dict time_series opf) 0 batteries
    (new_BatteryData (length batteries) ntime, Vbus, logger).

(** The voltage-seed side channel alone: [seed_vbus] over devices given
    by their bus and set point, in enumeration order. *)
Fixpoint seed_all (bus_dict : BusDict) (Vbus : Vbus_t) (logger : list Warning)
    (devs : list (Bus * Q)) : option (Vbus_t * list Warning) :=
  match devs with
  | [] => Some (Vbus, logger)
  | (b, vset) :: devs' =>
      i ← bus_index bus_dict b;
      vl ← seed_vbus Vbus logger i b vset;
      seed_all bus_dict vl.1 vl.2 devs'
  end.

Definition mk_gen (name : string) (b : Bus) (vset : Q) : Generator :=
  {| gen_name := name; gen_bus := b; gen_Qmin := -1; gen_Qmax := 1;
     gen_is_controlled := true; gen_Snom := 100; gen_P := 50; gen_P_prof := [];
     gen_active := true; gen_active_prof := []; gen_Pf := 0.8; gen_Pf_prof := [];
     gen_Vset := vset; gen_Vset_prof := []; gen_enabled_dispatch := true;
     gen_Pmax := 100; gen_Pmin := 0; gen_Cost := 1; gen_Cost_prof := [] |}.

(** A single bus at its sentinel seed 1.0 + 0j, one time step. *)
Definition sentinel_Vbus : Vbus_t := [[mkC 1 0]].

(** [elm.min_soc = m(elm)]: the same battery with another minimum state
    of charge. *)
Definition with_min_soc (m : Battery -> Q) (elm : Battery) : Battery :=
  {| batt_name := batt_name elm; batt_bus := batt_bus elm;
     batt_Qmin := batt_Qmin elm; batt_Qmax := batt_Qmax elm;
     batt_is_controlled := batt_is_controlled elm; batt_Snom := batt_Snom elm;
     batt_P := batt_P elm; batt_P_prof := batt_P_prof elm;
     batt_active := batt_active elm; batt_active_prof := batt_active_prof elm;
     batt_Pf := batt_Pf elm; batt_Pf_prof := batt_Pf_prof elm;
     batt_Vset := batt_Vset elm; batt_Vset_prof := batt_Vset_prof elm;
     batt_enabled_dispatch := batt_enabled_dispatch elm;
     batt_Pmax := batt_Pmax elm; batt_Pmin := batt_Pmin elm;
     batt_Enom := batt_Enom elm; batt_min_soc := m elm; batt_max_soc := batt_max_soc elm;
     batt_soc_0 := batt_soc_0 elm;
     batt_discharge_efficiency := batt_discharge_efficiency elm;
     batt_charge_efficiency := batt_charge_efficiency elm;
     batt_Cost := batt_Cost elm; batt_Cost_prof := batt_Cost_prof elm |}.

Definition mk_batt (name : string) (b : Bus) (vset min_soc max_soc : Q) : Battery :=
  {| batt_name := name; batt_bus := b; batt_Qmin := -1; batt_Qmax := 1;
     batt_is_controlled := true; batt_Snom := 10; batt_P := 0; batt_P_prof := [0; 0];
     batt_active := true; batt_active_prof := [true; true]; batt_Pf := 0.8;
     batt_Pf_prof := [0.8; 0.8]; batt_Vset := vset; batt_Vset_prof := [vset; vset];
     batt_enabled_dispatch := true; batt_Pmax := 10; batt_Pmin := -10; batt_Enom := 40;
     batt_min_soc := min_soc; batt_max_soc := max_soc; batt_soc_0 := 0.5;
     batt_discharge_efficiency := 0.9; batt_charge_efficiency := 0.9;
     batt_Cost := 1; batt_Cost_prof := [1; 1] |}.

(* ------------------------------------------------------------------ *)
(** ** calc_power_csr_numba *)

Definition C0 : Cplx := mkC 0 0.

(** [Yx[p] * V[Yj[p]]]; an index out of range is [None]. *)
Definition csr_term (Yj : list nat) (Yx V : list Cplx) (p : nat) : option Cplx :=
  x ← Yx !! p;
  j ← Yj !! p;
  v ← V !! j;
  Some (Cmul x v).

(** [s = complex(0, 0); for p in range(Yp[i], Yp[i+1]): s += Yx[p] * V[Yj[p]];
     S[i] = V[i] * np.conj(s - I[i])] *)
Definition calc_row (Yp Yj : list nat) (Yx V I : list Cplx) (i : nat) : option Cplx :=
  a ← Yp !! i;
  b ← Yp !! Datatypes.S i;
  s ← fold_left (fun acc p => s ← acc; t ← csr_term Yj Yx V p; Some (Cadd s t))
        (seq a (b - a)) (Some C0);
  vi ← V !! i;
  Ii ← I !! i;
  Some (Cmul vi (Cconj (Csub s Ii))).

(** The serial branch: [for i in range(n)], writing [S[i]] in place. *)
Fixpoint serial_rows (row : nat -> option Cplx) (i m : nat) (S : list Cplx)
  : option (list Cplx) :=
  match m with
  | 0%nat => Some S
  | Datatypes.S m' =>
      e ← row i;
      S' ← set_at S i e;
      serial_rows row (Datatypes.S i) m' S'
  end.

Definition calc_power_csr_numba (n : nat) (Yp Yj : list nat) (Yx V I : list Cplx)
    (n_par : nat) : option (list Cplx) :=
  (* assert n == V.shape[0] *)
  if decide (n = length V) then
    let S := replicate n C0 in
    if decide (n < n_par)%nat then
      (* serial version *)
      serial_rows (calc_row Yp Yj Yx V I) 0 n S
    else
      (* parallel version: nb.prange, every row computed on its own *)
      mapM (calc_row Yp Yj Yx V I) (seq 0 n)
  else None.

(** The kernel's contract in the spec's words: row [i] of the result is
    [V[i] * conj((sum over p = Yp[i] .. Yp[i+1]-1 of Yx[p] * V[Yj[p]]) - I[i])],
    summed in storage order. *)
Definition spec_power_row (Yp Yj : list nat) (Yx V I : list Cplx) (i : nat) : Cplx :=
  let a := nth i Yp 0%nat in
  let b := nth (Datatypes.S i) Yp 0%nat in
  let s := fold_left (fun acc p => Cadd acc (Cmul (nth p Yx C0) (nth (nth p Yj 0%nat) V C0)))
             (seq a (b - a)) C0 in
  Cmul (nth i V C0) (Cconj (Csub s (nth i I C0))).

(* ------------------------------------------------------------------ *)
(** ** OpfSimple.solve: the heuristic proportional dispatch *)

(** A float64 value: a finite value (exact) or one of the non-finite
    values numpy produces on a division by zero (with a RuntimeWarning,
    never an exception).  Zeros are taken unsigned, as [+0.0]. *)
Inductive Flt := Fin (q : Q) | PInf | NInf | NaN.

Definition is_finite (x : Flt) : bool :=
  match x with Fin _ => true | _ => false end.

(** [0 < a] *)
Definition Qpos_bool (a : Q) : bool := negb (Qle_bool a 0).

(** [a * inf] for a nonzero finite [a]. *)
Definition inf_scale (a : Q) (i : Flt) : Flt :=
  if Qeq_bool a 0 then NaN
  else if Qpos_bool a then i
  else match i with PInf => NInf | NInf => PInf | x => x end.

Definition fadd (x y : Flt) : Flt :=
  match x, y with
  | NaN, _ | _, NaN => NaN
  | Fin a, Fin b => Fin (a + b)
  | PInf, NInf | NInf, PInf => NaN
  | PInf, _ | _, PInf => PInf
  | NInf, _ | _, NInf => NInf
  end.

Definition fmul (x y : Flt) : Flt :=
  match x, y with
  | NaN, _ | _, NaN => NaN
  | Fin a, Fin b => Fin (a * b)
  | Fin a, i | i, Fin a => inf_scale a i
  | PInf, PInf | NInf, NInf => PInf
  | _, _ => NInf
  end.

Definition fdiv (x y : Flt) : Flt :=
  match x, y with
  | NaN, _ | _, NaN => NaN
  | Fin a, Fin b =>
      if Qeq_bool b 0 then
        (if Qeq_bool a 0 then NaN else if Qpos_bool a then PInf else NInf)
      else Fin (a / b)
  | Fin _, _ => Fin 0
  | PInf, Fin b => if Qle_bool 0 b then PInf else NInf
  | NInf, Fin b => if Qle_bool 0 b then NInf else PInf
  | _, _ => NaN
  end.

(** A boolean array used in arithmetic: [True -> 1.0], [False -> 0.0]. *)
Definition fbool (b : bool) : Flt := Fin (if b then 1 else 0).

(** [a * b] on two 1-D arrays with numpy broadcasting; a shape mismatch
    raises (None). *)
Definition broadcast2 (f : Flt -> Flt -> Flt) (a b : list Flt) : option (list Flt) :=
  if decide (length a = length b) then Some (zip_with f a b)
  else match a, b with
       | [x], _ => Some (map (f x) b)
       | _, [y] => Some (map (fun x => f x y) a)
       | _, _ => None
       end.

(** [a.sum()] *)
Definition fsum (a : list Flt) : Flt := fold_left fadd a (Fin 0).

(** [np.zeros(n)] as a float array. *)
Definition fzeros (n : nat) : list Flt := replicate n (Fin 0).

(** The fields of [NumericalCircuit] that [OpfSimple.solve] reads;
    [nc_x] is [nc.x]. *)
Record NumericalCircuit := {
  nc_nbus : nat;
  nc_nbr : nat;
  nc_n_ctrl_gen : nat;
  nc_n_batt : nat;
  nc_n_ld : nat;
  nc_Sbase : Q;
  nc_generator_pmax : list Q;
  nc_generator_active : list bool;
  nc_load_active : list bool;
  nc_load_power : list Cplx;
  nc_br_rates : list Q
}.

(** The attributes [solve] assigns on the [OpfSimple] object. *)
Record OpfSimpleState := {
  opf_theta : list Flt;
  opf_Pg : list Flt;
  opf_Pb : list Flt;
  opf_Pl : list Flt;
  opf_E : list Flt;
  opf_load_shedding : list Flt;
  opf_s_from : list Flt;
  opf_s_to : list Flt;
  opf_overloads : list Flt;
  opf_rating : list Flt;
  opf_nodal_restrictions : list Flt
}.

(** [OpfSimple.solve] (source lines 197-262): the new attributes and the
    returned [True]. *)
Definition solve (nc : NumericalCircuit) : option (OpfSimpleState * bool) :=
  let n := nc_nbus nc in
  let m := nc_nbr nc in
  let ng := nc_n_ctrl_gen nc in
  let nb := nc_n_batt nc in
  let nl := nc_n_ld nc in
  let Sb := Fin (nc_Sbase nc) in
  (* generator *)
  let Pg_max := map (fun p => fdiv (Fin p) Sb) (nc_generator_pmax nc) in
  (* load *)
  let Pb := fzeros nb in
  let E := fzeros nb in
  let theta := fzeros n in
  (* generator share *)
  Pavail ← broadcast2 fmul Pg_max (map fbool (nc_generator_active nc));
  let Gshare := map (fun p => fdiv p (fsum Pavail)) Pavail in
  Pl0 ← broadcast2 fmul (map fbool (nc_load_active nc)) (map (fun s => Fin (re s)) (nc_load_power nc));
  let Pl := map (fun p => fdiv p Sb) Pl0 in
  let Pg := map (fmul (fsum Pl)) Gshare in
  Some ({| opf_theta := theta; opf_Pg := Pg; opf_Pb := Pb; opf_Pl := Pl; opf_E := E;
           opf_load_shedding := fzeros nl; opf_s_from := fzeros m; opf_s_to := fzeros m;
           opf_overloads := fzeros m;
           opf_rating := map (fun r => fdiv (Fin r) Sb) (nc_br_rates nc);
           opf_nodal_restrictions := fzeros n |}, true).

(** Result accessors: [x * Sbase] or the stored array. *)
Definition get_generator_power (nc : NumericalCircuit) (st : OpfSimpleState) : list Flt :=
  map (fun x => fmul x (Fin (nc_Sbase nc))) (opf_Pg st).
Definition get_battery_power (nc : NumericalCircuit) (st : OpfSimpleState) : list Flt :=
  map (fun x => fmul x (Fin (nc_Sbase nc))) (opf_Pb st).
Definition get_battery_energy (nc : NumericalCircuit) (st : OpfSimpleState) : list Flt :=
  map (fun x => fmul x (Fin (nc_Sbase nc))) (opf_E st).
Definition get_branch_power (nc : NumericalCircuit) (st : OpfSimpleState) : list Flt :=
  map (fun x => fmul x (Fin (nc_Sbase nc))) (opf_s_from st).
Definition get_load_shedding (nc : NumericalCircuit) (st : OpfSimpleState) : list Flt :=
  map (fun x => fmul x (Fin (nc_Sbase nc))) (opf_load_shedding st).
Definition get_overloads (st : OpfSimpleState) : list Flt := opf_overloads st.
Definition get_shadow_prices (st : OpfSimpleState) : list Flt := opf_nodal_restrictions st.

(** Sums and shares in the spec's words. *)
Definition qsum (l : list Q) : Q := fold_right Qplus 0 l.
Definition b2q (b : bool) : Q := if b then 1 else 0.
(** [sum(Pmax * active)] in MW *)
Definition avail_capacity (nc : NumericalCircuit) : Q :=
  qsum (zip_with (fun p a => p * b2q a) (nc_generator_pmax nc) (nc_generator_active nc)).
(** Total active load in MW: [sum(load_active * P)]. *)
Definition total_active_load (nc : NumericalCircuit) : Q :=
  qsum (zip_with (fun a s => b2q a * re s) (nc_load_active nc) (nc_load_power nc)).

(** Two generators of capacity 100 and 50 MW, one load of 90 MW, Sbase 100. *)
Definition dispatch_nc : NumericalCircuit :=
  {| nc_nbus := 2; nc_nbr := 1; nc_n_ctrl_gen := 2; nc_n_batt := 0; nc_n_ld := 1; nc_Sbase := 100;
     nc_generator_pmax := [100; 50]; nc_generator_active := [true; true];
     nc_load_active := [true]; nc_load_power := [mkC 90 20]; nc_br_rates := [100] |}.

(** The same with both generators of zero capacity. *)
Definition no_capacity_nc : NumericalCircuit :=
  {| nc_nbus := 2; nc_nbr := 1; nc_n_ctrl_gen := 2; nc_n_batt := 0; nc_n_ld := 1; nc_Sbase := 100;
     nc_generator_pmax := [0; 0]; nc_generator_active := [true; false];
     nc_load_active := [true]; nc_load_power := [mkC 90 20]; nc_br_rates := [100] |}.

(** Every entry of the array is a finite zero. *)
Definition all_zero (l : list Flt) : bool :=
  forallb (fun x => match x with Fin r => Qeq_bool r 0 | _ => false end) l.

(** [x == y] between a float and an exact value. *)
Definition feq (x : Flt) (q : Q) : Prop :=
  match x with Fin r => r == q | _ => False end.

(* ------------------------------------------------------------------ *)
(** ** get_hvdc_data and the shared bus-type buffer *)

(** Modelled from the spec: [BusMode] (not under src/), the bus-type
    enumeration (PQ, PV, Slack, ...); [bus_types] holds its values. *)
Inductive BusMode := PQ | PV | REF | NONE | STO_DISPATCH.

Record HvdcData := {
  hvdc_names : list string;
  hvdc_active_arr : list (list bool);
  hvdc_rate_arr : list (list Q);
  hvdc_loss_factor_arr : list Q;
  C_hvdc_bus_f : list (list Q);
  C_hvdc_bus_t : list (list Q) }.

(** Modelled from the spec: the [HvdcData] constructor (not under src/)
    allocates per-link arrays ([nhvdc] x [ntime] for the profiles) and the
    [nhvdc] x [nbus] link-bus incidence matrices, all zero. *)
Definition new_HvdcData (nhvdc nbus ntime : nat) : HvdcData :=
  {| hvdc_names := replicate nhvdc ""%string;
     hvdc_active_arr := replicate nhvdc (replicate ntime false);
     hvdc_rate_arr := replicate nhvdc (replicate ntime 0);
     hvdc_loss_factor_arr := zeros nhvdc;
     C_hvdc_bus_f := replicate nhvdc (zeros nbus);
     C_hvdc_bus_t := replicate nhvdc (zeros nbus) |}.

(** [a[i, j] = v] on a 2-D array. *)
Definition set_at2 {A} (a : list (list A)) (i j : nat) (v : A) : option (list (list A)) :=
  row ← a !! i;
  row' ← set_at row j v;
  set_at a i row'.

(** Body of the HVDC loop of [get_hvdc_data] (source lines 667-702): the
    container and the caller's [bus_types] buffer are threaded through. *)
Definition hvdc_step (bus_dict : BusDict) (time_series : bool) (i : nat) (elm : HvdcLine)
    (st : HvdcData * list BusMode) : option (HvdcData * list BusMode) :=
  let '(data, bus_types) := st in
  (* generic stuff *)
  f ← bus_index bus_dict (hvdc_bus_from elm);
  t ← bus_index bus_dict (hvdc_bus_to elm);
  (* hvdc values *)
  names ← set_at (hvdc_names data) i (hvdc_name elm);
  active ← set_row (hvdc_active_arr data) i
             (if time_series then hvdc_active_prof elm else [hvdc_active elm]);
  rate ← set_row (hvdc_rate_arr data) i
           (if time_series then hvdc_rate_prof elm else [hvdc_rate elm]);
  loss ← set_at (hvdc_loss_factor_arr data) i (hvdc_loss_factor elm);
  (* hack the bus types to believe they are PV *)
  bus_types ← (if hvdc_active elm then
                 bt ← set_at bus_types f PV;
                 set_at bt t PV
               else Some bus_types);
  (* the bus-hvdc line connectivity *)
  Cf ← set_at2 (C_hvdc_bus_f data) i f 1;
  Ct ← set_at2 (C_hvdc_bus_t data) i t 1;
  Some ({| hvdc_names := names; hvdc_active_arr := active; hvdc_rate_arr := rate;
           hvdc_loss_factor_arr := loss; C_hvdc_bus_f := Cf; C_hvdc_bus_t := Ct |},
        bus_types).

(** [get_hvdc_data(circuit, bus_dict, bus_types, time_series, ntime)]:
    the container, and [bus_types] as the caller sees it afterwards. *)
Definition get_hvdc_data (circuit : MultiCircuit) (bus_dict : BusDict)
    (bus_types : list BusMode) (time_series : bool) (ntime : nat)
    : option (HvdcData * list BusMode) :=
  foldi (hvdc_step bus_dict time_series) 0 (hvdc_lines circuit)
    (new_HvdcData (length (hvdc_lines circuit)) (length (buses circuit)) ntime, bus_types).

(** [i] is an endpoint of an active link of [links]. *)
Definition active_endpoint (bus_dict : BusDict) (links : list HvdcLine) (i : nat) : Prop :=
  exists elm, elm ∈ links /\ hvdc_active elm = true /\
    (bus_index bus_dict (hvdc_bus_from elm) = Some i \/
     bus_index bus_dict (hvdc_bus_to elm) = Some i).

#[global] Instance active_endpoint_dec (bus_dict : BusDict) (links : list HvdcLine) (i : nat) :
  Decision (active_endpoint bus_dict links i).
Proof.
  unfold active_endpoint.
  destruct (decide (Exists (fun elm => hvdc_active elm = true /\
      (bus_index bus_dict (hvdc_bus_from elm) = Some i \/
       bus_index bus_dict (hvdc_bus_to elm) = Some i)) links)) as [H|H];
    [left|right]; rewrite Exists_exists in H; naive_solver.
Defined.

Definition mk_hvdc (name : string) (a b : nat) (active : bool) : HvdcLine :=
  {| hvdc_name := name; hvdc_bus_from := bus_k a; hvdc_bus_to := bus_k b;
     hvdc_active := active; hvdc_active_prof := [active]; hvdc_rate := 100;
     hvdc_rate_prof := [100]; hvdc_loss_factor := 0 |}.

(** Four buses, an active link 0-1 and an inactive link 2-3. *)
Definition hvdc_circuit : MultiCircuit :=
  {| buses := [bus_k 0; bus_k 1; bus_k 2; bus_k 3]; lines := []; transformers2w := [];
     vsc_converters := []; dc_lines := [];
     hvdc_lines := [mk_hvdc "H1" 0 1 true; mk_hvdc "H2" 2 3 false] |}.

(* ------------------------------------------------------------------ *)
(** ** add_dc_nodal_power_balance *)

(** One entry of [numerical_circuit.compute()]: an island's slack and
    PQ/PV positions (island-local), its buses' original indices, and the
    imaginary part of its admittance matrix as a dense matrix. *)
Record CalcInput := {
  ref : list nat;
  pqpv : list nat;
  original_bus_idx : list nat;
  Ybus_imag : list (list Q) }.

(** Constraint names: [name + str(i)] for the three families. *)
Inductive RestrictionName :=
  | Nodal_power_balance_pqpv_is (i : nat)
  | Nodal_power_balance_vd_is (i : nat)
  | Theta_vd_zero_is (i : nat).

Definition name_island (n : RestrictionName) : nat :=
  match n with
  | Nodal_power_balance_pqpv_is i | Nodal_power_balance_vd_is i | Theta_vd_zero_is i => i
  end.

Inductive LpOp := LpEq | LpLe | LpGe.

(** A linear expression [sum coef * var] over the LP variables (ids). *)
Abbreviation LinExpr := (list (Q * nat)).

(** Right-hand sides: an entry of the injection array [P] (an LP
    expression, by id) or a constant. *)
Inductive LpRhs := RhsExpr (e : nat) | RhsConst (q : Q).

Record LpConstraint := {
  c_name : RestrictionName;
  c_pos : nat;
  c_lhs : LinExpr;
  c_op : LpOp;
  c_rhs : LpRhs }.

(** [a[idx]] with an integer index array: IndexError out of range. *)
Definition gather {A} (a : list A) (idx : list nat) : option (list A) :=
  mapM (fun k => a !! k) idx.

(** [B[np.ix_(rows, cols)]] *)
Definition submatrix (B : list (list Q)) (rows cols : list nat) : option (list (list Q)) :=
  mapM (fun r => row ← B !! r; gather row cols) rows.

(** Modelled from the spec: [lpDot] (pulp helper, not under src/), the
    matrix-vector product of a numeric matrix and a vector of LP
    variables: row [r] becomes [sum_c M[r][c] * x[c]]; a shape mismatch
    raises. *)
Definition lpDot (M : list (list Q)) (x : list nat) : option (list LinExpr) :=
  mapM (fun row => if decide (length row = length x) then Some (zip row x) else None) M.

(** Modelled from the spec: [lpAddRestrictions2] (pulp helper, not under
    src/) adds the constraint [lhs[k] op rhs[k]] for every position [k]
    and returns the array of added constraints; a length mismatch raises. *)
Definition lpAddRestrictions2 (problem : list LpConstraint) (lhs : list LinExpr)
    (rhs : list LpRhs) (name : RestrictionName) (op : LpOp)
    : option (list LpConstraint * list LpConstraint) :=
  if decide (length lhs = length rhs) then
    let cs := imap (fun k '(l, r) => {| c_name := name; c_pos := k; c_lhs := l;
                                        c_op := op; c_rhs := r |}) (zip lhs rhs) in
    Some (problem ++ cs, cs)
  else None.

(** One write [a[k] = v] of a fancy-indexed assignment. *)
Definition scatter_step {A} (acc : option (list A)) (kv : nat * A) : option (list A) :=
  acc' ← acc; set_at acc' kv.1 kv.2.

(** [a[idx] = vals] with an integer index array (equal lengths). *)
Definition scatter {A} (a : list A) (idx : list nat) (vals : list A) : option (list A) :=
  if decide (length idx = length vals) then
    fold_left scatter_step (zip idx vals) (Some a)
  else None.

(** Body of the island loop of [add_dc_nodal_power_balance] (source lines
    115-147); [theta] and [P] are the per-bus variable and injection
    arrays, the state is the problem's constraint list and
    [nodal_restrictions]. *)
Definition island_step (theta P : list nat) (i : nat) (calc_inpt : CalcInput)
    (st : list LpConstraint * list (option LpConstraint))
    : option (list LpConstraint * list (option LpConstraint)) :=
  let '(problem, nodal_restrictions) := st in
  if decide (0 < length (ref calc_inpt))%nat then
    let bus_original_idx := original_bus_idx calc_inpt in
    P_island ← gather P bus_original_idx;
    theta_island ← gather theta bus_original_idx;
    let B_island := Ybus_imag calc_inpt in
    let pqpv := pqpv calc_inpt in
    let vd := ref calc_inpt in
    (* nodal power balance for the non slack nodes *)
    idx ← gather bus_original_idx pqpv;
    Bpp ← submatrix B_island pqpv pqpv;
    th_pqpv ← gather theta_island pqpv;
    lhs ← lpDot Bpp th_pqpv;
    P_pqpv ← gather P_island pqpv;
    '(problem, cs) ← lpAddRestrictions2 problem lhs (map RhsExpr P_pqpv)
                       (Nodal_power_balance_pqpv_is i) LpEq;
    nodal_restrictions ← scatter nodal_restrictions idx (map Some cs);
    (* nodal power balance for the slack nodes *)
    idx ← gather bus_original_idx vd;
    Bvd ← gather B_island vd;
    lhs ← lpDot Bvd theta_island;
    P_vd ← gather P_island vd;
    '(problem, cs) ← lpAddRestrictions2 problem lhs (map RhsExpr P_vd)
                       (Nodal_power_balance_vd_is i) LpEq;
    nodal_restrictions ← scatter nodal_restrictions idx (map Some cs);
    (* slack angles equal to zero *)
    th_vd ← gather theta_island vd;
    '(problem, _) ← lpAddRestrictions2 problem (map (fun v => [(1, v)]) th_vd)
                      (map (fun _ => RhsConst 0) vd) (Theta_vd_zero_is i) LpEq;
    Some (problem, nodal_restrictions)
  else Some (problem, nodal_restrictions).

(** [add_dc_nodal_power_balance]: the islands of [numerical_circuit.compute()]
    are an input; returns the problem's constraints and
    [nodal_restrictions = np.empty(nbus, dtype=object)] after the loop. *)
Definition add_dc_nodal_power_balance (calculation_inputs : list CalcInput) (nbus : nat)
    (problem : list LpConstraint) (theta P : list nat)
    : option (list LpConstraint * list (option LpConstraint)) :=
  foldi (island_step theta P) 0 calculation_inputs (problem, replicate nbus None).

(** The constraints an island with a slack bus receives, in the spec's
    words: for its [k]-th PQ/PV bus [p], [sum_{q in pqpv} B[p][q] *
    theta[orig q] = P[orig p]]; for its [k]-th slack bus [v],
    [sum_c B[v][c] * theta[orig c] = P[orig v]] over the full row; and
    [theta[orig v] = 0]. *)
Definition spec_island_constraints (theta P : list nat) (i : nat) (calc : CalcInput)
    : list LpConstraint :=
  let B := Ybus_imag calc in
  let orig := original_bus_idx calc in
  let th c := nth (nth c orig 0%nat) theta 0%nat in
  let Pe c := RhsExpr (nth (nth c orig 0%nat) P 0%nat) in
  imap (fun k p => {| c_name := Nodal_power_balance_pqpv_is i; c_pos := k;
                      c_lhs := map (fun q => (nth q (nth p B []) 0, th q)) (pqpv calc);
                      c_op := LpEq; c_rhs := Pe p |}) (pqpv calc) ++
  imap (fun k v => {| c_name := Nodal_power_balance_vd_is i; c_pos := k;
                      c_lhs := imap (fun c b => (b, th c)) (nth v B []);
                      c_op := LpEq; c_rhs := Pe v |}) (ref calc) ++
  imap (fun k v => {| c_name := Theta_vd_zero_is i; c_pos := k;
                      c_lhs := [(1, th v)]; c_op := LpEq; c_rhs := RhsConst 0 |}) (ref calc).

(** Two islands: buses 0-1 with slack 0 and buses 2-3 with no slack. *)
Definition island_a : CalcInput :=
  {| ref := [0]%nat; pqpv := [1]%nat; original_bus_idx := [0; 1]%nat;
     Ybus_imag := [[-10; 10]; [10; -10]] |}.
Definition island_b : CalcInput :=
  {| ref := []; pqpv := [0; 1]%nat; original_bus_idx := [2; 3]%nat;
     Ybus_imag := [[-5; 5]; [5; -5]] |}.

(** [l] occurs as a contiguous block of [k]. *)
Definition contiguous_in {A} (l k : list A) : Prop :=
  exists l1 l2, k = l1 ++ l ++ l2.

(* ------------------------------------------------------------------ *)
(** ** get_load_data, get_static_generator_data, get_shunt_data *)

(** [a[r, c]] read from a 2-D array. *)
Definition at2 {A} (a : list (list A)) (r c : nat) : option A :=
  a !! r ≫= fun row => row !! c.

(** [f(a, b)] elementwise on two 1-D arrays with numpy broadcasting
    (equal lengths, or one side of length one); a shape mismatch raises. *)
Definition bcast_with {A B C} (f : A -> B -> C) (a : list A) (b : list B) : option (list C) :=
  if decide (length a = length b) then Some (zip_with f a b)
  else match a, b with
       | [x], _ => Some (map (f x) b)
       | _, [y] => Some (map (fun x => f x y) a)
       | _, _ => None
       end.

(** [complex(p, q)] *)
Definition cplx_of (p q : Q) : Cplx := mkC p q.

(** A numpy array of the previous stage's results: 1-D (snapshot, one
    value per device) or 2-D (time-series, time x device). *)
Inductive NdArray := Arr1 (a : list Q) | Arr2 (a : list (list Q)).

(** [a[k]]: a scalar of a 1-D array, a row of a 2-D array. *)
Definition nd_at (a : NdArray) (k : nat) : option (list Q) :=
  match a with
  | Arr1 l => v ← l !! k; Some [v]
  | Arr2 rows => rows !! k
  end.

(** [a[:, k]]: a column of a 2-D array (IndexError on a 1-D array). *)
Definition nd_col (a : NdArray) (k : nat) : option (list Q) :=
  match a with
  | Arr1 _ => None
  | Arr2 rows => mapM (fun row => row !! k) rows
  end.

(** [row -= vals] in place on a complex row: [vals] of the row's length or
    a single value; any other shape raises. *)
Definition isub_row (row : list Cplx) (vals : list Q) : option (list Cplx) :=
  if decide (length vals = length row) then
    Some (zip_with (fun c v => Csub c (mkC v 0)) row vals)
  else match vals with
       | [v] => Some (map (fun c => Csub c (mkC v 0)) row)
       | _ => None
       end.

(** The field of the previous-stage results [get_load_data] reads. *)
Record OpfResults := { load_shedding : NdArray }.

Record Load := {
  ld_name : string; ld_bus : Bus; ld_active : bool;
  ld_P : Q; ld_Q : Q; ld_P_prof : list Q; ld_Q_prof : list Q;
  ld_Cost : Q; ld_Cost_prof : list Q }.

Record LoadData := {
  load_names : list string;
  load_active : list bool;
  load_s : list (list Cplx);
  load_cost : list (list Q);
  C_bus_load : list (list Q) }.

(** Modelled from the spec: the [LoadData] / [LoadOpfData] constructors
    (not under src/) allocate per-load arrays, [ntime]-wide profiles and
    the [nbus] x [nload] bus-load incidence matrix, all zero. *)
Definition new_LoadData (nload nbus ntime : nat) : LoadData :=
  {| load_names := replicate nload ""%string; load_active := replicate nload false;
     load_s := replicate nload (replicate ntime C0);
     load_cost := replicate nload (zeros ntime);
     C_bus_load := replicate nbus (zeros nload) |}.

(** Body of the load loop of [get_load_data] (source lines 52-78). *)
Definition load_step (bus_dict : BusDict) (opf_results : option OpfResults)
    (time_series opf : bool) (k : nat) (elm : Load) (data : LoadData) : option LoadData :=
  i ← bus_index bus_dict (ld_bus elm);
  names ← set_at (load_names data) k (ld_name elm);
  active ← set_at (load_active data) k (ld_active elm);
  '(s, cost) ←
    (if time_series then
       (* data.load_s[k, :] = elm.P_prof + 1j * elm.Q_prof *)
       v ← bcast_with cplx_of (ld_P_prof elm) (ld_Q_prof elm);
       s ← set_row (load_s data) k v;
       cost ← (if opf then set_row (load_cost data) k (ld_Cost_prof elm)
               else Some (load_cost data));
       (* data.load_s[k, :] -= opf_results.load_shedding[:, k] *)
       s ← (match opf_results with
            | Some res =>
                sh ← nd_col (load_shedding res) k;
                row ← s !! k;
                row' ← isub_row row sh;
                set_at s k row'
            | None => Some s
            end);
       Some (s, cost)
     else
       (* data.load_s[k] = complex(elm.P, elm.Q) *)
       s ← set_row (load_s data) k [cplx_of (ld_P elm) (ld_Q elm)];
       cost ← (if opf then set_row (load_cost data) k [ld_Cost elm]
               else Some (load_cost data));
       (* data.load_s[k] -= opf_results.load_shedding[k] *)
       s ← (match opf_results with
            | Some res =>
                sh ← nd_at (load_shedding res) k;
                row ← s !! k;
                row' ← isub_row row sh;
                set_at s k row'
            | None => Some s
            end);
       Some (s, cost));
  C ← set_at2 (C_bus_load data) i k 1;
  Some {| load_names := names; load_active := active; load_s := s; load_cost := cost;
          C_bus_load := C |}.

Definition get_load_data (loads : list Load) (nbus : nat) (bus_dict : BusDict)
    (opf_results : option OpfResults) (time_series opf : bool) (ntime : nat)
  : option LoadData :=
  foldi (load_step bus_dict opf_results time_series opf) 0 loads
    (new_LoadData (length loads) nbus ntime).

Record StaticGenerator := {
  sg_name : string; sg_bus : Bus;
  sg_active : bool; sg_active_prof : list bool;
  sg_P : Q; sg_Q : Q; sg_P_prof : list Q; sg_Q_prof : list Q }.

Record StaticGeneratorData := {
  static_generator_names : list string;
  static_generator_active : list (list bool);
  static_generator_s : list (list Cplx);
  C_bus_static_generator : list (list Q) }.

(** Modelled from the spec: the [StaticGeneratorData] constructor (not
    under src/) allocates per-device arrays, [ntime]-wide profiles and the
    [nbus] x [nstagen] incidence matrix, all zero. *)
Definition new_StaticGeneratorData (nstagen nbus ntime : nat) : StaticGeneratorData :=
  {| static_generator_names := replicate nstagen ""%string;
     static_generator_active := replicate nstagen (replicate ntime false);
     static_generator_s := replicate nstagen (replicate ntime C0);
     C_bus_static_generator := replicate nbus (zeros nstagen) |}.

(** Body of the loop of [get_static_generator_data] (source lines 94-107). *)
Definition static_generator_step (bus_dict : BusDict) (time_series : bool) (k : nat)
    (elm : StaticGenerator) (data : StaticGeneratorData) : option StaticGeneratorData :=
  i ← bus_index bus_dict (sg_bus elm);
  names ← set_at (static_generator_names data) k (sg_name elm);
  '(act, s) ←
    (if time_series then
       act ← set_row (static_generator_active data) k (sg_active_prof elm);
       v ← bcast_with cplx_of (sg_P_prof elm) (sg_Q_prof elm);
       s ← set_row (static_generator_s data) k v;
       Some (act, s)
     else
       act ← set_row (static_generator_active data) k [sg_active elm];
       s ← set_row (static_generator_s data) k [cplx_of (sg_P elm) (sg_Q elm)];
       Some (act, s));
  C ← set_at2 (C_bus_static_generator data) i k 1;
  Some {| static_generator_names := names; static_generator_active := act;
          static_generator_s := s; C_bus_static_generator := C |}.

Definition get_static_generator_data (devices : list StaticGenerator) (nbus : nat)
    (bus_dict : BusDict) (time_series : bool) (ntime : nat) : option StaticGeneratorData :=
  foldi (static_generator_step bus_dict time_series) 0 devices
    (new_StaticGeneratorData (length devices) nbus ntime).

Record Shunt := {
  sh_name : string; sh_bus : Bus;
  sh_active : bool; sh_active_prof : list bool;
  sh_G : Q; sh_B : Q; sh_G_prof : list Q; sh_B_prof : list Q }.

Record ShuntData := {
  shunt_names : list string;
  shunt_active : list (list bool);
  shunt_admittance : list (list Cplx);
  C_bus_shunt : list (list Q) }.

(** Modelled from the spec: the [ShuntData] constructor (not under src/)
    allocates per-shunt arrays, [ntime]-wide profiles and the
    [nbus] x [nshunt] incidence matrix, all zero. *)
Definition new_ShuntData (nshunt nbus ntime : nat) : ShuntData :=
  {| shunt_names := replicate nshunt ""%string;
     shunt_active := replicate nshunt (replicate ntime false);
     shunt_admittance := replicate nshunt (replicate ntime C0);
     C_bus_shunt := replicate nbus (zeros nshunt) |}.

(** Body of the loop of [get_shunt_data] (source lines 124-137). *)
Definition shunt_step (bus_dict : BusDict) (time_series : bool) (k : nat)
    (elm : Shunt) (data : ShuntData) : option ShuntData :=
  i ← bus_index bus_dict (sh_bus elm);
  names ← set_at (shunt_names data) k (sh_name elm);
  '(act, y) ←
    (if time_series then
       act ← set_row (shunt_active data) k (sh_active_prof elm);
       v ← bcast_with cplx_of (sh_G_prof elm) (sh_B_prof elm);
       y ← set_row (shunt_admittance data) k v;
       Some (act, y)
     else
       act ← set_row (shunt_active data) k [sh_active elm];
       y ← set_row (shunt_admittance data) k [cplx_of (sh_G elm) (sh_B elm)];
       Some (act, y));
  C ← set_at2 (C_bus_shunt data) i k 1;
  Some {| shunt_names := names; shunt_active := act; shunt_admittance := y;
          C_bus_shunt := C |}.

Definition get_shunt_data (devices : list Shunt) (nbus : nat) (bus_dict : BusDict)
    (time_series : bool) (ntime : nat) : option ShuntData :=
  foldi (shunt_step bus_dict time_series) 0 devices
    (new_ShuntData (length devices) nbus ntime).
(* ------------------------------------------------------------------ *)
(** ** get_transformer_data, get_vsc_data *)

(** [elm.tap_changer] *)
Record TapChanger := {
  tc_tap : Z; tc_min_tap : Z; tc_max_tap : Z;
  tc_inc_reg_up : Q; tc_inc_reg_down : Q }.

(** The transformer attributes [get_transformer_data] reads beyond those
    of [Transformer2W]; [trc_virtual_taps] is the pair
    [elm.get_virtual_taps()] returns, [trc_control_mode] the
    [TransformerControlType] value, copied as is. *)
Record TransformerCtl := {
  trc_tap_module : Q; trc_angle : Q; trc_bus_to_regulated : bool;
  trc_tap_changer : TapChanger; trc_vset : Q; trc_control_mode : nat;
  trc_virtual_taps : Q * Q }.

Record TransformerData := {
  tr_names : list string;
  tr_R_arr : list Q; tr_X_arr : list Q; tr_G_arr : list Q; tr_B_arr : list Q;
  C_tr_bus : list (list Q);
  tr_tap_mod : list Q; tr_tap_ang : list Q;
  tr_is_bus_to_regulated : list bool;
  tr_tap_position : list Z; tr_min_tap : list Z; tr_max_tap : list Z;
  tr_tap_inc_reg_up : list Q; tr_tap_inc_reg_down : list Q;
  tr_vset : list Q; tr_control_mode : list nat;
  tr_bus_to_regulated_idx : list nat;
  tr_tap_f : list Q; tr_tap_t : list Q }.

(** Modelled from the spec: the [TransformerData] constructor (not under
    src/) allocates per-transformer arrays and the [ntr] x [nbus]
    incidence matrix, all zero. *)
Definition new_TransformerData (ntr nbus : nat) : TransformerData :=
  {| tr_names := replicate ntr ""%string;
     tr_R_arr := zeros ntr; tr_X_arr := zeros ntr; tr_G_arr := zeros ntr; tr_B_arr := zeros ntr;
     C_tr_bus := replicate ntr (zeros nbus);
     tr_tap_mod := zeros ntr; tr_tap_ang := zeros ntr;
     tr_is_bus_to_regulated := replicate ntr false;
     tr_tap_position := replicate ntr 0%Z; tr_min_tap := replicate ntr 0%Z;
     tr_max_tap := replicate ntr 0%Z;
     tr_tap_inc_reg_up := zeros ntr; tr_tap_inc_reg_down := zeros ntr;
     tr_vset := zeros ntr; tr_control_mode := replicate ntr 0%nat;
     tr_bus_to_regulated_idx := replicate ntr 0%nat;
     tr_tap_f := zeros ntr; tr_tap_t := zeros ntr |}.

(** Body of the loop of [get_transformer_data] (source lines 346-377). *)
Definition transformer_step (bus_dict : BusDict) (i : nat)
    (elm : Transformer2W * TransformerCtl) (data : TransformerData)
  : option TransformerData :=
  let '(br, ctl) := elm in
  (* generic stuff *)
  f ← bus_index bus_dict (tr_bus_from br);
  t ← bus_index bus_dict (tr_bus_to br);
  (* impedance *)
  names ← set_at (tr_names data) i (tr_name br);
  Rs ← set_at (tr_R_arr data) i (tr_R br);
  Xs ← set_at (tr_X_arr data) i (tr_X br);
  Gs ← set_at (tr_G_arr data) i (tr_G br);
  Bs ← set_at (tr_B_arr data) i (tr_B br);
  C1 ← set_at2 (C_tr_bus data) i f 1;
  C2 ← set_at2 C1 i t 1;
  (* tap changer *)
  tap_mod ← set_at (tr_tap_mod data) i (trc_tap_module ctl);
  tap_ang ← set_at (tr_tap_ang data) i (trc_angle ctl);
  is_reg ← set_at (tr_is_bus_to_regulated data) i (trc_bus_to_regulated ctl);
  pos ← set_at (tr_tap_position data) i (tc_tap (trc_tap_changer ctl));
  mn ← set_at (tr_min_tap data) i (tc_min_tap (trc_tap_changer ctl));
  mx ← set_at (tr_max_tap data) i (tc_max_tap (trc_tap_changer ctl));
  up ← set_at (tr_tap_inc_reg_up data) i (tc_inc_reg_up (trc_tap_changer ctl));
  down ← set_at (tr_tap_inc_reg_down data) i (tc_inc_reg_down (trc_tap_changer ctl));
  vset ← set_at (tr_vset data) i (trc_vset ctl);
  mode ← set_at (tr_control_mode data) i (trc_control_mode ctl);
  (* data.tr_bus_to_regulated_idx[i] = t if elm.bus_to_regulated else f *)
  reg_idx ← set_at (tr_bus_to_regulated_idx data) i
              (if trc_bus_to_regulated ctl then t else f);
  (* virtual taps *)
  tap_f ← set_at (tr_tap_f data) i (trc_virtual_taps ctl).1;
  tap_t ← set_at (tr_tap_t data) i (trc_virtual_taps ctl).2;
  Some {| tr_names := names; tr_R_arr := Rs; tr_X_arr := Xs; tr_G_arr := Gs; tr_B_arr := Bs;
          C_tr_bus := C2; tr_tap_mod := tap_mod; tr_tap_ang := tap_ang;
          tr_is_bus_to_regulated := is_reg; tr_tap_position := pos;
          tr_min_tap := mn; tr_max_tap := mx;
          tr_tap_inc_reg_up := up; tr_tap_inc_reg_down := down;
          tr_vset := vset; tr_control_mode := mode;
          tr_bus_to_regulated_idx := reg_idx; tr_tap_f := tap_f; tr_tap_t := tap_t |}.

(** [get_transformer_data]: [circuit.transformers2w] paired with each
    transformer's tap attributes. *)
Definition get_transformer_data (transformers : list (Transformer2W * TransformerCtl))
    (nbus : nat) (bus_dict : BusDict) : option TransformerData :=
  foldi (transformer_step bus_dict) 0 transformers
    (new_TransformerData (length transformers) nbus).

(** The converter attributes [get_vsc_data] reads beyond those of
    [VscConverter]; [vc_control_mode] is the [ConverterControlType]
    value, copied as is. *)
Record VscCtl := {
  vc_G0 : Q; vc_Beq : Q; vc_m : Q; vc_theta : Q;
  vc_Pset : Q; vc_Qset : Q; vc_Vac_set : Q; vc_Vdc_set : Q;
  vc_control_mode : nat }.

Record VscData := {
  vsc_names : list string;
  vsc_R1_arr : list Q; vsc_X1_arr : list Q;
  vsc_G0 : list Q; vsc_Beq : list Q; vsc_m : list Q; vsc_theta : list Q;
  vsc_Pset : list Q; vsc_Qset : list Q; vsc_Vac_set : list Q; vsc_Vdc_set : list Q;
  vsc_control_mode : list nat;
  C_vsc_bus : list (list Q) }.

(** Modelled from the spec: the [VscData] constructor (not under src/)
    allocates per-converter arrays and the [nvsc] x [nbus] incidence
    matrix, all zero. *)
Definition new_VscData (nvsc nbus : nat) : VscData :=
  {| vsc_names := replicate nvsc ""%string;
     vsc_R1_arr := zeros nvsc; vsc_X1_arr := zeros nvsc;
     vsc_G0 := zeros nvsc; vsc_Beq := zeros nvsc; vsc_m := zeros nvsc; vsc_theta := zeros nvsc;
     vsc_Pset := zeros nvsc; vsc_Qset := zeros nvsc;
     vsc_Vac_set := zeros nvsc; vsc_Vdc_set := zeros nvsc;
     vsc_control_mode := replicate nvsc 0%nat;
     C_vsc_bus := replicate nvsc (zeros nbus) |}.

(** Body of the loop of [get_vsc_data] (source lines 392-414). *)
Definition vsc_step (bus_dict : BusDict) (i : nat) (elm : VscConverter * VscCtl)
    (nc : VscData) : option VscData :=
  let '(br, ctl) := elm in
  (* generic stuff *)
  f ← bus_index bus_dict (vsc_bus_from br);
  t ← bus_index bus_dict (vsc_bus_to br);
  (* vsc values *)
  names ← set_at (vsc_names nc) i (vsc_name br);
  R1 ← set_at (vsc_R1_arr nc) i (vsc_R1 br);
  X1 ← set_at (vsc_X1_arr nc) i (vsc_X1 br);
  G0 ← set_at (vsc_G0 nc) i (vc_G0 ctl);
  Beq ← set_at (vsc_Beq nc) i (vc_Beq ctl);
  m ← set_at (vsc_m nc) i (vc_m ctl);
  theta ← set_at (vsc_theta nc) i (vc_theta ctl);
  Pset ← set_at (vsc_Pset nc) i (vc_Pset ctl);
  Qset ← set_at (vsc_Qset nc) i (vc_Qset ctl);
  Vac ← set_at (vsc_Vac_set nc) i (vc_Vac_set ctl);
  Vdc ← set_at (vsc_Vdc_set nc) i (vc_Vdc_set ctl);
  mode ← set_at (vsc_control_mode nc) i (vc_control_mode ctl);
  C1 ← set_at2 (C_vsc_bus nc) i f 1;
  C2 ← set_at2 C1 i t 1;
  Some {| vsc_names := names; vsc_R1_arr := R1; vsc_X1_arr := X1;
          vsc_G0 := G0; vsc_Beq := Beq; vsc_m := m; vsc_theta := theta;
          vsc_Pset := Pset; vsc_Qset := Qset; vsc_Vac_set := Vac; vsc_Vdc_set := Vdc;
          vsc_control_mode := mode; C_vsc_bus := C2 |}.

(** [get_vsc_data]: [circuit.vsc_converters] paired with each
    converter's control attributes. *)
Definition get_vsc_data (converters : list (VscConverter * VscCtl)) (nbus : nat)
    (bus_dict : BusDict) : option VscData :=
  foldi (vsc_step bus_dict) 0 converters (new_VscData (length converters) nbus).
(* ------------------------------------------------------------------ *)
(** ** OpfSimple result accessors not used by the dispatch claims *)

(** [get_loading]: [self.s_from / self.rating], elementwise with
    broadcasting. *)
Definition get_loading (st : OpfSimpleState) : option (list Flt) :=
  broadcast2 fdiv (opf_s_from st) (opf_rating st).

(** [get_load_power]: [self.Pl * self.numerical_circuit.Sbase]. *)
Definition get_load_power (nc : NumericalCircuit) (st : OpfSimpleState) : list Flt :=
  map (fun x => fmul x (Fin (nc_Sbase nc))) (opf_Pl st).

(** Two loads at buses 2 and 0, a static generator at bus 1, a shunt at
    bus 3, and the transformer and converter of [ex_circuit] with their
    tap and control attributes. *)
Definition mk_load (name : string) (b : nat) : Load :=
  {| ld_name := name; ld_bus := bus_k b; ld_active := true;
     ld_P := 10; ld_Q := 5; ld_P_prof := [10; 12]; ld_Q_prof := [5; 6];
     ld_Cost := 2; ld_Cost_prof := [2; 2] |}.
Definition ex_loads : list Load := [mk_load "LD1" 2; mk_load "LD2" 0].

Definition ex_static_generators : list StaticGenerator :=
  [{| sg_name := "SG1"; sg_bus := bus_k 1; sg_active := true; sg_active_prof := [true; false];
      sg_P := 3; sg_Q := 1; sg_P_prof := [3; 4]; sg_Q_prof := [1; 1] |}].

Definition ex_shunts : list Shunt :=
  [{| sh_name := "SH1"; sh_bus := bus_k 3; sh_active := true; sh_active_prof := [true; true];
      sh_G := 0; sh_B := 0.5; sh_G_prof := [0; 0]; sh_B_prof := [0.5; 0.4] |}].

Definition ex_tap_changer : TapChanger :=
  {| tc_tap := 0; tc_min_tap := -5; tc_max_tap := 5;
     tc_inc_reg_up := 0.01; tc_inc_reg_down := 0.01 |}.
Definition ex_transformers : list (Transformer2W * TransformerCtl) :=
  map (fun tr => (tr, {| trc_tap_module := 1; trc_angle := 0; trc_bus_to_regulated := true;
                         trc_tap_changer := ex_tap_changer; trc_vset := 1;
                         trc_control_mode := 0; trc_virtual_taps := (1, 1) |}))
      (transformers2w ex_circuit).
Definition ex_converters : list (VscConverter * VscCtl) :=
  map (fun c => (c, {| vc_G0 := 0; vc_Beq := 0; vc_m := 1; vc_theta := 0;
                       vc_Pset := 0; vc_Qset := 0; vc_Vac_set := 1; vc_Vdc_set := 1;
                       vc_control_mode := 0 |}))
      (vsc_converters ex_circuit).

(** Two branches, the second with a zero rating, and two loads, the
    second inactive. *)
Definition accessor_nc : NumericalCircuit :=
  {| nc_nbus := 2; nc_nbr := 2; nc_n_ctrl_gen := 1; nc_n_batt := 0; nc_n_ld := 2; nc_Sbase := 100;
     nc_generator_pmax := [100]; nc_generator_active := [true];
     nc_load_active := [true; false]; nc_load_power := [mkC 30 5; mkC 20 1];
     nc_br_rates := [100; 0] |}.



(** Every row of a 2-D array has [n] entries. *)
Definition rows_len {A} (a : list (list A)) (n : nat) : Prop :=
  forall r row, a !! r = Some row -> length row = n.

(** What one body of a device loop with an active-profile row and a
    power (or admittance) row writes at row [k], in either mode. *)
Definition rows_written {D E} (ts : bool) (ntime : nat) (act : bool) (act_prof : list bool)
    (c : E) (pa pb : list D) (f : D -> D -> E) (va : list bool) (vs : list E) : Prop :=
  (ts = false -> va = replicate ntime act /\ vs = replicate ntime c) /\
  (ts = true -> length act_prof = ntime -> length pa = ntime -> length pb = ntime ->
     va = act_prof /\ vs = zip_with f pa pb).

(* ================================================================== *)
(** * Properties *)

(** ** Generic lemmas on array writes and enumerate-loops *)

Lemma set_at_Some {A} (l l' : list A) i v :
  set_at l i v = Some l' -> (i < length l)%nat /\ l' = <[i:=v]> l.
Proof. unfold set_at. case_decide; intros Heq; [by inversion Heq | done]. Qed.

Ltac inv_binds :=
  repeat match goal with
  | H : _ ≫= _ = Some _ |- _ =>
      apply bind_Some in H; destruct H as (? & ? & H)
  | H : mbind _ _ = Some _ |- _ =>
      apply bind_Some in H; destruct H as (? & ? & H)
  | H : set_at _ _ _ = Some _ |- _ =>
      apply set_at_Some in H; destruct H as [? ?]; subst
  | H : Some _ = Some _ |- _ => injection H as H; subst
  end.

Lemma foldi_invariant {A St} (f : nat -> A -> St -> option St) (P : St -> Prop) :
  (forall j x s s', f j x s = Some s' -> P s -> P s') ->
  forall xs i s s', foldi f i xs s = Some s' -> P s -> P s'.
Proof.
  intros Hstep xs. induction xs as [|x xs IH]; intros i s s' Hf HP; simpl in Hf.
  - by injection Hf as <-.
  - apply bind_Some in Hf as (s1 & Hs1 & Hrest). eapply IH; [exact Hrest|]. eauto.
Qed.

(** A loop whose body at index [j] writes one value, related to the
    element by [Rel], at position [off + j] of the array [proj]: after the
    loop each element's value sits at its position and no other position
    has changed. *)
Lemma foldi_writes {A St V} (f : nat -> A -> St -> option St) (proj : St -> list V)
    (Rel : A -> V -> Prop) (off : nat) :
  (forall j x s s', f j x s = Some s' ->
     exists v, Rel x v /\ (off + j < length (proj s))%nat /\
               proj s' = <[(off + j)%nat := v]> (proj s)) ->
  forall xs i s s', foldi f i xs s = Some s' ->
  length (proj s') = length (proj s) /\
  (forall k x, xs !! k = Some x ->
     exists v, Rel x v /\ proj s' !! (off + i + k)%nat = Some v) /\
  (forall p, (p < off + i \/ off + i + length xs <= p)%nat -> proj s' !! p = proj s !! p).
Proof.
  intros Hstep xs. induction xs as [|x xs IH]; intros i s s' Hf; simpl in Hf.
  - injection Hf as <-. split; [done|]. split; [|done]. intros k x Hk. done.
  - apply bind_Some in Hf as (s1 & Hs1 & Hrest).
    destruct (Hstep _ _ _ _ Hs1) as (v & Hv & Hlt & Heq).
    destruct (IH _ _ _ Hrest) as (Hlen & Hat & Hfr).
    split; [|split].
    + by rewrite Hlen, Heq, length_insert.
    + intros [|k] y Hk; simpl in Hk.
      * injection Hk as <-. exists v. split; [done|].
        rewrite Hfr by lia. rewrite Heq. rewrite Nat.add_0_r.
        by apply list_lookup_insert_eq.
      * destruct (Hat _ _ Hk) as (w & Hw & Hlk). exists w. split; [done|].
        by replace (off + i + S k)%nat with (off + S i + k)%nat by lia.
    + intros p Hp. simpl in Hp. rewrite Hfr by lia. rewrite Heq.
      apply list_lookup_insert_ne. lia.
Qed.

(** ** Step lemmas of the branch builders *)

Lemma tolerance_scale_spec (temp : bool) (mode : BranchImpedanceMode) (Rn Rc tol : Q) :
  tolerance_scale mode tol (if temp then Rc else Rn) = spec_corrected_R temp mode Rn Rc tol.
Proof. by destruct mode. Qed.

(** The two writes [R[i] = base; R[i] *= factor] amount to one write. *)
Lemma set_R_corrected_spec (d d' : BranchData) (i : nat) (temp : bool)
    (mode : BranchImpedanceMode) (Rn Rc tol : Q) :
  set_R_corrected d i temp mode Rn Rc tol = Some d' ->
  (i < length (R d))%nat /\
  R d' = <[i := spec_corrected_R temp mode Rn Rc tol]> (R d) /\
  branch_names d' = branch_names d /\ F d' = F d /\ T d' = T d.
Proof.
  unfold set_R_corrected, set_R. intros H. inv_binds. simpl in *.
  match goal with
  | H : <[_:=_]> _ !! _ = Some _ |- _ =>
      rewrite list_lookup_insert_eq in H by done; injection H as <-
  end.
  repeat split; try done.
  by rewrite list_insert_insert_eq, tolerance_scale_spec.
Qed.

Lemma set_generic_spec (d d' : BranchData) (ii : nat) (name : string) (act : bool)
    (rate : Q) (f t : nat) :
  set_generic d ii name act rate f t = Some d' ->
  (ii < length (branch_names d))%nat /\ (ii < length (F d))%nat /\ (ii < length (T d))%nat /\
  branch_names d' = <[ii:=name]> (branch_names d) /\
  F d' = <[ii:=f]> (F d) /\ T d' = <[ii:=t]> (T d) /\ R d' = R d.
Proof. unfold set_generic. intros H. inv_binds. simpl. done. Qed.

Ltac simpl_setters :=
  repeat match goal with
  | H : set_X _ _ _ = Some _ |- _ => unfold set_X in H; inv_binds; simpl in *
  | H : set_G _ _ _ = Some _ |- _ => unfold set_G in H; inv_binds; simpl in *
  | H : set_B _ _ _ = Some _ |- _ => unfold set_B in H; inv_binds; simpl in *
  | H : set_R _ _ _ = Some _ |- _ => unfold set_R in H; inv_binds; simpl in *
  | H : set_generic _ _ _ _ _ _ _ = Some _ |- _ =>
      apply set_generic_spec in H; destruct H as (? & ? & ? & ? & ? & ? & ?)
  | H : set_R_corrected _ _ _ _ _ _ _ = Some _ |- _ =>
      apply set_R_corrected_spec in H; destruct H as (? & ? & ? & ? & ?)
  end.

(** Generic fields of branch class entries: name and incidence indices. *)
Definition generic_written (bd : BusDict) (ii : nat) (s s' : BranchData)
    (name : string) (bf bt : Bus) : Prop :=
  exists f t, bus_index bd bf = Some f /\ bus_index bd bt = Some t /\
  (ii < length (branch_names s))%nat /\ (ii < length (F s))%nat /\ (ii < length (T s))%nat /\
  branch_names s' = <[ii:=name]> (branch_names s) /\
  F s' = <[ii:=f]> (F s) /\ T s' = <[ii:=t]> (T s).

Lemma branch_line_step_spec (bd : BusDict) (temp : bool) (mode : BranchImpedanceMode)
    (j : nat) (x : Line) (s s' : BranchData) :
  branch_line_step bd temp mode j x s = Some s' ->
  generic_written bd j s s' (line_name x) (line_bus_from x) (line_bus_to x) /\
  (j < length (R s))%nat /\
  R s' = <[j := spec_corrected_R temp mode (line_R x) (line_R_corrected x) (line_tolerance x)]> (R s).
Proof.
  unfold branch_line_step. intros H. inv_binds. simpl_setters. subst.
  unfold generic_written; simpl.
  split; [do 2 eexists; split_and!; eauto; congruence | split; congruence].
Qed.

Lemma branch_tr_step_spec (bd : BusDict) (nline j : nat) (x : Transformer2W)
    (s s' : BranchData) :
  branch_tr_step bd nline j x s = Some s' ->
  generic_written bd (nline + j) s s' (tr_name x) (tr_bus_from x) (tr_bus_to x).
Proof.
  unfold branch_tr_step. rewrite (Nat.add_comm nline j). intros H. inv_binds.
  simpl_setters. subst. unfold generic_written; simpl.
  do 2 eexists; split_and!; eauto; congruence.
Qed.

Lemma branch_vsc_step_spec (bd : BusDict) (nline ntr j : nat) (x : VscConverter)
    (s s' : BranchData) :
  branch_vsc_step bd nline ntr j x s = Some s' ->
  generic_written bd (nline + ntr + j) s s' (vsc_name x) (vsc_bus_from x) (vsc_bus_to x).
Proof.
  unfold branch_vsc_step.
  replace (j + nline + ntr)%nat with (nline + ntr + j)%nat by lia. intros H. inv_binds.
  simpl_setters. subst. unfold generic_written; simpl.
  do 2 eexists; split_and!; eauto; congruence.
Qed.

Lemma branch_dc_step_spec (bd : BusDict) (temp : bool) (mode : BranchImpedanceMode)
    (nline ntr nvsc j : nat) (x : DcLine) (s s' : BranchData) :
  branch_dc_step bd temp mode nline ntr nvsc j x s = Some s' ->
  generic_written bd (nline + ntr + nvsc + j) s s' (dc_name x) (dc_bus_from x) (dc_bus_to x) /\
  (j < length (R s))%nat /\
  R s' = <[j := spec_corrected_R temp mode (dc_R x) (dc_R_corrected x) (dc_tolerance x)]> (R s).
Proof.
  unfold branch_dc_step.
  replace (j + nline + ntr + nvsc)%nat with (nline + ntr + nvsc + j)%nat by lia. intros H.
  inv_binds. simpl_setters. subst. unfold generic_written; simpl.
  split; [do 2 eexists; split_and!; eauto; congruence | split; congruence].
Qed.

(** Four consecutive loops writing one array at consecutive offsets. *)
Lemma stacked_writes {A1 A2 A3 A4 St V}
    (f1 : nat -> A1 -> St -> option St) (f2 : nat -> A2 -> St -> option St)
    (f3 : nat -> A3 -> St -> option St) (f4 : nat -> A4 -> St -> option St)
    (proj : St -> list V) (R1 : A1 -> V -> Prop) (R2 : A2 -> V -> Prop)
    (R3 : A3 -> V -> Prop) (R4 : A4 -> V -> Prop)
    (xs1 : list A1) (xs2 : list A2) (xs3 : list A3) (xs4 : list A4)
    (s0 s1 s2 s3 s4 : St) :
  let n1 := length xs1 in let n2 := length xs2 in let n3 := length xs3 in
  (forall j x s s', f1 j x s = Some s' -> exists v, R1 x v /\
     (0 + j < length (proj s))%nat /\ proj s' = <[(0 + j)%nat := v]> (proj s)) ->
  (forall j x s s', f2 j x s = Some s' -> exists v, R2 x v /\
     (n1 + j < length (proj s))%nat /\ proj s' = <[(n1 + j)%nat := v]> (proj s)) ->
  (forall j x s s', f3 j x s = Some s' -> exists v, R3 x v /\
     (n1 + n2 + j < length (proj s))%nat /\ proj s' = <[(n1 + n2 + j)%nat := v]> (proj s)) ->
  (forall j x s s', f4 j x s = Some s' -> exists v, R4 x v /\
     (n1 + n2 + n3 + j < length (proj s))%nat /\
     proj s' = <[(n1 + n2 + n3 + j)%nat := v]> (proj s)) ->
  foldi f1 0 xs1 s0 = Some s1 -> foldi f2 0 xs2 s1 = Some s2 ->
  foldi f3 0 xs3 s2 = Some s3 -> foldi f4 0 xs4 s3 = Some s4 ->
  length (proj s4) = length (proj s0) /\
  (forall k x, xs1 !! k = Some x -> exists v, R1 x v /\ proj s4 !! k = Some v) /\
  (forall k x, xs2 !! k = Some x -> exists v, R2 x v /\ proj s4 !! (n1 + k)%nat = Some v) /\
  (forall k x, xs3 !! k = Some x ->
     exists v, R3 x v /\ proj s4 !! (n1 + n2 + k)%nat = Some v) /\
  (forall k x, xs4 !! k = Some x ->
     exists v, R4 x v /\ proj s4 !! (n1 + n2 + n3 + k)%nat = Some v).
Proof.
  intros n1 n2 n3 S1 S2 S3 S4 H1 H2 H3 H4.
  destruct (foldi_writes _ _ _ _ S1 _ _ _ _ H1) as (L1 & A1' & _).
  destruct (foldi_writes _ _ _ _ S2 _ _ _ _ H2) as (L2 & A2' & F2).
  destruct (foldi_writes _ _ _ _ S3 _ _ _ _ H3) as (L3 & A3' & F3).
  destruct (foldi_writes _ _ _ _ S4 _ _ _ _ H4) as (L4 & A4' & F4).
  split; [congruence|]. split_and!.
  - intros k x Hk. destruct (A1' _ _ Hk) as (v & Hv & Hl). exists v. split; [done|].
    pose proof (lookup_lt_Some _ _ _ Hk).
    rewrite F4, F3, F2 by (subst n1 n2 n3; lia). done.
  - intros k x Hk. destruct (A2' _ _ Hk) as (v & Hv & Hl). exists v. split; [done|].
    pose proof (lookup_lt_Some _ _ _ Hk).
    rewrite F4, F3 by (subst n1 n2 n3; lia). by rewrite Nat.add_0_r in Hl.
  - intros k x Hk. destruct (A3' _ _ Hk) as (v & Hv & Hl). exists v. split; [done|].
    pose proof (lookup_lt_Some _ _ _ Hk).
    rewrite F4 by (subst n1 n2 n3; lia). by rewrite Nat.add_0_r in Hl.
  - intros k x Hk. destruct (A4' _ _ Hk) as (v & Hv & Hl). exists v. split; [done|].
    by rewrite Nat.add_0_r in Hl.
Qed.

Lemma gw_names (bd : BusDict) (ii : nat) (s s' : BranchData) (name : string) (bf bt : Bus) :
  generic_written bd ii s s' name bf bt ->
  exists v, v = name /\ (ii < length (branch_names s))%nat /\
            branch_names s' = <[ii:=v]> (branch_names s).
Proof. intros (f & t & _ & _ & ? & _ & _ & ? & _). eauto. Qed.

Lemma gw_F (bd : BusDict) (ii : nat) (s s' : BranchData) (name : string) (bf bt : Bus) :
  generic_written bd ii s s' name bf bt ->
  exists v, bus_index bd bf = Some v /\ (ii < length (F s))%nat /\ F s' = <[ii:=v]> (F s).
Proof. intros (f & t & ? & _ & _ & ? & _ & _ & ? & _). eauto. Qed.

Lemma gw_T (bd : BusDict) (ii : nat) (s s' : BranchData) (name : string) (bf bt : Bus) :
  generic_written bd ii s s' name bf bt ->
  exists v, bus_index bd bt = Some v /\ (ii < length (T s))%nat /\ T s' = <[ii:=v]> (T s).
Proof. intros (f & t & _ & ? & _ & _ & ? & _ & _ & ?). eauto. Qed.

(** ** C6: the unified branch stacking order *)

(** Claim C6: [get_branch_data] returns a container of length
    nline+ntr+nvsc+ndcline in which the name and the from/to bus indices
    of AC line i sit at position i, of transformer i at nline+i, of
    converter i at nline+ntr+i and of DC line i at nline+ntr+nvsc+i, each
    class in its input order. *)
Theorem get_branch_data_stacking (c : MultiCircuit) (bd : BusDict) (temp : bool)
    (mode : BranchImpedanceMode) (d : BranchData) :
  get_branch_data c bd temp mode = Some d ->
  let nline := length (lines c) in
  let ntr := length (transformers2w c) in
  let nvsc := length (vsc_converters c) in
  let ndcline := length (dc_lines c) in
  length (branch_names d) = (nline + ntr + nvsc + ndcline)%nat /\
  length (F d) = (nline + ntr + nvsc + ndcline)%nat /\
  length (T d) = (nline + ntr + nvsc + ndcline)%nat /\
  (forall i elm, lines c !! i = Some elm ->
     branch_names d !! i = Some (line_name elm) /\
     F d !! i = bus_index bd (line_bus_from elm) /\
     T d !! i = bus_index bd (line_bus_to elm)) /\
  (forall i elm, transformers2w c !! i = Some elm ->
     branch_names d !! (nline + i)%nat = Some (tr_name elm) /\
     F d !! (nline + i)%nat = bus_index bd (tr_bus_from elm) /\
     T d !! (nline + i)%nat = bus_index bd (tr_bus_to elm)) /\
  (forall i elm, vsc_converters c !! i = Some elm ->
     branch_names d !! (nline + ntr + i)%nat = Some (vsc_name elm) /\
     F d !! (nline + ntr + i)%nat = bus_index bd (vsc_bus_from elm) /\
     T d !! (nline + ntr + i)%nat = bus_index bd (vsc_bus_to elm)) /\
  (forall i elm, dc_lines c !! i = Some elm ->
     branch_names d !! (nline + ntr + nvsc + i)%nat = Some (dc_name elm) /\
     F d !! (nline + ntr + nvsc + i)%nat = bus_index bd (dc_bus_from elm) /\
     T d !! (nline + ntr + nvsc + i)%nat = bus_index bd (dc_bus_to elm)).
Proof.
  unfold get_branch_data. intros H. inv_binds.
  rename H0 into H1, H1 into H2, H2 into H3.
  destruct (stacked_writes _ _ _ _ branch_names
              (fun x v => v = line_name x) (fun x v => v = tr_name x)
              (fun x v => v = vsc_name x) (fun x v => v = dc_name x)
              _ _ _ _ _ _ _ _ _
              ltac:(intros; eapply gw_names, branch_line_step_spec; eauto)
              ltac:(intros; eapply gw_names, branch_tr_step_spec; eauto)
              ltac:(intros; eapply gw_names, branch_vsc_step_spec; eauto)
              ltac:(intros; eapply gw_names, branch_dc_step_spec; eauto)
              H1 H2 H3 H) as (Ln & N1 & N2 & N3 & N4).
  destruct (stacked_writes _ _ _ _ F
              (fun x v => bus_index bd (line_bus_from x) = Some v)
              (fun x v => bus_index bd (tr_bus_from x) = Some v)
              (fun x v => bus_index bd (vsc_bus_from x) = Some v)
              (fun x v => bus_index bd (dc_bus_from x) = Some v)
              _ _ _ _ _ _ _ _ _
              ltac:(intros; eapply gw_F, branch_line_step_spec; eauto)
              ltac:(intros; eapply gw_F, branch_tr_step_spec; eauto)
              ltac:(intros; eapply gw_F, branch_vsc_step_spec; eauto)
              ltac:(intros; eapply gw_F, branch_dc_step_spec; eauto)
              H1 H2 H3 H) as (Lf & F1 & F2 & F3 & F4).
  destruct (stacked_writes _ _ _ _ T
              (fun x v => bus_index bd (line_bus_to x) = Some v)
              (fun x v => bus_index bd (tr_bus_to x) = Some v)
              (fun x v => bus_index bd (vsc_bus_to x) = Some v)
              (fun x v => bus_index bd (dc_bus_to x) = Some v)
              _ _ _ _ _ _ _ _ _
              ltac:(intros; eapply gw_T, branch_line_step_spec; eauto)
              ltac:(intros; eapply gw_T, branch_tr_step_spec; eauto)
              ltac:(intros; eapply gw_T, branch_vsc_step_spec; eauto)
              ltac:(intros; eapply gw_T, branch_dc_step_spec; eauto)
              H1 H2 H3 H) as (Lt & T1 & T2 & T3 & T4).
  simpl in Ln, Lf, Lt. rewrite ?length_replicate in Ln. rewrite ?length_replicate in Lf. rewrite ?length_replicate in Lt.
  split_and!; try done.
  - intros i elm Hi.
    destruct (N1 _ _ Hi) as (? & -> & ?). destruct (F1 _ _ Hi) as (? & ? & ?).
    destruct (T1 _ _ Hi) as (? & ? & ?). split_and!; congruence.
  - intros i elm Hi.
    destruct (N2 _ _ Hi) as (? & -> & ?). destruct (F2 _ _ Hi) as (? & ? & ?).
    destruct (T2 _ _ Hi) as (? & ? & ?). split_and!; congruence.
  - intros i elm Hi.
    destruct (N3 _ _ Hi) as (? & -> & ?). destruct (F3 _ _ Hi) as (? & ? & ?).
    destruct (T3 _ _ Hi) as (? & ? & ?). split_and!; congruence.
  - intros i elm Hi.
    destruct (N4 _ _ Hi) as (? & -> & ?). destruct (F4 _ _ Hi) as (? & ? & ?).
    destruct (T4 _ _ Hi) as (? & ? & ?). split_and!; congruence.
Qed.

Lemma get_branch_data_stacking_witness :
  exists d, get_branch_data ex_circuit ex_bus_dict false Nominal = Some d /\
  length (branch_names d) = 5%nat /\
  branch_names d !! 2%nat = Some "T1"%string /\ branch_names d !! 3%nat = Some "C1"%string /\
  branch_names d !! 4%nat = Some "D1"%string /\ F d !! 4%nat = Some 0%nat.
Proof.
  eexists. split; [vm_compute; reflexivity|].
  destruct (get_branch_data_stacking ex_circuit ex_bus_dict false Nominal _
              ltac:(vm_compute; reflexivity)) as (L & _ & _ & _ & H2 & H3 & H4).
  destruct (H2 0%nat _ eq_refl) as (N2 & _).
  destruct (H3 0%nat _ eq_refl) as (N3 & _).
  destruct (H4 0%nat _ eq_refl) as (N4 & F4 & _).
  split_and!; [exact L | exact N2 | exact N3 | exact N4 | exact F4].
Defined.

(** ** C1: the DC-line resistance in the unified container *)

(** Claim C1 (evaluated): on two AC lines (R = 0.1, 0.2), one
    transformer (R = 0.01), one converter (R1 = 0.001) and one DC line
    (R = 0.5), the DC line's resistance lands at position 0, replacing the
    first AC line's 0.1, and its unified position 4 keeps the initial 0. *)
Lemma get_branch_data_dc_R_misplaced :
  option_map R (get_branch_data ex_circuit ex_bus_dict false Nominal)
  = Some [0.5; 0.2; 0.01; 0.001; 0].
Proof. vm_compute. reflexivity. Qed.

(** ** C5: resistance correction in get_line_data and get_dc_line_data *)

Lemma line_step_R (bd : BusDict) (temp : bool) (mode : BranchImpedanceMode)
    (j : nat) (x : Line) (s s' : LinesData) :
  line_step bd temp mode j x s = Some s' ->
  exists v, v = spec_corrected_R temp mode (line_R x) (line_R_corrected x) (line_tolerance x) /\
    (0 + j < length (line_R_arr s))%nat /\ line_R_arr s' = <[(0 + j)%nat := v]> (line_R_arr s).
Proof.
  unfold line_step. intros H. inv_binds. simpl.
  match goal with
  | H : <[_:=_]> _ !! _ = Some _ |- _ =>
      rewrite list_lookup_insert_eq in H by done; injection H as <-
  end.
  eexists; split_and!; [reflexivity|done|].
  by rewrite list_insert_insert_eq, tolerance_scale_spec.
Qed.

Lemma dc_line_step_R (bd : BusDict) (temp : bool) (mode : BranchImpedanceMode)
    (j : nat) (x : DcLine) (s s' : DcLinesData) :
  dc_line_step bd temp mode j x s = Some s' ->
  exists v, v = spec_corrected_R temp mode (dc_R x) (dc_R_corrected x) (dc_tolerance x) /\
    (0 + j < length (dc_line_R s))%nat /\ dc_line_R s' = <[(0 + j)%nat := v]> (dc_line_R s).
Proof.
  unfold dc_line_step. intros H. inv_binds. simpl.
  match goal with
  | H : <[_:=_]> _ !! _ = Some _ |- _ =>
      rewrite list_lookup_insert_eq in H by done; injection H as <-
  end.
  eexists; split_and!; [reflexivity|done|].
  by rewrite list_insert_insert_eq, tolerance_scale_spec.
Qed.

(** Claim C5: for every line of [get_line_data] and every DC line of
    [get_dc_line_data], the stored resistance is the base resistance
    (R_corrected when the temperature flag is set, R otherwise) times
    (1 - tol/100) in Lower mode, times (1 + tol/100) in Upper mode and
    unchanged in Nominal mode: one scaling, after the temperature choice. *)
Theorem line_and_dc_line_R_correction (c : MultiCircuit) (bd : BusDict) (temp : bool)
    (mode : BranchImpedanceMode) :
  (forall nc, get_line_data c bd temp mode = Some nc ->
     forall i elm, lines c !! i = Some elm ->
     line_R_arr nc !! i =
       Some (spec_corrected_R temp mode (line_R elm) (line_R_corrected elm) (line_tolerance elm))) /\
  (forall nc, get_dc_line_data c bd temp mode = Some nc ->
     forall i elm, dc_lines c !! i = Some elm ->
     dc_line_R nc !! i =
       Some (spec_corrected_R temp mode (dc_R elm) (dc_R_corrected elm) (dc_tolerance elm))).
Proof.
  split.
  - intros nc H i elm Hi.
    destruct (foldi_writes _ line_R_arr _ 0 (line_step_R bd temp mode) _ _ _ _ H)
      as (_ & At & _).
    destruct (At _ _ Hi) as (v & -> & Hv). exact Hv.
  - intros nc H i elm Hi.
    destruct (foldi_writes _ dc_line_R _ 0 (dc_line_step_R bd temp mode) _ _ _ _ H)
      as (_ & At & _).
    destruct (At _ _ Hi) as (v & -> & Hv). exact Hv.
Qed.

Lemma line_and_dc_line_R_correction_witness :
  (exists nc r, get_line_data tol_circuit ex_bus_dict false Lower = Some nc /\
     line_R_arr nc !! 0%nat = Some r /\ r == 0.09) /\
  (exists nc r, get_line_data tol_circuit ex_bus_dict false Upper = Some nc /\
     line_R_arr nc !! 0%nat = Some r /\ r == 0.11) /\
  (exists nc r, get_line_data tol_circuit ex_bus_dict false Nominal = Some nc /\
     line_R_arr nc !! 0%nat = Some r /\ r == 0.1) /\
  (exists nc r, get_dc_line_data tol_circuit ex_bus_dict false Lower = Some nc /\
     dc_line_R nc !! 0%nat = Some r /\ r == 0.09).
Proof.
  split_and!.
  - eexists; eexists; split; [vm_compute; reflexivity|]. split.
    + apply (proj1 (line_and_dc_line_R_correction tol_circuit ex_bus_dict false Lower)
               _ ltac:(vm_compute; reflexivity) 0%nat _ eq_refl).
    + reflexivity.
  - eexists; eexists; split; [vm_compute; reflexivity|]. split.
    + apply (proj1 (line_and_dc_line_R_correction tol_circuit ex_bus_dict false Upper)
               _ ltac:(vm_compute; reflexivity) 0%nat _ eq_refl).
    + reflexivity.
  - eexists; eexists; split; [vm_compute; reflexivity|]. split.
    + apply (proj1 (line_and_dc_line_R_correction tol_circuit ex_bus_dict false Nominal)
               _ ltac:(vm_compute; reflexivity) 0%nat _ eq_refl).
    + reflexivity.
  - eexists; eexists; split; [vm_compute; reflexivity|]. split.
    + apply (proj2 (line_and_dc_line_R_correction tol_circuit ex_bus_dict false Lower)
               _ ltac:(vm_compute; reflexivity) 0%nat _ eq_refl).
    + reflexivity.
Defined.

(** ** The voltage-seed side channel of get_generator_data / get_battery_data *)

Lemma foldi_seed_all {A D} (f : nat -> A -> D * Vbus_t * list Warning ->
                                 option (D * Vbus_t * list Warning))
    (dev : A -> Bus * Q) (bd : BusDict) :
  (forall k x d V L d' V' L', f k x (d, V, L) = Some (d', V', L') ->
     exists i, bus_index bd (dev x).1 = Some i /\
               seed_vbus V L i (dev x).1 (dev x).2 = Some (V', L')) ->
  forall xs k d V L d' V' L', foldi f k xs (d, V, L) = Some (d', V', L') ->
  seed_all bd V L (map dev xs) = Some (V', L').
Proof.
  intros Hstep xs. induction xs as [|x xs IH]; intros k d V L d' V' L' Hf; simpl in Hf.
  - by injection Hf as -> -> ->.
  - apply bind_Some in Hf as ([[d1 V1] L1] & H1 & Hrest).
    destruct (Hstep _ _ _ _ _ _ _ _ H1) as (i & Hi & Hs).
    simpl. destruct (dev x) as [b vset] eqn:Hdev. simpl in *.
    rewrite Hi. simpl. rewrite Hs. simpl. eapply IH; eauto.
Qed.

Lemma generator_step_seed (bd : BusDict) (ts opf : bool) (k : nat) (x : Generator)
    (d : GeneratorData) (V : Vbus_t) (L : list Warning) (d' : GeneratorData)
    (V' : Vbus_t) (L' : list Warning) :
  generator_step bd ts opf k x (d, V, L) = Some (d', V', L') ->
  exists i, bus_index bd (gen_bus x) = Some i /\
            seed_vbus V L i (gen_bus x) (gen_Vset x) = Some (V', L').
Proof.
  unfold generator_step. intros H. inv_binds.
  eexists; split; [eassumption|].
  match goal with H : seed_vbus _ _ _ _ _ = Some ?vl |- _ => rewrite H; by destruct vl end.
Qed.

Lemma battery_step_seed (bd : BusDict) (ts opf : bool) (k : nat) (x : Battery)
    (d : BatteryData) (V : Vbus_t) (L : list Warning) (d' : BatteryData)
    (V' : Vbus_t) (L' : list Warning) :
  battery_step bd ts opf k x (d, V, L) = Some (d', V', L') ->
  exists i, bus_index bd (batt_bus x) = Some i /\
            seed_vbus V L i (batt_bus x) (batt_Vset x) = Some (V', L').
Proof.
  unfold battery_step. intros H. inv_binds.
  eexists; split; [eassumption|].
  match goal with H : seed_vbus _ _ _ _ _ = Some ?vl |- _ => rewrite H; by destruct vl end.
Qed.

Lemma seed_all_app (bd : BusDict) (V : Vbus_t) (L : list Warning) (xs ys : list (Bus * Q)) :
  seed_all bd V L (xs ++ ys) = seed_all bd V L xs ≫= (fun vl => seed_all bd vl.1 vl.2 ys).
Proof.
  revert V L. induction xs as [|[b v] xs IH]; intros V L; simpl; [done|].
  destruct (bus_index bd b); simpl; [|done].
  destruct (seed_vbus V L _ b v); simpl; [|done]. apply IH.
Qed.

Lemma map_const_length {A B} (c : B) (r r' : list A) :
  length r = length r' -> map (fun _ => c) r = map (fun _ => c) r'.
Proof.
  revert r'. induction r as [|x r IH]; intros [|y r'] Hl; simpl in *; try done.
  f_equal. apply IH. lia.
Qed.

(** While the seed row still reads 1.0 at column 0, every device at the
    bus overwrites it: after devices whose set points all equal 1.0 the
    row still reads 1.0 and no warning is logged. *)
Lemma seed_all_ones (bd : BusDict) (b : Bus) (i : nat) (row : list Cplx)
    (ones : list Q) :
  bus_index bd b = Some i ->
  Forall (fun u => u == 1) ones ->
  forall V L r c, V !! i = Some r -> length r = length row -> r !! 0%nat = Some c ->
  Qeq_bool (re c) 1 = true ->
  exists V' r' c', seed_all bd V L (map (pair b) ones) = Some (V', L) /\
    V' !! i = Some r' /\ length r' = length row /\ r' !! 0%nat = Some c' /\
    Qeq_bool (re c') 1 = true /\ length V' = length V.
Proof.
  intros Hb Hones. induction Hones as [|u ones Hu Hones IH];
    intros V L r c Hr Hlen Hc Hre; simpl.
  - eauto 10.
  - rewrite Hb. simpl. unfold seed_vbus. rewrite Hr. simpl. rewrite Hc. simpl.
    rewrite Hre. unfold set_at.
    pose proof (lookup_lt_Some _ _ _ Hr).
    rewrite decide_True by done. simpl.
    destruct r as [|c0 r0]; [done|].
    destruct (IH (<[i:=map (fun _ => mkC u 0) (c0 :: r0)]> V) L
                (map (fun _ => mkC u 0) (c0 :: r0)) (mkC u 0)) as (V' & r' & c' & HV' & ?).
    + by apply list_lookup_insert_eq.
    + by rewrite length_map.
    + done.
    + simpl. by apply Qeq_bool_iff.
    + exists V', r', c'. rewrite HV'. split; [done|]. rewrite length_insert in *. naive_solver.
Qed.


(** Once the row holds a set point other than 1.0, no device overwrites
    it, and each device whose set point differs logs one warning. *)
Lemma seed_all_locked (bd : BusDict) (b : Bus) (i : nat) (row : list Cplx) (v : Q)
    (rest : list Q) :
  bus_index bd b = Some i -> row <> [] -> Qeq_bool v 1 = false ->
  forall V L, V !! i = Some (map (fun _ => mkC v 0) row) ->
  seed_all bd V L (map (pair b) rest) =
  Some (V, L ++ map (fun u => DifferentSetPoints (bus_name b) u (mkC v 0))
                    (List.filter (fun u => negb (Qeq_bool u v)) rest)).
Proof.
  intros Hb Hrow Hv. induction rest as [|u rest IH]; intros V L HV; simpl.
  - by rewrite app_nil_r.
  - rewrite Hb. simpl. unfold seed_vbus. rewrite HV. simpl.
    destruct row as [|c0 row0]; [done|]. simpl. rewrite Hv.
    unfold Ceqb. simpl. replace (Qeq_bool 0 0) with true by reflexivity.
    rewrite andb_true_r.
    destruct (Qeq_bool u v) eqn:Huv; simpl.
    + rewrite IH by done. done.
    + rewrite IH by done. by rewrite <- app_assoc.
Qed.

(** The seed policy over one bus: the seed ends at the first set point
    that differs from 1.0, and every later device whose set point differs
    from it logs exactly one warning. *)
Lemma seed_all_policy (bd : BusDict) (b : Bus) (i : nat) (row : list Cplx)
    (V : Vbus_t) (L : list Warning) (ones rest : list Q) (v : Q) :
  bus_index bd b = Some i -> V !! i = Some row -> row !! 0%nat = Some (mkC 1 0) ->
  Forall (fun u => u == 1) ones -> ~ (v == 1) ->
  exists V', seed_all bd V L (map (pair b) (ones ++ v :: rest)) =
    Some (V', L ++ map (fun u => DifferentSetPoints (bus_name b) u (mkC v 0))
                      (List.filter (fun u => negb (Qeq_bool u v)) rest)) /\
    V' !! i = Some (map (fun _ => mkC v 0) row).
Proof.
  intros Hb HV H0 Hones Hv.
  destruct (seed_all_ones bd b i row ones Hb Hones V L row (mkC 1 0) HV eq_refl H0 eq_refl)
    as (V1 & r1 & c1 & HV1 & Hr1 & Hl1 & Hc1 & Hre1 & HlenV).
  assert (Hvb : Qeq_bool v 1 = false).
  { destruct (Qeq_bool v 1) eqn:E; [|done]. apply Qeq_bool_iff in E. done. }
  assert (Hrow : row <> []) by (intros ->; done).
  rewrite map_app, seed_all_app, HV1. simpl. rewrite Hb. simpl.
  unfold seed_vbus. rewrite Hr1. simpl. rewrite Hc1. simpl. rewrite Hre1.
  unfold set_at. pose proof (lookup_lt_Some _ _ _ Hr1).
  rewrite decide_True by done. simpl.
  rewrite (map_const_length _ r1 row) by done.
  rewrite (seed_all_locked bd b i row v rest Hb Hrow Hvb); [|by apply list_lookup_insert_eq].
  eexists; split; [reflexivity|]. apply list_lookup_insert_eq. done.
Qed.

Lemma get_generator_data_seed (gens : list Generator) (bd : BusDict) (V : Vbus_t)
    (L : list Warning) (ts opf : bool) (ntime : nat) (d : GeneratorData) (V' : Vbus_t)
    (L' : list Warning) :
  get_generator_data gens bd V L ts opf ntime = Some (d, V', L') ->
  seed_all bd V L (map (fun g => (gen_bus g, gen_Vset g)) gens) = Some (V', L').
Proof.
  unfold get_generator_data. apply foldi_seed_all.
  intros k x ? ? ? ? ? ? H. by apply (generator_step_seed _ _ _ _ _ _ _ _ _ _ _ H).
Qed.

Lemma get_battery_data_seed (batts : list Battery) (bd : BusDict) (V : Vbus_t)
    (L : list Warning) (ts opf : bool) (ntime : nat) (d : BatteryData) (V' : Vbus_t)
    (L' : list Warning) :
  get_battery_data batts bd V L ts opf ntime = Some (d, V', L') ->
  seed_all bd V L (map (fun x => (batt_bus x, batt_Vset x)) batts) = Some (V', L').
Proof.
  unfold get_battery_data. apply foldi_seed_all.
  intros k x ? ? ? ? ? ? H. by apply (battery_step_seed _ _ _ _ _ _ _ _ _ _ _ H).
Qed.

Lemma map_dev_same_bus {A} (dbus : A -> Bus) (dv : A -> Q) (b : Bus) (xs : list A) :
  Forall (fun x => dbus x = b) xs ->
  map (fun x => (dbus x, dv x)) xs = map (pair b) (map dv xs).
Proof. induction 1; simpl; congruence. Qed.

(** ** C2: the setpoint conflict policy *)

(** Claim C2 (as the code behaves): counterexample to "first wins". A
    first generator with set point 1.0 leaves the seed reading 1.0, so a
    second generator with set point 1.05 overwrites it and logs nothing. *)
Lemma voltage_seed_first_wins_counterexample :
  option_map (fun r => (r.1.2, r.2))
    (get_generator_data [mk_gen "G1" (bus_k 0) 1; mk_gen "G2" (bus_k 0) 1.05]
       ex_bus_dict sentinel_Vbus [] false true 1)
  = Some ([[mkC 1.05 0]], []).
Proof. vm_compute. reflexivity. Qed.

(** Claim C2 (amended): for the generators and then the batteries that
    target one bus whose seed starts at the sentinel 1.0 + 0j, a device
    overwrites the seed whenever its real part reads 1.0. So the seed ends
    at the first set point (in enumeration order) that differs from 1.0,
    and every device after that one whose set point differs from it keeps
    the seed and appends exactly one warning naming the bus, its set point
    and the seed. *)
Theorem voltage_seed_policy (gens : list Generator) (batts : list Battery) (bd : BusDict)
    (Vbus : Vbus_t) (logger : list Warning) (ts opf : bool) (ntime : nat) (b : Bus)
    (i : nat) (row : list Cplx) (gd : GeneratorData) (btd : BatteryData)
    (V1 V2 : Vbus_t) (L1 L2 : list Warning) (ones rest : list Q) (v : Q) :
  bus_index bd b = Some i ->
  Forall (fun g => gen_bus g = b) gens -> Forall (fun x => batt_bus x = b) batts ->
  Vbus !! i = Some row -> row !! 0%nat = Some (mkC 1 0) ->
  get_generator_data gens bd Vbus logger ts opf ntime = Some (gd, V1, L1) ->
  get_battery_data batts bd V1 L1 ts opf ntime = Some (btd, V2, L2) ->
  map gen_Vset gens ++ map batt_Vset batts = ones ++ v :: rest ->
  Forall (fun u => u == 1) ones -> ~ (v == 1) ->
  V2 !! i = Some (map (fun _ => mkC v 0) row) /\
  L2 = logger ++ map (fun u => DifferentSetPoints (bus_name b) u (mkC v 0))
                     (List.filter (fun u => negb (Qeq_bool u v)) rest).
Proof.
  intros Hb Hg Hbt HV H0 HG HB Hvs Hones Hv.
  apply get_generator_data_seed in HG. apply get_battery_data_seed in HB.
  rewrite (map_dev_same_bus gen_bus gen_Vset b gens Hg) in HG.
  rewrite (map_dev_same_bus batt_bus batt_Vset b batts Hbt) in HB.
  assert (Hall : seed_all bd Vbus logger
                   (map (pair b) (map gen_Vset gens ++ map batt_Vset batts)) = Some (V2, L2)).
  { rewrite map_app, seed_all_app, HG. exact HB. }
  rewrite Hvs in Hall.
  destruct (seed_all_policy bd b i row Vbus logger ones rest v Hb HV H0 Hones Hv)
    as (V' & Hs & HV').
  rewrite Hs in Hall. injection Hall as <- <-. done.
Qed.

Lemma voltage_seed_policy_witness :
  exists gd V1 L1 btd V2 L2,
    get_generator_data [mk_gen "G1" (bus_k 0) 1.02] ex_bus_dict sentinel_Vbus [] false true 1
      = Some (gd, V1, L1) /\
    get_battery_data [mk_batt "B1" (bus_k 0) 1.05 0.1 0.9] ex_bus_dict V1 L1 false true 1
      = Some (btd, V2, L2) /\
    V2 !! 0%nat = Some [mkC 1.02 0] /\
    L2 = [DifferentSetPoints "bus" 1.05 (mkC 1.02 0)].
Proof.
  do 6 eexists. split; [vm_compute; reflexivity|]. split; [vm_compute; reflexivity|].
  eapply voltage_seed_policy with
    (gens := [mk_gen "G1" (bus_k 0) 1.02]) (batts := [mk_batt "B1" (bus_k 0) 1.05 0.1 0.9])
    (bd := ex_bus_dict) (Vbus := sentinel_Vbus) (logger := []) (ts := false) (opf := true)
    (ntime := 1%nat) (b := bus_k 0) (i := 0%nat) (row := [mkC 1 0])
    (ones := []) (rest := [1.05]) (v := 1.02).
  all: try (vm_compute; reflexivity).
  - repeat constructor.
  - repeat constructor.
  - constructor.
  - intros H. vm_compute in H. discriminate.
Defined.

(** ** C10: the state-of-charge bounds of get_battery_data *)

Lemma battery_step_soc (bd : BusDict) (ts : bool) (j : nat) (x : Battery)
    (s s' : BatteryData * Vbus_t * list Warning) :
  battery_step bd ts true j x s = Some s' ->
  (exists v, v = batt_max_soc x /\ (0 + j < length (battery_min_soc s.1.1))%nat /\
     battery_min_soc s'.1.1 = <[(0 + j)%nat := v]> (battery_min_soc s.1.1)) /\
  (exists v, v = batt_max_soc x /\ (0 + j < length (battery_max_soc s.1.1))%nat /\
     battery_max_soc s'.1.1 = <[(0 + j)%nat := v]> (battery_max_soc s.1.1)).
Proof.
  destruct s as [[d V] L]. unfold battery_step, set_if_opf. intros H. inv_binds. simpl.
  split; eexists; split_and!; done.
Qed.

Lemma foldi_map_ext {A B St} (f : nat -> A -> St -> option St) (f' : nat -> B -> St -> option St)
    (g : B -> A) :
  (forall k x s, f k (g x) s = f' k x s) ->
  forall xs i s, foldi f i (map g xs) s = foldi f' i xs s.
Proof.
  intros Hfg xs. induction xs as [|x xs IH]; intros i s; simpl; [done|].
  rewrite Hfg. destruct (f' i x s); simpl; [apply IH|done].
Qed.

(** Claim C10: in OPF mode, time series or snapshot, [get_battery_data]
    stores the device's max_soc in both battery_min_soc[k] and
    battery_max_soc[k] for every battery k, and its result does not
    depend on the devices' min_soc at all. *)
Theorem battery_min_soc_from_max_soc (batts : list Battery) (bd : BusDict) (Vbus : Vbus_t)
    (logger : list Warning) (ts : bool) (ntime : nat) :
  (forall d V' L', get_battery_data batts bd Vbus logger ts true ntime = Some (d, V', L') ->
     forall k elm, batts !! k = Some elm ->
       battery_min_soc d !! k = Some (batt_max_soc elm) /\
       battery_max_soc d !! k = Some (batt_max_soc elm)) /\
  (forall m : Battery -> Q,
     get_battery_data (map (with_min_soc m) batts) bd Vbus logger ts true ntime =
     get_battery_data batts bd Vbus logger ts true ntime).
Proof.
  split.
  - intros d V' L' H k elm Hk. unfold get_battery_data in H.
    destruct (foldi_writes _ (fun s => battery_min_soc s.1.1) _ 0
                (fun j x s s' Hs => proj1 (battery_step_soc bd ts j x s s' Hs))
                _ _ _ _ H) as (_ & A1 & _).
    destruct (foldi_writes _ (fun s => battery_max_soc s.1.1) _ 0
                (fun j x s s' Hs => proj2 (battery_step_soc bd ts j x s s' Hs))
                _ _ _ _ H) as (_ & A2 & _).
    destruct (A1 _ _ Hk) as (v1 & -> & H1). destruct (A2 _ _ Hk) as (v2 & -> & H2).
    simpl in H1, H2. done.
  - intros m. unfold get_battery_data. rewrite length_map.
    apply foldi_map_ext. intros k x [[d V] L]. reflexivity.
Qed.

Lemma battery_min_soc_from_max_soc_witness :
  exists d V' L',
    get_battery_data [mk_batt "B1" (bus_k 0) 1.02 0.1 0.9] ex_bus_dict sentinel_Vbus []
      true true 2 = Some (d, V', L') /\
    battery_min_soc d !! 0%nat = Some 0.9 /\ battery_max_soc d !! 0%nat = Some 0.9.
Proof.
  do 3 eexists. split; [vm_compute; reflexivity|].
  apply (proj1 (battery_min_soc_from_max_soc [mk_batt "B1" (bus_k 0) 1.02 0.1 0.9]
                  ex_bus_dict sentinel_Vbus [] true 2%nat) _ _ _
           ltac:(vm_compute; reflexivity) 0%nat _ eq_refl).
Defined.

(** ** C4: the CSR power-injection kernel *)

Section CsrKernel.
Variables (n : nat) (Yp Yj : list nat) (Yx V I : list Cplx).
Hypothesis HYp : length Yp = Datatypes.S n.
Hypothesis HYp_range : Forall (fun p => p <= length Yx /\ p <= length Yj)%nat Yp.
Hypothesis HYj : Forall (fun j => j < n)%nat Yj.
Hypothesis HV : length V = n.
Hypothesis HI : length I = n.

Lemma csr_term_in_range (p : nat) :
  (p < length Yx)%nat -> (p < length Yj)%nat ->
  csr_term Yj Yx V p = Some (Cmul (nth p Yx C0) (nth (nth p Yj 0%nat) V C0)).
Proof.
  intros Hx Hj. unfold csr_term.
  destruct (lookup_lt_is_Some_2 Yx p Hx) as [x Hxp].
  destruct (lookup_lt_is_Some_2 Yj p Hj) as [j Hjp].
  assert (Hjn : (j < n)%nat) by (eapply (Forall_lookup_1 _ _ _ _ HYj Hjp)).
  destruct (lookup_lt_is_Some_2 V j ltac:(lia)) as [v Hvj].
  rewrite Hxp, Hjp. simpl. rewrite Hvj. simpl.
  rewrite (nth_lookup_Some _ _ _ _ Hxp), (nth_lookup_Some _ _ _ _ Hjp),
    (nth_lookup_Some _ _ _ _ Hvj). done.
Qed.

Lemma fold_row_sum (ps : list nat) (s0 : Cplx) :
  (forall p, p ∈ ps -> (p < length Yx)%nat /\ (p < length Yj)%nat) ->
  fold_left (fun acc p => s ← acc; t ← csr_term Yj Yx V p; Some (Cadd s t)) ps (Some s0) =
  Some (fold_left (fun acc p => Cadd acc (Cmul (nth p Yx C0) (nth (nth p Yj 0%nat) V C0)))
          ps s0).
Proof.
  revert s0. induction ps as [|p ps IH]; intros s0 Hps; simpl; [done|].
  destruct (Hps p ltac:(set_solver)) as [Hx Hj].
  rewrite csr_term_in_range by done. simpl. apply IH. intros q Hq. apply Hps. set_solver.
Qed.

Lemma calc_row_spec (i : nat) :
  (i < n)%nat -> calc_row Yp Yj Yx V I i = Some (spec_power_row Yp Yj Yx V I i).
Proof.
  intros Hi. unfold calc_row, spec_power_row.
  destruct (lookup_lt_is_Some_2 Yp i ltac:(lia)) as [a Ha].
  destruct (lookup_lt_is_Some_2 Yp (Datatypes.S i) ltac:(lia)) as [b Hb].
  destruct (lookup_lt_is_Some_2 V i ltac:(lia)) as [vi Hvi].
  destruct (lookup_lt_is_Some_2 I i ltac:(lia)) as [ii Hii].
  pose proof (Forall_lookup_1 _ _ _ _ HYp_range Hb) as [Hbx Hbj].
  rewrite Ha, Hb. simpl.
  rewrite fold_row_sum.
  - simpl. rewrite Hvi, Hii. simpl.
    rewrite (nth_lookup_Some _ _ _ _ Ha), (nth_lookup_Some _ _ _ _ Hb),
      (nth_lookup_Some _ _ _ _ Hvi), (nth_lookup_Some _ _ _ _ Hii). done.
  - intros p Hp. apply elem_of_seq in Hp. lia.
Qed.
End CsrKernel.

Lemma serial_rows_spec (row : nat -> option Cplx) (g : nat -> Cplx) (m : nat) :
  forall i S, (forall k, (i <= k < i + m)%nat -> row k = Some (g k)) ->
  (i + m <= length S)%nat ->
  exists S', serial_rows row i m S = Some S' /\ length S' = length S /\
    forall k, S' !! k = if decide (i <= k < i + m)%nat then Some (g k) else S !! k.
Proof.
  induction m as [|m IH]; intros i S Hrow Hlen; simpl.
  - exists S. split_and!; [done|done|]. intros k. case_decide; [lia|done].
  - rewrite Hrow by lia. simpl. unfold set_at. rewrite decide_True by lia. simpl.
    destruct (IH (Datatypes.S i) (<[i:=g i]> S)) as (S' & HS' & Hl & Hk).
    + intros k Hk. apply Hrow. lia.
    + rewrite length_insert. lia.
    + exists S'. split_and!; [done | by rewrite Hl, length_insert |].
      intros k. rewrite Hk. destruct (decide (k = i)) as [->|Hne].
      * rewrite decide_False by lia. rewrite decide_True by lia.
        apply list_lookup_insert_eq. lia.
      * rewrite list_lookup_insert_ne by done. repeat case_decide; try lia; done.
Qed.

Lemma mapM_seq (row : nat -> option Cplx) (g : nat -> Cplx) (m : nat) :
  forall i, (forall k, (i <= k < i + m)%nat -> row k = Some (g k)) ->
  mapM row (seq i m) = Some (map g (seq i m)).
Proof.
  induction m as [|m IH]; intros i Hrow; simpl; [done|].
  rewrite Hrow by lia. simpl. rewrite IH by (intros k Hk; apply Hrow; lia). done.
Qed.

Lemma map_seq_lookup {A} (g : nat -> A) (n k : nat) :
  map g (seq 0 n) !! k = if decide (k < n)%nat then Some (g k) else None.
Proof.
  case_decide.
  - rewrite list_lookup_fmap. rewrite lookup_seq_lt by done. done.
  - apply lookup_ge_None_2. rewrite length_map, length_seq. lia.
Qed.

(** C4: for every [n], every CSR matrix whose row pointers [Yp] have length
    [n+1] and point inside [Yx] and [Yj], whose column indices are all below
    [n], and every pair of length-[n] vectors [V] and [I], both the serial
    and the parallel path of [calc_power_csr_numba] return the vector whose
    row [i] is [V[i] * conj((sum_{p=Yp[i]}^{Yp[i+1]-1} Yx[p] * V[Yj[p]]) - I[i])],
    the row sum taken in storage order. *)
Theorem calc_power_csr_numba_rows (n : nat) (Yp Yj : list nat) (Yx V I : list Cplx)
    (n_par : nat) :
  length Yp = Datatypes.S n ->
  Forall (fun p => p <= length Yx /\ p <= length Yj)%nat Yp ->
  Forall (fun j => j < n)%nat Yj ->
  length V = n -> length I = n ->
  calc_power_csr_numba n Yp Yj Yx V I n_par =
    Some (map (spec_power_row Yp Yj Yx V I) (seq 0 n)).
Proof.
  intros HYp HYr HYj HV HI.
  assert (Hrow : forall k, (0 <= k < 0 + n)%nat ->
    calc_row Yp Yj Yx V I k = Some (spec_power_row Yp Yj Yx V I k)).
  { intros k Hk. apply (calc_row_spec n); try done. lia. }
  unfold calc_power_csr_numba. rewrite decide_True by done.
  case_decide.
  - destruct (serial_rows_spec _ _ n 0 (replicate n C0) Hrow) as (S' & HS & Hl & Hk).
    { rewrite length_replicate. lia. }
    rewrite HS. f_equal. apply list_eq. intros k.
    rewrite Hk, map_seq_lookup. repeat case_decide; try lia; try done.
    apply lookup_ge_None_2. rewrite length_replicate. lia.
  - apply mapM_seq. done.
Qed.

(** Witness for C4: [Y = diag(2,3)], [V = [1+0j, 1+0j]], [I = [0, 0]] gives
    [S = [2+0j, 3+0j]]. *)
Lemma calc_power_csr_numba_rows_witness :
  exists S, calc_power_csr_numba 2 [0; 1; 2]%nat [0; 1]%nat [mkC 2 0; mkC 3 0]
              [mkC 1 0; mkC 1 0] [C0; C0] 1 = Some S /\
            Forall2 (fun a b => Ceqb a b = true) S [mkC 2 0; mkC 3 0].
Proof.
  eexists. split.
  - apply (calc_power_csr_numba_rows 2 [0; 1; 2]%nat [0; 1]%nat [mkC 2 0; mkC 3 0]
             [mkC 1 0; mkC 1 0] [C0; C0] 1);
      [reflexivity | repeat constructor; simpl; lia | repeat constructor; lia
      | reflexivity | reflexivity].
  - vm_compute. repeat constructor.
Defined.

(** ** OpfSimple.solve: arithmetic lemmas *)

Lemma fdiv_fin (a b : Q) : ~ b == 0 -> fdiv (Fin a) (Fin b) = Fin (a / b).
Proof.
  intros Hb. simpl. destruct (Qeq_bool b 0) eqn:E; [|done].
  apply Qeq_bool_iff in E. contradiction.
Qed.

Lemma broadcast2_same_length (f : Flt -> Flt -> Flt) (a b : list Flt) :
  length a = length b -> broadcast2 f a b = Some (zip_with f a b).
Proof. intros H. unfold broadcast2. by rewrite decide_True. Qed.

Lemma zip_with_map {A B C D E} (g : C -> D -> E) (f1 : A -> C) (f2 : B -> D)
    (l1 : list A) (l2 : list B) :
  zip_with g (map f1 l1) (map f2 l2) = zip_with (fun x y => g (f1 x) (f2 y)) l1 l2.
Proof. revert l2. induction l1; intros [|]; simpl; f_equal; auto. Qed.

Lemma zip_with_ext_pw {A B C} (g h : A -> B -> C) (l1 : list A) (l2 : list B) :
  (forall x y, g x y = h x y) -> zip_with g l1 l2 = zip_with h l1 l2.
Proof. intros H. revert l2. induction l1; intros [|]; simpl; f_equal; auto. Qed.

Lemma zip_with_Fin {A B} (h : A -> B -> Q) (l1 : list A) (l2 : list B) :
  zip_with (fun x y => Fin (h x y)) l1 l2 = map Fin (zip_with h l1 l2).
Proof. revert l2. induction l1; intros [|]; simpl; f_equal; auto. Qed.

Lemma fold_left_fadd_Fin (l : list Q) (s : Q) :
  fold_left fadd (map Fin l) (Fin s) = Fin (fold_left Qplus l s).
Proof. revert s. induction l; intros s; simpl; auto. Qed.

Lemma fold_left_Qplus (l : list Q) (s : Q) : fold_left Qplus l s == s + qsum l.
Proof.
  revert s. induction l as [|x l IH]; intros s; simpl; [ring|].
  rewrite IH. ring.
Qed.

Lemma fsum_Fin (l : list Q) : exists q, fsum (map Fin l) = Fin q /\ q == qsum l.
Proof.
  eexists. split; [apply fold_left_fadd_Fin|]. rewrite fold_left_Qplus. ring.
Qed.

Lemma qsum_zip_div {A B} (f : A -> B -> Q) (g : A -> B -> Q) (c : Q) (l1 : list A) (l2 : list B) :
  ~ c == 0 -> (forall x y, g x y == f x y / c) ->
  qsum (zip_with g l1 l2) == qsum (zip_with f l1 l2) / c.
Proof.
  intros Hc Hg. revert l2. induction l1 as [|x l1 IH]; intros [|y l2]; simpl;
    try (field; assumption).
  rewrite IH, Hg. field. assumption.
Qed.

Lemma qsum_map_div (l : list Q) (c : Q) :
  ~ c == 0 -> qsum (map (fun x => x / c) l) == qsum l / c.
Proof.
  intros Hc. induction l as [|x l IH]; simpl; [field; done|].
  rewrite IH. field. done.
Qed.

Lemma solve_regular (nc : NumericalCircuit) :
  ~ nc_Sbase nc == 0 -> ~ avail_capacity nc == 0 ->
  length (nc_generator_pmax nc) = length (nc_generator_active nc) ->
  length (nc_load_active nc) = length (nc_load_power nc) ->
  exists L' C', L' == total_active_load nc / nc_Sbase nc /\
    C' == avail_capacity nc / nc_Sbase nc /\
    solve nc = Some ({|
      opf_theta := fzeros (nc_nbus nc);
      opf_Pg := map (fun x => Fin (L' * (x / C')))
                  (zip_with (fun p a => p / nc_Sbase nc * b2q a)
                     (nc_generator_pmax nc) (nc_generator_active nc));
      opf_Pb := fzeros (nc_n_batt nc);
      opf_Pl := map (fun x => Fin (x / nc_Sbase nc))
                  (zip_with (fun a s => b2q a * re s) (nc_load_active nc) (nc_load_power nc));
      opf_E := fzeros (nc_n_batt nc);
      opf_load_shedding := fzeros (nc_n_ld nc);
      opf_s_from := fzeros (nc_nbr nc); opf_s_to := fzeros (nc_nbr nc);
      opf_overloads := fzeros (nc_nbr nc);
      opf_rating := map (fun r => fdiv (Fin r) (Fin (nc_Sbase nc))) (nc_br_rates nc);
      opf_nodal_restrictions := fzeros (nc_nbus nc) |}, true).
Proof.
  intros HS HC Hg Hl.
  remember (nc_Sbase nc) as S eqn:HeqS.
  set (capS := zip_with (fun p a => p / S * b2q a) (nc_generator_pmax nc) (nc_generator_active nc)).
  set (loads := zip_with (fun a s => b2q a * re s) (nc_load_active nc) (nc_load_power nc)).
  destruct (fsum_Fin capS) as (C' & HCs & HC').
  destruct (fsum_Fin (map (fun x => x / S) loads)) as (L' & HLs & HL').
  assert (HC'' : C' == avail_capacity nc / S).
  { rewrite HC'. unfold capS, avail_capacity. apply qsum_zip_div; [done|].
    intros x y. field. done. }
  assert (HL'' : L' == total_active_load nc / S).
  { rewrite HL'. unfold loads, total_active_load. by apply qsum_map_div. }
  assert (HC0 : ~ C' == 0).
  { rewrite HC''. intros E. apply HC.
    setoid_replace (avail_capacity nc) with (avail_capacity nc / S * S) using relation Qeq by (field; done).
    rewrite E. ring. }
  exists L', C'. split_and!; [done|done|].
  assert (HPav : zip_with fmul (map (fun p => fdiv (Fin p) (Fin S)) (nc_generator_pmax nc))
                   (map fbool (nc_generator_active nc)) = map Fin capS).
  { rewrite zip_with_map. unfold capS. rewrite <- zip_with_Fin. apply zip_with_ext_pw.
    intros p a. rewrite fdiv_fin by done. done. }
  assert (HPl0 : zip_with fmul (map fbool (nc_load_active nc))
                   (map (fun s => Fin (re s)) (nc_load_power nc)) = map Fin loads).
  { rewrite zip_with_map. unfold loads. rewrite <- zip_with_Fin. apply zip_with_ext_pw.
    intros a s. done. }
  unfold solve. cbv zeta. rewrite <- HeqS.
  rewrite !broadcast2_same_length by (rewrite !length_map; done).
  cbn [mbind option_bind]. rewrite HPav, HPl0.
  assert (HPl : map (fun p => fdiv p (Fin S)) (map Fin loads) = map Fin (map (fun x => x / S) loads)).
  { rewrite !map_map. apply map_ext. intros x. by rewrite fdiv_fin. }
  rewrite HPl, HLs, HCs, !map_map.
  assert (HPg : map (fun x => fmul (Fin L') (fdiv (Fin x) (Fin C'))) capS =
                map (fun x => Fin (L' * (x / C'))) capS).
  { apply map_ext. intros x. by rewrite fdiv_fin. }
  by rewrite HPg.
Qed.

Lemma all_zero_scaled (n : nat) (s : Q) :
  all_zero (map (fun x => fmul x (Fin s)) (fzeros n)) = true.
Proof.
  unfold fzeros. induction n as [|n IH]; simpl; [done|]. rewrite IH.
  done.
Qed.

Lemma all_zero_fzeros (n : nat) : all_zero (fzeros n) = true.
Proof. unfold fzeros. induction n as [|n IH]; simpl; [done|]. by rewrite IH. Qed.

(** ** C3: the proportional dispatch of OpfSimple.solve *)

(** Claim C3: when [Sbase] and the available capacity
    [sum(Pmax * active)] are nonzero (and the per-device arrays have
    matching lengths), [solve] returns [True] and gives generator [k] the
    per-unit power [(total active load / Sbase) * (Pmax_k * active_k) /
    sum(Pmax * active)], so [get_generator_power] reports
    [total active load * share_k] in MW; bus angles, branch flows,
    overloads, battery power and energy, load shedding and shadow prices
    are all zero. *)
Theorem opf_simple_solve_dispatch (nc : NumericalCircuit) :
  ~ nc_Sbase nc == 0 -> ~ avail_capacity nc == 0 ->
  length (nc_generator_pmax nc) = length (nc_generator_active nc) ->
  length (nc_load_active nc) = length (nc_load_power nc) ->
  exists st, solve nc = Some (st, true) /\
    length (opf_Pg st) = length (nc_generator_pmax nc) /\
    (forall k p a, nc_generator_pmax nc !! k = Some p ->
       nc_generator_active nc !! k = Some a ->
       exists r r', opf_Pg st !! k = Some (Fin r) /\
         r == total_active_load nc / nc_Sbase nc * (p * b2q a / avail_capacity nc) /\
         get_generator_power nc st !! k = Some (Fin r') /\
         r' == total_active_load nc * (p * b2q a / avail_capacity nc)) /\
    opf_theta st = fzeros (nc_nbus nc) /\
    opf_s_from st = fzeros (nc_nbr nc) /\ opf_s_to st = fzeros (nc_nbr nc) /\
    opf_overloads st = fzeros (nc_nbr nc) /\
    opf_Pb st = fzeros (nc_n_batt nc) /\ opf_E st = fzeros (nc_n_batt nc) /\
    opf_load_shedding st = fzeros (nc_n_ld nc) /\
    opf_nodal_restrictions st = fzeros (nc_nbus nc) /\
    all_zero (get_branch_power nc st) && all_zero (get_battery_power nc st) &&
    all_zero (get_battery_energy nc st) && all_zero (get_load_shedding nc st) &&
    all_zero (get_overloads st) && all_zero (get_shadow_prices st) = true.
Proof.
  intros HS HC Hg Hl.
  destruct (solve_regular nc HS HC Hg Hl) as (L' & C' & HL & HC' & Hsolve).
  assert (HC0 : ~ C' == 0).
  { rewrite HC'. intros E. apply HC.
    setoid_replace (avail_capacity nc) with (avail_capacity nc / nc_Sbase nc * nc_Sbase nc)
      using relation Qeq by (field; done).
    rewrite E. ring. }
  eexists. split; [exact Hsolve|]. simpl. split_and!; try done.
  - rewrite length_map, length_zip_with. lia.
  - intros k p a Hp Ha.
    unfold get_generator_power. simpl.
    rewrite !list_lookup_fmap, lookup_zip_with, Hp, Ha. simpl.
    do 2 eexists. split_and!; try reflexivity.
    + rewrite HL, HC'. field. auto.
    + rewrite HL, HC'. field. auto.
  - unfold get_branch_power, get_battery_power, get_battery_energy, get_load_shedding,
      get_overloads, get_shadow_prices. simpl.
    by rewrite !all_zero_scaled, !all_zero_fzeros.
Qed.

(** Witness for C3: capacities [100, 50] (active), load 90, Sbase 100 give
    [Pg = [60, 30]] MW. *)
Lemma opf_simple_solve_dispatch_witness :
  exists st, solve dispatch_nc = Some (st, true) /\
    Forall2 feq (get_generator_power dispatch_nc st) [60; 30] /\
    all_zero (opf_theta st) && all_zero (get_shadow_prices st) = true.
Proof.
  destruct (opf_simple_solve_dispatch dispatch_nc) as (st & Hs & _);
    [vm_compute; discriminate | vm_compute; discriminate | reflexivity | reflexivity |].
  exists st. split; [exact Hs|].
  vm_compute in Hs. injection Hs as <-. vm_compute. split; [|reflexivity].
  repeat constructor.
Defined.

(** ** C9: the unguarded division by the available capacity *)

Lemma qsum_map_scale (l : list Q) (a c : Q) :
  ~ c == 0 -> qsum (map (fun x => a * (x / c)) l) == a * (qsum l / c).
Proof.
  intros Hc. induction l as [|x l IH]; simpl; [field; done|].
  rewrite IH. field. done.
Qed.

Lemma fold_left_fadd_zeros (l : list Flt) (s : Q) :
  Forall (fun x => exists q, x = Fin q /\ q == 0) l -> s == 0 ->
  exists z, fold_left fadd l (Fin s) = Fin z /\ z == 0.
Proof.
  revert s. induction l as [|x l IH]; intros s Hl Hs; simpl; [eauto|].
  inversion Hl as [|? ? (q & -> & Hq) Hl']; subst. simpl.
  apply IH; [done|]. rewrite Hs, Hq. ring.
Qed.

(** Claim C9: [solve] divides by [Pavail.sum()] without a guard.  When
    [Sbase] and [sum(Pmax * active)] are nonzero, every dispatched power is
    finite and their sum equals the total active load [Pl.sum()] (both
    per unit, and equal to total active load / Sbase).  When [Sbase > 0],
    no capacity is negative and no active generator has a positive one,
    [solve] still returns [True] and every generator power is NaN. *)
Theorem opf_simple_solve_capacity_guard (nc : NumericalCircuit) :
  (~ nc_Sbase nc == 0 -> ~ avail_capacity nc == 0 ->
   length (nc_generator_pmax nc) = length (nc_generator_active nc) ->
   length (nc_load_active nc) = length (nc_load_power nc) ->
   exists st tg tl, solve nc = Some (st, true) /\
     Forall (fun x => is_finite x = true) (opf_Pg st) /\
     fsum (opf_Pg st) = Fin tg /\ fsum (opf_Pl st) = Fin tl /\
     tg == tl /\ tl == total_active_load nc / nc_Sbase nc) /\
  (0 < nc_Sbase nc -> Forall (fun p => 0 <= p) (nc_generator_pmax nc) ->
   (forall k p, nc_generator_pmax nc !! k = Some p ->
      nc_generator_active nc !! k = Some true -> p <= 0) ->
   length (nc_generator_pmax nc) = length (nc_generator_active nc) ->
   length (nc_load_active nc) = length (nc_load_power nc) ->
   exists st, solve nc = Some (st, true) /\
     length (opf_Pg st) = length (nc_generator_pmax nc) /\
     Forall (fun x => x = NaN) (opf_Pg st)).
Proof.
  split.
  - intros HS HC Hg Hl.
    destruct (solve_regular nc HS HC Hg Hl) as (L' & C' & HL & HC' & Hsolve).
    set (capS := zip_with (fun p a => p / nc_Sbase nc * b2q a)
                   (nc_generator_pmax nc) (nc_generator_active nc)) in *.
    set (loads := zip_with (fun a s => b2q a * re s) (nc_load_active nc) (nc_load_power nc))
      in *.
    assert (HC0 : ~ C' == 0).
    { rewrite HC'. intros E. apply HC.
      setoid_replace (avail_capacity nc) with (avail_capacity nc / nc_Sbase nc * nc_Sbase nc)
        using relation Qeq by (field; done).
      rewrite E. ring. }
    assert (HcapS : qsum capS == C').
    { rewrite HC'. unfold capS, avail_capacity. apply qsum_zip_div; [done|].
      intros x y. field. done. }
    destruct (fsum_Fin (map (fun x => L' * (x / C')) capS)) as (tg & Htg & Htg').
    destruct (fsum_Fin (map (fun x => x / nc_Sbase nc) loads)) as (tl & Htl & Htl').
    eexists _, tg, tl. split_and!; [exact Hsolve | | | | |]; simpl.
    + apply Forall_map, Forall_forall. done.
    + rewrite <- Htg, map_map. done.
    + rewrite <- Htl, map_map. done.
    + rewrite Htg', Htl', qsum_map_scale by done. rewrite HcapS.
      unfold loads. rewrite qsum_map_div by done.
      rewrite HL. unfold total_active_load. field. auto.
    + rewrite Htl'. unfold loads. rewrite qsum_map_div by done. reflexivity.
  - intros HS Hnn Hact Hg Hl.
    assert (HS0 : ~ nc_Sbase nc == 0).
    { intros E. rewrite E in HS. apply (Qlt_irrefl 0). done. }
    assert (HSb : Qeq_bool (nc_Sbase nc) 0 = false).
    { destruct (Qeq_bool _ _) eqn:E; [|done]. apply Qeq_bool_iff in E. contradiction. }
    set (Pav := zip_with fmul (map (fun p => fdiv (Fin p) (Fin (nc_Sbase nc))) (nc_generator_pmax nc))
                  (map fbool (nc_generator_active nc))).
    assert (HPz : Forall (fun x => exists q, x = Fin q /\ q == 0) Pav).
    { apply Forall_lookup_2. intros i x Hx. unfold Pav in Hx.
      rewrite lookup_zip_with, !list_lookup_fmap in Hx.
      destruct (nc_generator_pmax nc !! i) as [p|] eqn:Hp; [|done].
      destruct (nc_generator_active nc !! i) as [a|] eqn:Ha; [|done].
      cbn [mbind option_bind] in Hx. injection Hx as <-. rewrite HSb.
      eexists. split; [reflexivity|].
      destruct a; simpl.
      - pose proof (Hact i p Hp Ha) as Hp0.
        pose proof (Forall_lookup_1 _ _ _ _ Hnn Hp) as Hp1.
        assert (E : p == 0) by (apply Qle_antisym; done).
        rewrite E. field. done.
      - ring. }
    destruct (fold_left_fadd_zeros Pav 0 HPz ltac:(reflexivity)) as (z & Hz & Hz0).
    unfold solve. cbv zeta.
    rewrite (broadcast2_same_length fmul (map _ (nc_generator_pmax nc)))
      by (rewrite !length_map; done).
    cbn [mbind option_bind]. fold Pav.
    rewrite broadcast2_same_length by (rewrite !length_map; done).
    cbn [mbind option_bind].
    eexists. split; [reflexivity|]. simpl. split.
    + rewrite !length_map. unfold Pav. rewrite length_zip_with, !length_map. lia.
    + unfold fsum. rewrite Hz. apply Forall_map, Forall_map.
      eapply Forall_impl; [exact HPz|]. intros x (q & -> & Hq). simpl.
      assert (Qeq_bool z 0 = true) as -> by (by apply Qeq_bool_iff).
      assert (Qeq_bool q 0 = true) as -> by (by apply Qeq_bool_iff).
      match goal with |- fmul ?y NaN = NaN => by destruct y end.
Qed.

(** Witness for C9: the dispatch example (finite shares, balanced sum) and
    two generators of zero capacity (every dispatched power is NaN). *)
Lemma opf_simple_solve_capacity_guard_witness :
  (exists st tg tl, solve dispatch_nc = Some (st, true) /\
     Forall (fun x => is_finite x = true) (opf_Pg st) /\
     fsum (opf_Pg st) = Fin tg /\ fsum (opf_Pl st) = Fin tl /\
     tg == tl /\ tl == total_active_load dispatch_nc / nc_Sbase dispatch_nc) /\
  (exists st, solve no_capacity_nc = Some (st, true) /\
     length (opf_Pg st) = 2%nat /\ Forall (fun x => x = NaN) (opf_Pg st)).
Proof.
  split.
  - apply (proj1 (opf_simple_solve_capacity_guard dispatch_nc));
      [vm_compute; discriminate | vm_compute; discriminate | reflexivity | reflexivity].
  - apply (proj2 (opf_simple_solve_capacity_guard no_capacity_nc)).
    + reflexivity.
    + repeat constructor; discriminate.
    + intros k p Hp Ha. destruct k as [|[|k]]; simpl in *; try discriminate.
      injection Hp as <-. discriminate.
    + reflexivity.
    + reflexivity.
Defined.

(** ** C7: get_hvdc_data and the bus types *)

Lemma hvdc_step_bus_types (bd : BusDict) (ts : bool) (i : nat) (x : HvdcLine)
    (d d' : HvdcData) (bt bt1 : list BusMode) :
  hvdc_step bd ts i x (d, bt) = Some (d', bt1) ->
  exists f t, bus_index bd (hvdc_bus_from x) = Some f /\
    bus_index bd (hvdc_bus_to x) = Some t /\
    (hvdc_active x = true -> (f < length bt)%nat /\ (t < length bt)%nat) /\
    bt1 = if hvdc_active x then <[t:=PV]> (<[f:=PV]> bt) else bt.
Proof.
  unfold hvdc_step. intros H. inv_binds.
  match goal with H : (if hvdc_active x then _ else _) = Some _ |- _ => rename H into Hbt end.
  destruct (hvdc_active x) eqn:Ha.
  - inv_binds. rewrite length_insert in *. do 2 eexists. split_and!; eauto.
  - injection Hbt as <-. do 2 eexists. split_and!; eauto; done.
Qed.

Lemma foldi_hvdc_bus_types (bd : BusDict) (ts : bool) (links : list HvdcLine) :
  forall i d bt d' bt', foldi (hvdc_step bd ts) i links (d, bt) = Some (d', bt') ->
  length bt' = length bt /\
  (forall k, active_endpoint bd links k -> bt' !! k = Some PV) /\
  (forall k, ~ active_endpoint bd links k -> bt' !! k = bt !! k) /\
  (forall elm, elm ∈ links -> is_Some (bus_index bd (hvdc_bus_from elm)) /\
     is_Some (bus_index bd (hvdc_bus_to elm))).
Proof.
  induction links as [|x xs IH]; intros i d bt d' bt' Hf; simpl in Hf.
  - injection Hf as <- <-. split_and!; [done| |done|].
    + intros k (elm & Hin & _). set_solver.
    + intros elm Hin. set_solver.
  - apply bind_Some in Hf as ([d1 bt1] & Hs & Hrest).
    destruct (hvdc_step_bus_types _ _ _ _ _ _ _ _ Hs) as (f & t & Hf & Ht & Hlt & ->).
    destruct (IH _ _ _ _ _ Hrest) as (Hl & Hpv & Hsame & Hsome).
    split_and!.
    + rewrite Hl. destruct (hvdc_active x); [rewrite !length_insert|]; done.
    + intros k Hk. destruct (decide (active_endpoint bd xs k)) as [Hxs|Hxs]; [by apply Hpv|].
      rewrite Hsame by done.
      destruct Hk as (elm & Hin & Hact & Hend).
      apply elem_of_cons in Hin as [->|Hin].
      * rewrite Hact in *. destruct (Hlt eq_refl) as [Hfl Htl].
        destruct Hend as [Hend|Hend]; rewrite ?Hend in Hf; rewrite ?Hend in Ht.
        -- injection Hf as <-. destruct (decide (k = t)) as [->|Hne].
           ++ apply list_lookup_insert_eq. by rewrite length_insert.
           ++ rewrite list_lookup_insert_ne by done. by apply list_lookup_insert_eq.
        -- injection Ht as <-. apply list_lookup_insert_eq. by rewrite length_insert.
      * exfalso. apply Hxs. exists elm. done.
    + intros k Hk. rewrite Hsame by (intros (elm & Hin & He); apply Hk; exists elm; set_solver).
      destruct (hvdc_active x) eqn:Ha; [|done].
      rewrite !list_lookup_insert_ne; [done| |].
      * intros ->. apply Hk. exists x. split_and!; [set_solver|done|by left].
      * intros ->. apply Hk. exists x. split_and!; [set_solver|done|by right].
    + intros elm Hin. apply elem_of_cons in Hin as [->|Hin]; [by rewrite Hf, Ht|].
      by apply Hsome.
Qed.

(** Claim C7: whenever [get_hvdc_data] returns, the caller's bus-type
    buffer keeps its length, both endpoints of every active HVDC link hold
    [PV] whatever they held before, and every bus that is no endpoint of an
    active link keeps its previous type. *)
Theorem get_hvdc_data_bus_types (c : MultiCircuit) (bd : BusDict) (bt : list BusMode)
    (ts : bool) (ntime : nat) (data : HvdcData) (bt' : list BusMode) :
  get_hvdc_data c bd bt ts ntime = Some (data, bt') ->
  length bt' = length bt /\
  (forall elm, elm ∈ hvdc_lines c -> hvdc_active elm = true ->
     exists f t, bus_index bd (hvdc_bus_from elm) = Some f /\
       bus_index bd (hvdc_bus_to elm) = Some t /\
       bt' !! f = Some PV /\ bt' !! t = Some PV) /\
  (forall k, ~ active_endpoint bd (hvdc_lines c) k -> bt' !! k = bt !! k).
Proof.
  unfold get_hvdc_data. intros H.
  destruct (foldi_hvdc_bus_types _ _ _ _ _ _ _ _ H) as (Hl & Hpv & Hsame & Hsome).
  split_and!; [done| |done].
  intros elm Hin Hact.
  destruct (Hsome elm Hin) as [[f Hf] [t Ht]].
  exists f, t. split_and!; [done|done| |]; apply Hpv; exists elm; auto.
Qed.

(** Witness for C7: buses typed PQ, REF, PQ, NONE; the active link 0-1
    turns buses 0 and 1 to PV (bus 1 was the reference), the inactive link
    2-3 leaves buses 2 and 3 alone. *)
Lemma get_hvdc_data_bus_types_witness :
  exists data bt', get_hvdc_data hvdc_circuit ex_bus_dict [PQ; REF; PQ; NONE] false 1 =
                     Some (data, bt') /\
    bt' = [PV; PV; PQ; NONE] /\
    (forall k, ~ active_endpoint ex_bus_dict (hvdc_lines hvdc_circuit) k ->
       bt' !! k = [PQ; REF; PQ; NONE] !! k).
Proof.
  eexists _, _. split; [reflexivity|]. split; [reflexivity|].
  refine (proj2 (proj2 (get_hvdc_data_bus_types hvdc_circuit ex_bus_dict
    [PQ; REF; PQ; NONE] false 1 _ _ _))).
  reflexivity.
Defined.

(** ** C8: islands without a slack bus in add_dc_nodal_power_balance *)

Lemma nth_map_in {A B} (f : A -> B) (l : list A) (q : nat) (d : B) (d' : A) :
  (q < length l)%nat -> nth q (map f l) d = f (nth q l d').
Proof.
  revert q. induction l as [|x l IH]; intros [|q] Hq; simpl in *; try lia; auto.
  apply IH. lia.
Qed.

Lemma gather_Some {A} (a : list A) (idx : list nat) (l : list A) (d : A) :
  gather a idx = Some l ->
  l = map (fun k => nth k a d) idx /\ Forall (fun k => k < length a)%nat idx.
Proof.
  unfold gather. rewrite mapM_Some. intros H. induction H as [|k x idx l Hk _ [-> IH]];
    simpl; [done|].
  split; [|constructor; [by eapply lookup_lt_Some|done]].
  f_equal. symmetry. by apply nth_lookup_Some.
Qed.

Lemma lpDot_Some (M : list (list Q)) (x : list nat) (es : list LinExpr) :
  lpDot M x = Some es ->
  es = map (fun row => zip row x) M /\ Forall (fun row => length row = length x) M.
Proof.
  unfold lpDot. rewrite mapM_Some. intros H.
  induction H as [|row e M es He _ [-> IH]]; simpl; [done|].
  case_decide; [|done]. injection He as <-. split; [done|by constructor].
Qed.

Lemma submatrix_Some (B : list (list Q)) (rows cols : list nat) (M : list (list Q)) :
  submatrix B rows cols = Some M ->
  M = map (fun r => map (fun c => nth c (nth r B []) 0) cols) rows.
Proof.
  unfold submatrix. rewrite mapM_Some. intros H.
  induction H as [|r m rows M Hr _ IH]; simpl; [done|]. rewrite IH.
  apply bind_Some in Hr as (row & Hrow & Hg).
  apply (gather_Some _ _ _ 0) in Hg as [-> _].
  by rewrite (nth_lookup_Some _ _ _ _ Hrow).
Qed.

Lemma lpAddRestrictions2_Some (pb : list LpConstraint) (lhs : list LinExpr)
    (rhs : list LpRhs) (name : RestrictionName) (op : LpOp) (pb' cs : list LpConstraint) :
  lpAddRestrictions2 pb lhs rhs name op = Some (pb', cs) ->
  pb' = pb ++ cs /\
  cs = imap (fun k '(l, r) => {| c_name := name; c_pos := k; c_lhs := l;
                                 c_op := op; c_rhs := r |}) (zip lhs rhs).
Proof. unfold lpAddRestrictions2. case_decide; [|done]. intros [= <- <-]. done. Qed.

Lemma fold_set_at_None {A} (l : list (nat * A)) :
  fold_left scatter_step l None = None.
Proof. induction l as [|[??] l IH]; simpl; auto. Qed.

Lemma fold_set_at_frame {A} (l : list (nat * A)) :
  forall (a a' : list A), fold_left scatter_step l (Some a) = Some a' ->
  length a' = length a /\ forall b, b ∉ l.*1 -> a' !! b = a !! b.
Proof.
  induction l as [|[k v] l IH]; intros a a'; cbn [fold_left].
  - intros [= <-]. done.
  - unfold scatter_step at 2. cbn [mbind option_bind fst snd]. unfold set_at. case_decide as Hk.
    + intros H. destruct (IH _ _ H) as [Hl Hb].
      rewrite length_insert in Hl. split; [done|].
      intros b Hnot. rewrite Hb by set_solver. apply list_lookup_insert_ne. set_solver.
    + by rewrite fold_set_at_None.
Qed.

Lemma scatter_frame {A} (a a' : list A) (idx : list nat) (vals : list A) :
  scatter a idx vals = Some a' ->
  length a' = length a /\ forall b, b ∉ idx -> a' !! b = a !! b.
Proof.
  unfold scatter. case_decide as Hlen; [|done]. intros H.
  destruct (fold_set_at_frame _ _ _ H) as [Hl Hb]. split; [done|].
  intros b Hnot. apply Hb. rewrite fst_zip by lia. done.
Qed.

Lemma zip_map_diag {A B C} (f : A -> B) (g : A -> C) (l : list A) :
  zip (map f l) (map g l) = map (fun x => (f x, g x)) l.
Proof. induction l; simpl; f_equal; auto. Qed.

Lemma zip_map_imap {A} (h : nat -> A) (row : list Q) (orig : list nat) :
  length row = length orig ->
  zip row (map h orig) = imap (fun c b => (b, h (nth c orig 0%nat))) row.
Proof.
  revert orig. induction row as [|b row IH]; intros [|o orig] Hl; simpl in *; try lia; [done|].
  f_equal. rewrite IH by lia. done.
Qed.

Lemma imap_map {A B C} (f : nat -> B -> C) (g : A -> B) (l : list A) :
  imap f (map g l) = imap (fun k x => f k (g x)) l.
Proof. revert f. induction l as [|x l IH]; intros f; simpl; [done|]. f_equal. apply IH. Qed.

Lemma nth_in_elem {A} (l : list A) (k : nat) (d : A) :
  (k < length l)%nat -> nth k l d ∈ l.
Proof. intros Hk. apply list_elem_of_In, nth_In. done. Qed.

Lemma Forall_elem {A} (P : A -> Prop) (l : list A) (x : A) : Forall P l -> x ∈ l -> P x.
Proof. rewrite Forall_forall. auto. Qed.

Lemma island_step_spec (theta P : list nat) (i : nat) (calc : CalcInput)
    (pb pb' : list LpConstraint) (nr nr' : list (option LpConstraint)) :
  island_step theta P i calc (pb, nr) = Some (pb', nr') ->
  (ref calc = [] -> pb' = pb /\ nr' = nr) /\
  (ref calc <> [] -> pb' = pb ++ spec_island_constraints theta P i calc /\
     length nr' = length nr /\
     forall b, b ∉ original_bus_idx calc -> nr' !! b = nr !! b).
Proof.
  unfold island_step. case_decide as Hr; intros H.
  2: { split; [by injection H as <- <-|]. intros Hne. destruct (ref calc); simpl in Hr; [done|lia]. }
  split; [intros E; rewrite E in Hr; simpl in Hr; lia|]. intros _.
  apply bind_Some in H as (P_island & HPi & H).
  apply bind_Some in H as (theta_island & Hti & H).
  apply bind_Some in H as (idx & Hidx & H).
  apply bind_Some in H as (Bpp & HBpp & H).
  apply bind_Some in H as (th_pqpv & Hthp & H).
  apply bind_Some in H as (lhs & Hlhs & H).
  apply bind_Some in H as (P_pqpv & HPp & H).
  apply bind_Some in H as ([pb1 cs1] & Hadd1 & H).
  apply bind_Some in H as (nr1 & Hsc1 & H).
  apply bind_Some in H as (idx2 & Hidx2 & H).
  apply bind_Some in H as (Bvd & HBvd & H).
  apply bind_Some in H as (lhs2 & Hlhs2 & H).
  apply bind_Some in H as (P_vd & HPv & H).
  apply bind_Some in H as ([pb2 cs2] & Hadd2 & H).
  apply bind_Some in H as (nr2 & Hsc2 & H).
  apply bind_Some in H as (th_vd & Hthv & H).
  apply bind_Some in H as ([pb3 cs3] & Hadd3 & H).
  injection H as <- <-.
  apply (gather_Some _ _ _ 0%nat) in HPi as [-> HPir].
  apply (gather_Some _ _ _ 0%nat) in Hti as [-> Htir].
  apply (gather_Some _ _ _ 0%nat) in Hidx as [-> Hidxr].
  apply submatrix_Some in HBpp as ->.
  apply (gather_Some _ _ _ 0%nat) in Hthp as [-> Hthpr].
  apply lpDot_Some in Hlhs as [-> _].
  apply (gather_Some _ _ _ 0%nat) in HPp as [-> HPpr].
  apply lpAddRestrictions2_Some in Hadd1 as [-> ->].
  apply scatter_frame in Hsc1 as [Hl1 Hf1].
  apply (gather_Some _ _ _ 0%nat) in Hidx2 as [-> Hidx2r].
  apply (gather_Some _ _ _ []) in HBvd as [-> HBvdr].
  apply lpDot_Some in Hlhs2 as [-> Hlen2].
  apply (gather_Some _ _ _ 0%nat) in HPv as [-> HPvr].
  apply lpAddRestrictions2_Some in Hadd2 as [-> ->].
  apply scatter_frame in Hsc2 as [Hl2 Hf2].
  apply (gather_Some _ _ _ 0%nat) in Hthv as [-> Hthvr].
  apply lpAddRestrictions2_Some in Hadd3 as [-> ->].
  rewrite !length_map in HPpr, Hthpr, HPvr, Hthvr.
  split_and!.
  - rewrite <- !app_assoc. f_equal. unfold spec_island_constraints. f_equal; [|f_equal].
    + rewrite !map_map, zip_map_diag, imap_map. apply imap_ext. intros k p Hp.
      apply list_elem_of_lookup_2 in Hp.
      rewrite zip_map_diag. f_equal.
      * apply map_ext_in. intros q Hq. f_equal.
        apply (nth_map_in (fun k0 => nth k0 theta 0%nat)).
        apply (Forall_elem _ _ _ Hthpr). by apply list_elem_of_In.
      * f_equal. apply (nth_map_in (fun k0 => nth k0 P 0%nat)).
        exact (Forall_elem _ _ _ HPpr Hp).
    + rewrite !map_map, zip_map_diag, imap_map. apply imap_ext. intros k v Hv.
      apply list_elem_of_lookup_2 in Hv.
      rewrite Forall_map in Hlen2.
      f_equal.
      * apply zip_map_imap. rewrite <- (length_map (fun k0 => nth k0 theta 0%nat)).
        exact (Forall_elem _ _ _ Hlen2 Hv).
      * f_equal. apply (nth_map_in (fun k0 => nth k0 P 0%nat)).
        exact (Forall_elem _ _ _ HPvr Hv).
    + rewrite !map_map, zip_map_diag, imap_map. apply imap_ext. intros k v Hv.
      apply list_elem_of_lookup_2 in Hv.
      rewrite (nth_map_in (fun k0 => nth k0 theta 0%nat) _ _ _ 0%nat); [done|].
      exact (Forall_elem _ _ _ Hthvr Hv).
  - lia.
  - intros b Hb. rewrite Hf2, Hf1; [done| |].
    + intros Hin. apply list_elem_of_fmap in Hin as (k & -> & Hk). apply Hb.
      apply nth_in_elem. exact (Forall_elem _ _ _ Hidxr Hk).
    + intros Hin. apply list_elem_of_fmap in Hin as (k & -> & Hk). apply Hb.
      apply nth_in_elem. exact (Forall_elem _ _ _ Hidx2r Hk).
Qed.

Lemma spec_island_constraints_names (theta P : list nat) (i : nat) (calc : CalcInput) c :
  c ∈ spec_island_constraints theta P i calc -> name_island (c_name c) = i.
Proof.
  unfold spec_island_constraints.
  rewrite !elem_of_app, !elem_of_lookup_imap.
  intros [(k & y & -> & _)|[(k & y & -> & _)|(k & y & -> & _)]]; reflexivity.
Qed.

Lemma foldi_island_step (theta P : list nat) (islands : list CalcInput) :
  forall i0 pb nr pb' nr',
  foldi (island_step theta P) i0 islands (pb, nr) = Some (pb', nr') ->
  exists added, pb' = pb ++ added /\
    (forall c, c ∈ added -> exists j calc, islands !! j = Some calc /\
       ref calc <> [] /\ name_island (c_name c) = (i0 + j)%nat) /\
    (forall j calc, islands !! j = Some calc -> ref calc <> [] ->
       contiguous_in (spec_island_constraints theta P (i0 + j) calc) added) /\
    length nr' = length nr /\
    (forall b, (forall j calc, islands !! j = Some calc -> ref calc <> [] ->
       b ∉ original_bus_idx calc) -> nr' !! b = nr !! b).
Proof.
  induction islands as [|x xs IH]; intros i0 pb nr pb' nr' Hf; cbn [foldi] in Hf.
  - inversion Hf; subst. exists []. rewrite app_nil_r.
    split; [done|]. split; [intros c Hc; by apply elem_of_nil in Hc|].
    split; [intros j calc Hj; by rewrite lookup_nil in Hj|]. done.
  - destruct (island_step theta P i0 x (pb, nr)) as [[pb1 nr1]|] eqn:Hs;
      cbn [mbind option_bind] in Hf; [|done].
    simpl in Hf. apply IH in Hf as (added & -> & Hnames & Hinf & Hlen & Hfr).
    apply island_step_spec in Hs as [Hnil Hcons].
    destruct (decide (ref x = [])) as [Hx|Hx].
    + destruct (Hnil Hx) as [-> ->]. exists added. split; [done|]. split.
      { intros c Hc. destruct (Hnames c Hc) as (j & calc & Hj & Hne & Hn).
        exists (S j), calc. rewrite Hn. split_and!; [done|done|lia]. }
      split.
      { intros [|j] calc Hj Hne; simpl in Hj.
        - inversion Hj; subst. done.
        - replace (i0 + S j)%nat with (S i0 + j)%nat by lia. by apply Hinf. }
      split; [done|].
      intros b Hb. apply Hfr. intros j calc Hj Hne. exact (Hb (S j) calc Hj Hne).
    + destruct (Hcons Hx) as (-> & Hl1 & Hfr1).
      exists (spec_island_constraints theta P i0 x ++ added).
      rewrite app_assoc. split; [done|]. split.
      { intros c Hc. apply elem_of_app in Hc as [Hc|Hc].
        - exists 0%nat, x. apply spec_island_constraints_names in Hc.
          split_and!; [done|done|lia].
        - destruct (Hnames c Hc) as (j & calc & Hj & Hne & Hn).
          exists (S j), calc. rewrite Hn. split_and!; [done|done|lia]. }
      split.
      { intros [|j] calc Hj Hne; simpl in Hj.
        - inversion Hj; subst. rewrite Nat.add_0_r.
          exists [], added. by rewrite app_nil_l.
        - replace (i0 + S j)%nat with (S i0 + j)%nat by lia.
          destruct (Hinf j calc Hj Hne) as (l1 & l2 & ->).
          exists (spec_island_constraints theta P i0 x ++ l1), l2.
          by rewrite <- app_assoc. }
      split; [lia|].
      intros b Hb. rewrite Hfr.
      * apply Hfr1. exact (Hb 0%nat x eq_refl Hx).
      * intros j calc Hj Hne. exact (Hb (S j) calc Hj Hne).
Qed.

(** C8: in [add_dc_nodal_power_balance], an island whose slack set [vd]
    is empty is skipped: its loop step succeeds and changes neither the
    problem nor [nodal_restrictions]. When the whole loop succeeds, the
    problem only grows by constraints named after islands that have a
    slack bus, each such island gets its pqpv balance, slack balance and
    zero-angle constraints, [nodal_restrictions] keeps length [nbus], and
    every bus that belongs to no island with a slack bus keeps an unset
    (None) entry. *)
Theorem add_dc_nodal_power_balance_skips_islands_without_slack
    (islands : list CalcInput) (nbus : nat) (problem : list LpConstraint)
    (theta P : list nat) (problem' : list LpConstraint)
    (nodal_restrictions : list (option LpConstraint)) :
  (forall i calc st, ref calc = [] -> island_step theta P i calc st = Some st) /\
  (add_dc_nodal_power_balance islands nbus problem theta P
     = Some (problem', nodal_restrictions) ->
   exists added, problem' = problem ++ added /\
     (forall c, c ∈ added -> exists calc,
        islands !! name_island (c_name c) = Some calc /\ ref calc <> []) /\
     (forall i calc, islands !! i = Some calc -> ref calc <> [] ->
        contiguous_in (spec_island_constraints theta P i calc) added) /\
     length nodal_restrictions = nbus /\
     (forall b, (b < nbus)%nat ->
        (forall i calc, islands !! i = Some calc -> ref calc <> [] ->
           b ∉ original_bus_idx calc) ->
        nodal_restrictions !! b = Some None)).
Proof.
  split.
  - intros i calc [pb nr] Hr. unfold island_step. rewrite Hr.
    case_decide as H0; [simpl in H0; lia|done].
  - unfold add_dc_nodal_power_balance. intros Hf.
    apply foldi_island_step in Hf as (added & -> & Hnames & Hinf & Hlen & Hfr).
    exists added. split; [done|]. split.
    { intros c Hc. destruct (Hnames c Hc) as (j & calc & Hj & Hne & Hn).
      exists calc. rewrite Hn. simpl. done. }
    split; [exact Hinf|].
    rewrite length_replicate in Hlen. split; [done|].
    intros b Hb Hout. rewrite (Hfr b Hout). by apply lookup_replicate_2.
Qed.

(** On two islands, the first with slack bus 0 and the second with no
    slack bus, buses 2 and 3 of the second island keep unset entries. *)
Lemma add_dc_nodal_power_balance_skips_islands_without_slack_witness :
  exists problem' nr,
    add_dc_nodal_power_balance [island_a; island_b] 4 []
      [10; 11; 12; 13]%nat [20; 21; 22; 23]%nat = Some (problem', nr) /\
    nr !! 2%nat = Some None /\ nr !! 3%nat = Some None.
Proof.
  eexists _, _. split; [reflexivity|].
  destruct (proj2 (add_dc_nodal_power_balance_skips_islands_without_slack
                     [island_a; island_b] 4 [] [10; 11; 12; 13]%nat
                     [20; 21; 22; 23]%nat _ _) eq_refl)
    as (added & _ & _ & _ & _ & Hb).
  split; apply Hb; try lia; intros [|[|i]] calc Hi Hne; simpl in Hi;
    inversion Hi; subst; simpl in *; try done; rewrite list_elem_of_In; simpl; lia.
Defined.

(** ** Incidence matrices written by enumerate-loops *)

Lemma set_at2_at2 {A} (a a' : list (list A)) (i j : nat) (v : A) :
  set_at2 a i j v = Some a' ->
  forall r c, at2 a' r c = if decide (r = i /\ c = j) then Some v else at2 a r c.
Proof.
  unfold set_at2, at2. intros H. inv_binds. intros r c.
  destruct (decide (r = i)) as [->|Hr].
  - rewrite list_lookup_insert_eq by done. simpl.
    match goal with Hrow : a !! i = Some ?row |- _ => rewrite Hrow; simpl end.
    destruct (decide (c = j)) as [->|Hc].
    + rewrite decide_True by done. by rewrite list_lookup_insert_eq.
    + rewrite decide_False by naive_solver. by rewrite list_lookup_insert_ne.
  - rewrite decide_False by naive_solver. by rewrite list_lookup_insert_ne.
Qed.

Lemma set_at2_length {A} (a a' : list (list A)) (i j : nat) (v : A) :
  set_at2 a i j v = Some a' -> length a' = length a.
Proof. unfold set_at2. intros H. inv_binds. by rewrite length_insert. Qed.

(** A loop whose body at index [j] sets the entries [pos j x] of a 0/1
    matrix to one and leaves every other entry as it is: afterwards the
    entries some element marks are one, the others unchanged. *)
Lemma foldi_marks {A St} (f : nat -> A -> St -> option St) (proj : St -> list (list Q))
    (pos : nat -> A -> list (nat * nat)) :
  (forall j x s s', f j x s = Some s' -> forall r c,
     at2 (proj s') r c = if decide ((r, c) ∈ pos j x) then Some 1 else at2 (proj s) r c) ->
  forall xs i s s', foldi f i xs s = Some s' -> forall r c,
  ((exists k x, xs !! k = Some x /\ (r, c) ∈ pos (i + k)%nat x) -> at2 (proj s') r c = Some 1) /\
  ((forall k x, xs !! k = Some x -> (r, c) ∉ pos (i + k)%nat x) ->
     at2 (proj s') r c = at2 (proj s) r c).
Proof.
  intros Hstep xs. induction xs as [|x xs IH]; intros i s s' Hf r c; simpl in Hf.
  - injection Hf as <-. split; [|done]. intros (k & y & Hk & _). by rewrite lookup_nil in Hk.
  - apply bind_Some in Hf as (s1 & Hs1 & Hrest).
    destruct (IH _ _ _ Hrest r c) as [IHin IHout].
    pose proof (Hstep _ _ _ _ Hs1 r c) as H1.
    split.
    + intros (k & y & Hk & Hin). destruct k as [|k]; simpl in Hk.
      * injection Hk as <-. rewrite Nat.add_0_r in Hin.
        assert (Hs1' : at2 (proj s1) r c = Some 1) by (rewrite H1; by rewrite decide_True).
        refine (foldi_invariant f (fun s => at2 (proj s) r c = Some 1)
                  _ _ _ _ _ Hrest Hs1').
        intros j z t t' Ht Ht1. rewrite (Hstep _ _ _ _ Ht r c), Ht1.
        destruct (decide ((r, c) ∈ pos j z)); reflexivity.
      * apply IHin. exists k, y. split; [done|].
        by replace (S i + k)%nat with (i + S k)%nat by lia.
    + intros Hout. rewrite IHout.
      * rewrite H1. rewrite decide_False; [done|].
        intros Hin. apply (Hout 0%nat x); [done|]. by rewrite Nat.add_0_r.
      * intros k y Hk Hin. apply (Hout (S k) y Hk).
        by replace (i + S k)%nat with (S i + k)%nat by lia.
Qed.

Lemma set_at2_lt {A} (a a' : list (list A)) (i j : nat) (v : A) :
  set_at2 a i j v = Some a' -> (i < length a)%nat /\ exists row, a !! i = Some row /\ (j < length row)%nat.
Proof.
  unfold set_at2. intros H. inv_binds. split; [done|]. eexists; split; [done|]. done.
Qed.

Lemma at2_replicate {A} (n m r c : nat) (v : A) :
  (r < n)%nat -> (c < m)%nat -> at2 (replicate n (replicate m v)) r c = Some v.
Proof.
  intros Hr Hc. unfold at2. rewrite lookup_replicate_2 by done. simpl.
  by rewrite lookup_replicate_2.
Qed.

(** Every element of a successful loop went through one successful step,
    from a state satisfying any invariant of the loop. *)
Lemma foldi_each {A St} (f : nat -> A -> St -> option St) (P : St -> Prop) :
  (forall j x s s', f j x s = Some s' -> P s -> P s') ->
  forall xs i s s', foldi f i xs s = Some s' -> P s ->
  forall k x, xs !! k = Some x -> exists t t', P t /\ f (i + k)%nat x t = Some t'.
Proof.
  intros Hstep xs. induction xs as [|y xs IH]; intros i s s' Hf HP k x Hk; simpl in Hf.
  - by rewrite lookup_nil in Hk.
  - apply bind_Some in Hf as (s1 & Hs1 & Hrest). destruct k as [|k]; simpl in Hk.
    + injection Hk as <-. exists s, s1. rewrite Nat.add_0_r. done.
    + destruct (IH _ _ _ Hrest (Hstep _ _ _ _ Hs1 HP) k x Hk) as (t & t' & Ht & Hft).
      exists t, t'. split; [done|]. by replace (i + S k)%nat with (S i + k)%nat by lia.
Qed.

(** A loop whose body at index [j] sets entry [(bus_dict[bus], j)] of a
    bus x device matrix allocated with zeros: each column holds a single
    one, at the row of the device's bus, which is in range. *)
Lemma foldi_bus_device_incidence {A St} (f : nat -> A -> St -> option St)
    (proj : St -> list (list Q)) (bidx : A -> option nat) (nbus : nat) :
  (forall j x s s', f j x s = Some s' ->
     exists i, bidx x = Some i /\ set_at2 (proj s) i j 1 = Some (proj s')) ->
  forall xs s s', foldi f 0 xs s = Some s' -> proj s = replicate nbus (zeros (length xs)) ->
  (forall k x, xs !! k = Some x -> exists i, bidx x = Some i /\ (i < nbus)%nat) /\
  (forall r k x, (r < nbus)%nat -> xs !! k = Some x ->
     at2 (proj s') r k = Some (if decide (bidx x = Some r) then 1 else 0)).
Proof.
  intros Hstep xs s s' Hf H0.
  pose (pos := fun (j : nat) (x : A) => match bidx x with Some i => [(i, j)] | None => [] end : list (nat * nat)).
  assert (Hmark : forall j x s s', f j x s = Some s' -> forall r c,
     at2 (proj s') r c = if decide ((r, c) ∈ pos j x) then Some 1 else at2 (proj s) r c).
  { intros j x t t' Ht r c. destruct (Hstep _ _ _ _ Ht) as (i & Hi & HC).
    rewrite (set_at2_at2 _ _ _ _ _ HC r c). unfold pos. rewrite Hi.
    apply decide_ext. rewrite list_elem_of_singleton. naive_solver. }
  assert (Hlen : forall j x t t', f j x t = Some t' ->
            length (proj t) = nbus -> length (proj t') = nbus).
  { intros j x t t' Ht Hl. destruct (Hstep _ _ _ _ Ht) as (i & _ & HC).
    by rewrite (set_at2_length _ _ _ _ _ HC). }
  split.
  - intros k x Hk.
    destruct (foldi_each f (fun t => length (proj t) = nbus) Hlen xs 0 s s' Hf
                ltac:(cbv beta; by rewrite H0, length_replicate) k x Hk) as (t & t' & Ht & Hft).
    destruct (Hstep _ _ _ _ Hft) as (i & Hi & HC). exists i. split; [done|].
    rewrite <- Ht. apply (set_at2_lt _ _ _ _ _ HC).
  - intros r k x Hr Hk.
    assert (Hkl : (k < length xs)%nat) by (by eapply lookup_lt_Some).
    destruct (foldi_marks f proj pos Hmark xs 0 s s' Hf r k) as [Hin Hout].
    destruct (decide (bidx x = Some r)) as [Hb|Hb].
    + apply Hin. exists k, x. split; [done|]. simpl. unfold pos. rewrite Hb.
      by apply list_elem_of_singleton.
    + rewrite Hout.
      * rewrite H0. unfold zeros. by apply at2_replicate.
      * intros k' y Hk' Hin'. simpl in Hin'. unfold pos in Hin'.
        destruct (bidx y) as [i|] eqn:Hy; [|by apply elem_of_nil in Hin'].
        apply list_elem_of_singleton in Hin'. injection Hin' as -> ->.
        rewrite Hk in Hk'. injection Hk' as ->. congruence.
Qed.

Lemma set_at2_row_length {A} (a a' : list (list A)) (i j : nat) (v : A) :
  set_at2 a i j v = Some a' -> forall r, length <$> a' !! r = length <$> a !! r.
Proof.
  unfold set_at2. intros H. inv_binds. intros r.
  destruct (decide (r = i)) as [->|Hr].
  - rewrite list_lookup_insert_eq by done.
    match goal with Hrow : a !! i = Some _ |- _ => rewrite Hrow end.
    simpl. by rewrite length_insert.
  - by rewrite list_lookup_insert_ne.
Qed.

(** A loop whose body at index [j] sets entries [(j, f)] and [(j, t)] of
    a device x bus matrix allocated with zeros, [f] and [t] the indices of
    the device's two terminals: each row holds ones exactly at the
    device's terminals, which are in range. *)
Lemma foldi_device_bus_incidence {A St} (g : nat -> A -> St -> option St)
    (proj : St -> list (list Q)) (bf bt : A -> option nat) (nbus : nat) :
  (forall j x s s', g j x s = Some s' ->
     exists f t C1, bf x = Some f /\ bt x = Some t /\
       set_at2 (proj s) j f 1 = Some C1 /\ set_at2 C1 j t 1 = Some (proj s')) ->
  forall xs s s', foldi g 0 xs s = Some s' -> proj s = replicate (length xs) (zeros nbus) ->
  (forall k x, xs !! k = Some x -> exists f t, bf x = Some f /\ bt x = Some t /\
     (f < nbus)%nat /\ (t < nbus)%nat) /\
  (forall k x c, xs !! k = Some x -> (c < nbus)%nat ->
     at2 (proj s') k c = Some (if decide (bf x = Some c \/ bt x = Some c) then 1 else 0)).
Proof.
  intros Hstep xs s s' Hg H0.
  pose (pos := fun (j : nat) (x : A) => match bf x, bt x with Some f, Some t => [(j, f); (j, t)] | _, _ => [] end : list (nat * nat)).
  assert (Hmark : forall j x s s', g j x s = Some s' -> forall r c,
     at2 (proj s') r c = if decide ((r, c) ∈ pos j x) then Some 1 else at2 (proj s) r c).
  { intros j x t t' Ht r c. destruct (Hstep _ _ _ _ Ht) as (f & tt & C1 & Hbf & Hbt & H1 & H2).
    rewrite (set_at2_at2 _ _ _ _ _ H2 r c), (set_at2_at2 _ _ _ _ _ H1 r c).
    unfold pos. rewrite Hbf, Hbt.
    destruct (decide ((r, c) ∈ [(j, f); (j, tt)])) as [Hin|Hnin];
      rewrite !elem_of_cons, elem_of_nil in *.
    - destruct (decide (r = j /\ c = tt)); [done|].
      rewrite decide_True; [done|]. naive_solver.
    - rewrite !decide_False; [done| naive_solver | naive_solver]. }
  pose (P := fun t => forall r row, proj t !! r = Some row -> length row = nbus).
  assert (Hinv : forall j x t t', g j x t = Some t' -> P t -> P t').
  { intros j x t t' Ht HP r row Hr. destruct (Hstep _ _ _ _ Ht) as (f & tt & C1 & _ & _ & H1 & H2).
    pose proof (set_at2_row_length _ _ _ _ _ H2 r) as E2.
    pose proof (set_at2_row_length _ _ _ _ _ H1 r) as E1.
    rewrite Hr in E2. simpl in E2. rewrite <- E2 in E1.
    destruct (proj t !! r) as [row0|] eqn:Hr0; [|done]. simpl in E1. injection E1 as E1.
    rewrite E1. by apply (HP r). }
  assert (HP0 : P s).
  { intros r row Hr. rewrite H0 in Hr. apply lookup_replicate in Hr as [-> _].
    apply length_replicate. }
  assert (Hends : forall k x, xs !! k = Some x -> exists f t, bf x = Some f /\ bt x = Some t /\
     (f < nbus)%nat /\ (t < nbus)%nat).
  { intros k x Hk.
    destruct (foldi_each g P Hinv xs 0 s s' Hg HP0 k x Hk) as (t & t' & Ht & Hgt).
    destruct (Hstep _ _ _ _ Hgt) as (f & tt & C1 & Hbf & Hbt & H1 & H2).
    exists f, tt. split_and!; [done|done| |].
    - destruct (set_at2_lt _ _ _ _ _ H1) as (_ & row & Hrow & Hf). by rewrite <- (Ht _ _ Hrow).
    - destruct (set_at2_lt _ _ _ _ _ H2) as (_ & row & Hrow & Htt).
      pose proof (set_at2_row_length _ _ _ _ _ H1 (0 + k)%nat) as E. rewrite Hrow in E.
      destruct (proj t !! (0 + k)%nat) as [row0|] eqn:Hr0; [|done]. simpl in E.
      injection E as E. rewrite E in Htt. by rewrite <- (Ht _ _ Hr0). }
  split; [exact Hends|].
  intros k x c Hk Hc.
  assert (Hkl : (k < length xs)%nat) by (by eapply lookup_lt_Some).
  destruct (foldi_marks g proj pos Hmark xs 0 s s' Hg k c) as [Hin Hout].
  destruct (Hends k x Hk) as (f & tt & Hbf & Hbt & _ & _).
  destruct (decide (bf x = Some c \/ bt x = Some c)) as [Hb|Hb].
  - apply Hin. exists k, x. split; [done|]. simpl. unfold pos. rewrite Hbf, Hbt.
    rewrite !elem_of_cons. naive_solver.
  - rewrite Hout.
    + rewrite H0. unfold zeros. by apply at2_replicate.
    + intros k' y Hk' Hin'. simpl in Hin'. unfold pos in Hin'.
      destruct (bf y) as [f'|] eqn:Hy1; [|by apply elem_of_nil in Hin'].
      destruct (bt y) as [t'|] eqn:Hy2; [|by apply elem_of_nil in Hin'].
      rewrite !elem_of_cons, elem_of_nil in Hin'.
      destruct Hin' as [Hin'|[Hin'|[]]]; injection Hin' as -> ->;
        rewrite Hk in Hk'; injection Hk' as ->; naive_solver.
Qed.

(** Peel the binds of a successful step, splitting pattern-bound pairs. *)
Ltac peel H :=
  repeat (apply bind_Some in H;
          let x := fresh "x" in let Hx := fresh "Hx" in destruct H as (x & Hx & H);
          try (match type of x with prod _ _ => destruct x; cbv beta iota in H end)).

Lemma load_step_C (bd : BusDict) (res : option OpfResults) (ts opf : bool) (k : nat)
    (elm : Load) (d d' : LoadData) :
  load_step bd res ts opf k elm d = Some d' ->
  exists i, bus_index bd (ld_bus elm) = Some i /\ set_at2 (C_bus_load d) i k 1 = Some (C_bus_load d').
Proof. unfold load_step. intros H. peel H. injection H as <-. simpl. eauto. Qed.

Lemma static_generator_step_C (bd : BusDict) (ts : bool) (k : nat)
    (elm : StaticGenerator) (d d' : StaticGeneratorData) :
  static_generator_step bd ts k elm d = Some d' ->
  exists i, bus_index bd (sg_bus elm) = Some i /\
    set_at2 (C_bus_static_generator d) i k 1 = Some (C_bus_static_generator d').
Proof. unfold static_generator_step. intros H. peel H. injection H as <-. simpl. eauto. Qed.

Lemma shunt_step_C (bd : BusDict) (ts : bool) (k : nat) (elm : Shunt) (d d' : ShuntData) :
  shunt_step bd ts k elm d = Some d' ->
  exists i, bus_index bd (sh_bus elm) = Some i /\ set_at2 (C_bus_shunt d) i k 1 = Some (C_bus_shunt d').
Proof. unfold shunt_step. intros H. peel H. injection H as <-. simpl. eauto. Qed.

Lemma transformer_step_C (bd : BusDict) (i : nat) (elm : Transformer2W * TransformerCtl)
    (d d' : TransformerData) :
  transformer_step bd i elm d = Some d' ->
  exists f t C1, bus_index bd (tr_bus_from elm.1) = Some f /\ bus_index bd (tr_bus_to elm.1) = Some t /\
    set_at2 (C_tr_bus d) i f 1 = Some C1 /\ set_at2 C1 i t 1 = Some (C_tr_bus d').
Proof. destruct elm as [br ctl]. unfold transformer_step. intros H. peel H. injection H as <-. simpl. eauto 10. Qed.

Lemma vsc_step_C (bd : BusDict) (i : nat) (elm : VscConverter * VscCtl) (d d' : VscData) :
  vsc_step bd i elm d = Some d' ->
  exists f t C1, bus_index bd (vsc_bus_from elm.1) = Some f /\ bus_index bd (vsc_bus_to elm.1) = Some t /\
    set_at2 (C_vsc_bus d) i f 1 = Some C1 /\ set_at2 C1 i t 1 = Some (C_vsc_bus d').
Proof. destruct elm as [br ctl]. unfold vsc_step. intros H. peel H. injection H as <-. simpl. eauto 10. Qed.

(** ** Incidence matrices of the device builders *)

(** X1: when [get_load_data] succeeds, every load's bus is in [bus_dict]
    with an index below [nbus], and [C_bus_load] is the bus x load
    incidence matrix: entry [(r, k)] is 1 when load [k] sits at bus [r]
    and 0 otherwise, so each column holds exactly one 1. *)
Theorem get_load_data_incidence (loads : list Load) (nbus : nat) (bus_dict : BusDict)
    (opf_results : option OpfResults) (time_series opf : bool) (ntime : nat)
    (data : LoadData) :
  get_load_data loads nbus bus_dict opf_results time_series opf ntime = Some data ->
  (forall k elm, loads !! k = Some elm ->
     exists i, bus_index bus_dict (ld_bus elm) = Some i /\ (i < nbus)%nat) /\
  (forall r k elm, (r < nbus)%nat -> loads !! k = Some elm ->
     at2 (C_bus_load data) r k =
       Some (if decide (bus_index bus_dict (ld_bus elm) = Some r) then 1 else 0)).
Proof.
  intros H. refine (foldi_bus_device_incidence _ C_bus_load
                      (fun elm => bus_index bus_dict (ld_bus elm)) nbus _ _ _ _ H eq_refl).
  intros j x s s' Hs. exact (load_step_C _ _ _ _ _ _ _ _ Hs).
Qed.

(** X2: when [get_static_generator_data] succeeds, every static
    generator's bus is in [bus_dict] with an index below [nbus], and
    [C_bus_static_generator] holds a single 1 per column, at the row of
    the device's bus. *)
Theorem get_static_generator_data_incidence (devices : list StaticGenerator) (nbus : nat)
    (bus_dict : BusDict) (time_series : bool) (ntime : nat) (data : StaticGeneratorData) :
  get_static_generator_data devices nbus bus_dict time_series ntime = Some data ->
  (forall k elm, devices !! k = Some elm ->
     exists i, bus_index bus_dict (sg_bus elm) = Some i /\ (i < nbus)%nat) /\
  (forall r k elm, (r < nbus)%nat -> devices !! k = Some elm ->
     at2 (C_bus_static_generator data) r k =
       Some (if decide (bus_index bus_dict (sg_bus elm) = Some r) then 1 else 0)).
Proof.
  intros H. refine (foldi_bus_device_incidence _ C_bus_static_generator
                      (fun elm => bus_index bus_dict (sg_bus elm)) nbus _ _ _ _ H eq_refl).
  intros j x s s' Hs. exact (static_generator_step_C _ _ _ _ _ _ Hs).
Qed.

(** X3: when [get_shunt_data] succeeds, every shunt's bus is in
    [bus_dict] with an index below [nbus], and [C_bus_shunt] holds a
    single 1 per column, at the row of the shunt's bus. *)
Theorem get_shunt_data_incidence (devices : list Shunt) (nbus : nat) (bus_dict : BusDict)
    (time_series : bool) (ntime : nat) (data : ShuntData) :
  get_shunt_data devices nbus bus_dict time_series ntime = Some data ->
  (forall k elm, devices !! k = Some elm ->
     exists i, bus_index bus_dict (sh_bus elm) = Some i /\ (i < nbus)%nat) /\
  (forall r k elm, (r < nbus)%nat -> devices !! k = Some elm ->
     at2 (C_bus_shunt data) r k =
       Some (if decide (bus_index bus_dict (sh_bus elm) = Some r) then 1 else 0)).
Proof.
  intros H. refine (foldi_bus_device_incidence _ C_bus_shunt
                      (fun elm => bus_index bus_dict (sh_bus elm)) nbus _ _ _ _ H eq_refl).
  intros j x s s' Hs. exact (shunt_step_C _ _ _ _ _ _ Hs).
Qed.

(** X4: when [get_transformer_data] succeeds, both terminals of every
    transformer are in [bus_dict] with indices below [nbus], and row [i]
    of [C_tr_bus] holds 1 exactly at the columns of transformer [i]'s
    from- and to-bus and 0 elsewhere. *)
Theorem get_transformer_data_incidence (transformers : list (Transformer2W * TransformerCtl))
    (nbus : nat) (bus_dict : BusDict) (data : TransformerData) :
  get_transformer_data transformers nbus bus_dict = Some data ->
  (forall i elm, transformers !! i = Some elm -> exists f t,
     bus_index bus_dict (tr_bus_from elm.1) = Some f /\
     bus_index bus_dict (tr_bus_to elm.1) = Some t /\ (f < nbus)%nat /\ (t < nbus)%nat) /\
  (forall i elm c, transformers !! i = Some elm -> (c < nbus)%nat ->
     at2 (C_tr_bus data) i c =
       Some (if decide (bus_index bus_dict (tr_bus_from elm.1) = Some c \/
                        bus_index bus_dict (tr_bus_to elm.1) = Some c) then 1 else 0)).
Proof.
  intros H. refine (foldi_device_bus_incidence _ C_tr_bus
                      (fun elm => bus_index bus_dict (tr_bus_from elm.1))
                      (fun elm => bus_index bus_dict (tr_bus_to elm.1)) nbus _ _ _ _ H eq_refl).
  intros j x s s' Hs. exact (transformer_step_C _ _ _ _ _ Hs).
Qed.

(** X5: when [get_vsc_data] succeeds, both terminals of every converter
    are in [bus_dict] with indices below [nbus], and row [i] of
    [C_vsc_bus] holds 1 exactly at the columns of converter [i]'s from-
    and to-bus and 0 elsewhere. *)
Theorem get_vsc_data_incidence (converters : list (VscConverter * VscCtl)) (nbus : nat)
    (bus_dict : BusDict) (data : VscData) :
  get_vsc_data converters nbus bus_dict = Some data ->
  (forall i elm, converters !! i = Some elm -> exists f t,
     bus_index bus_dict (vsc_bus_from elm.1) = Some f /\
     bus_index bus_dict (vsc_bus_to elm.1) = Some t /\ (f < nbus)%nat /\ (t < nbus)%nat) /\
  (forall i elm c, converters !! i = Some elm -> (c < nbus)%nat ->
     at2 (C_vsc_bus data) i c =
       Some (if decide (bus_index bus_dict (vsc_bus_from elm.1) = Some c \/
                        bus_index bus_dict (vsc_bus_to elm.1) = Some c) then 1 else 0)).
Proof.
  intros H. refine (foldi_device_bus_incidence _ C_vsc_bus
                      (fun elm => bus_index bus_dict (vsc_bus_from elm.1))
                      (fun elm => bus_index bus_dict (vsc_bus_to elm.1)) nbus _ _ _ _ H eq_refl).
  intros j x s s' Hs. exact (vsc_step_C _ _ _ _ _ Hs).
Qed.

Lemma get_load_data_incidence_witness :
  exists data, get_load_data ex_loads 4 ex_bus_dict None false false 1 = Some data /\
    at2 (C_bus_load data) 2 0 = Some 1 /\ at2 (C_bus_load data) 0 0 = Some 0 /\
    at2 (C_bus_load data) 0 1 = Some 1.
Proof.
  eexists. split; [vm_compute; reflexivity|].
  destruct (get_load_data_incidence ex_loads 4 ex_bus_dict None false false 1 _
              ltac:(vm_compute; reflexivity)) as [_ H].
  split_and!.
  - rewrite (H 2%nat 0%nat _ ltac:(lia) eq_refl). vm_compute. reflexivity.
  - rewrite (H 0%nat 0%nat _ ltac:(lia) eq_refl). vm_compute. reflexivity.
  - rewrite (H 0%nat 1%nat _ ltac:(lia) eq_refl). vm_compute. reflexivity.
Defined.

Lemma get_static_generator_data_incidence_witness :
  exists data, get_static_generator_data ex_static_generators 4 ex_bus_dict true 2 = Some data /\
    at2 (C_bus_static_generator data) 1 0 = Some 1 /\
    at2 (C_bus_static_generator data) 3 0 = Some 0.
Proof.
  eexists. split; [vm_compute; reflexivity|].
  destruct (get_static_generator_data_incidence ex_static_generators 4 ex_bus_dict true 2 _
              ltac:(vm_compute; reflexivity)) as [_ H].
  split.
  - rewrite (H 1%nat 0%nat _ ltac:(lia) eq_refl). vm_compute. reflexivity.
  - rewrite (H 3%nat 0%nat _ ltac:(lia) eq_refl). vm_compute. reflexivity.
Defined.

Lemma get_shunt_data_incidence_witness :
  exists data, get_shunt_data ex_shunts 4 ex_bus_dict true 2 = Some data /\
    at2 (C_bus_shunt data) 3 0 = Some 1 /\ at2 (C_bus_shunt data) 1 0 = Some 0.
Proof.
  eexists. split; [vm_compute; reflexivity|].
  destruct (get_shunt_data_incidence ex_shunts 4 ex_bus_dict true 2 _
              ltac:(vm_compute; reflexivity)) as [_ H].
  split.
  - rewrite (H 3%nat 0%nat _ ltac:(lia) eq_refl). vm_compute. reflexivity.
  - rewrite (H 1%nat 0%nat _ ltac:(lia) eq_refl). vm_compute. reflexivity.
Defined.

Lemma get_transformer_data_incidence_witness :
  exists data, get_transformer_data ex_transformers 4 ex_bus_dict = Some data /\
    at2 (C_tr_bus data) 0 2 = Some 1 /\ at2 (C_tr_bus data) 0 3 = Some 1 /\
    at2 (C_tr_bus data) 0 0 = Some 0.
Proof.
  eexists. split; [vm_compute; reflexivity|].
  destruct (get_transformer_data_incidence ex_transformers 4 ex_bus_dict _
              ltac:(vm_compute; reflexivity)) as [_ H].
  split_and!.
  - rewrite (H 0%nat _ 2%nat eq_refl ltac:(lia)). vm_compute. reflexivity.
  - rewrite (H 0%nat _ 3%nat eq_refl ltac:(lia)). vm_compute. reflexivity.
  - rewrite (H 0%nat _ 0%nat eq_refl ltac:(lia)). vm_compute. reflexivity.
Defined.

Lemma get_vsc_data_incidence_witness :
  exists data, get_vsc_data ex_converters 4 ex_bus_dict = Some data /\
    at2 (C_vsc_bus data) 0 3 = Some 1 /\ at2 (C_vsc_bus data) 0 0 = Some 1 /\
    at2 (C_vsc_bus data) 0 1 = Some 0.
Proof.
  eexists. split; [vm_compute; reflexivity|].
  destruct (get_vsc_data_incidence ex_converters 4 ex_bus_dict _
              ltac:(vm_compute; reflexivity)) as [_ H].
  split_and!.
  - rewrite (H 0%nat _ 3%nat eq_refl ltac:(lia)). vm_compute. reflexivity.
  - rewrite (H 0%nat _ 0%nat eq_refl ltac:(lia)). vm_compute. reflexivity.
  - rewrite (H 0%nat _ 1%nat eq_refl ltac:(lia)). vm_compute. reflexivity.
Defined.

Lemma set_at2_idem {A} (a a' : list (list A)) (i j : nat) (v : A) :
  set_at2 a i j v = Some a' -> set_at2 a' i j v = Some a'.
Proof.
  unfold set_at2. intros H. inv_binds.
  rewrite list_lookup_insert_eq by done. simpl. unfold set_at.
  rewrite !length_insert. rewrite decide_True by done. simpl.
  rewrite list_insert_insert_eq. rewrite decide_True by done.
  by rewrite list_insert_insert_eq.
Qed.

(** A loop whose body at index [j] sets entry [(j, b)] of a device x bus
    matrix allocated with zeros, [b] the index of the device's bus: each
    row holds a single one, at the device's bus, which is in range. *)
Lemma foldi_device_bus_incidence1 {A St} (g : nat -> A -> St -> option St)
    (proj : St -> list (list Q)) (bidx : A -> option nat) (nbus : nat) :
  (forall j x s s', g j x s = Some s' ->
     exists f, bidx x = Some f /\ set_at2 (proj s) j f 1 = Some (proj s')) ->
  forall xs s s', foldi g 0 xs s = Some s' -> proj s = replicate (length xs) (zeros nbus) ->
  (forall k x, xs !! k = Some x -> exists f, bidx x = Some f /\ (f < nbus)%nat) /\
  (forall k x c, xs !! k = Some x -> (c < nbus)%nat ->
     at2 (proj s') k c = Some (if decide (bidx x = Some c) then 1 else 0)).
Proof.
  intros Hstep xs s s' Hg H0.
  destruct (foldi_device_bus_incidence g proj bidx bidx nbus) with (xs := xs) (s := s) (s' := s')
    as [Hends Hat]; [|done|done|].
  { intros j x t t' Ht. destruct (Hstep _ _ _ _ Ht) as (f & Hf & HC).
    exists f, f, (proj t'). split_and!; try done. exact (set_at2_idem _ _ _ _ _ HC). }
  split.
  - intros k x Hk. destruct (Hends k x Hk) as (f & _ & Hf & _ & Hlt & _). eauto.
  - intros k x c Hk Hc. rewrite (Hat k x c Hk Hc).
    destruct (decide (bidx x = Some c)).
    + rewrite decide_True; [done|]. by left.
    + rewrite decide_False; [done|]. naive_solver.
Qed.

Lemma hvdc_step_Cf (bd : BusDict) (ts : bool) (i : nat) (elm : HvdcLine)
    (st st' : HvdcData * list BusMode) :
  hvdc_step bd ts i elm st = Some st' ->
  exists f, bus_index bd (hvdc_bus_from elm) = Some f /\
    set_at2 (C_hvdc_bus_f st.1) i f 1 = Some (C_hvdc_bus_f st'.1).
Proof. destruct st as [d bt]. unfold hvdc_step. intros H. peel H. injection H as <-. simpl. eauto. Qed.

Lemma hvdc_step_Ct (bd : BusDict) (ts : bool) (i : nat) (elm : HvdcLine)
    (st st' : HvdcData * list BusMode) :
  hvdc_step bd ts i elm st = Some st' ->
  exists t, bus_index bd (hvdc_bus_to elm) = Some t /\
    set_at2 (C_hvdc_bus_t st.1) i t 1 = Some (C_hvdc_bus_t st'.1).
Proof. destruct st as [d bt]. unfold hvdc_step. intros H. peel H. injection H as <-. simpl. eauto. Qed.

(** X6: when [get_hvdc_data] succeeds, both terminals of every HVDC link
    are in [bus_dict] with indices below the number of buses, row [i] of
    [C_hvdc_bus_f] holds a single 1, at the column of link [i]'s from-bus,
    and row [i] of [C_hvdc_bus_t] a single 1 at the column of its to-bus. *)
Theorem get_hvdc_data_incidence (circuit : MultiCircuit) (bus_dict : BusDict)
    (bus_types : list BusMode) (time_series : bool) (ntime : nat)
    (data : HvdcData) (bus_types' : list BusMode) :
  get_hvdc_data circuit bus_dict bus_types time_series ntime = Some (data, bus_types') ->
  forall i elm, hvdc_lines circuit !! i = Some elm ->
  (exists f t, bus_index bus_dict (hvdc_bus_from elm) = Some f /\
     bus_index bus_dict (hvdc_bus_to elm) = Some t /\
     (f < length (buses circuit))%nat /\ (t < length (buses circuit))%nat) /\
  (forall c, (c < length (buses circuit))%nat ->
     at2 (C_hvdc_bus_f data) i c =
       Some (if decide (bus_index bus_dict (hvdc_bus_from elm) = Some c) then 1 else 0) /\
     at2 (C_hvdc_bus_t data) i c =
       Some (if decide (bus_index bus_dict (hvdc_bus_to elm) = Some c) then 1 else 0)).
Proof.
  intros H i elm Hi. unfold get_hvdc_data in H.
  destruct (foldi_device_bus_incidence1 _ (fun st => C_hvdc_bus_f st.1)
              (fun elm => bus_index bus_dict (hvdc_bus_from elm)) (length (buses circuit))
              (fun j x s s' Hs => hvdc_step_Cf _ _ _ _ _ _ Hs) _ _ _ H eq_refl)
    as [Ef Af].
  destruct (foldi_device_bus_incidence1 _ (fun st => C_hvdc_bus_t st.1)
              (fun elm => bus_index bus_dict (hvdc_bus_to elm)) (length (buses circuit))
              (fun j x s s' Hs => hvdc_step_Ct _ _ _ _ _ _ Hs) _ _ _ H eq_refl)
    as [Et At].
  split.
  - destruct (Ef i elm Hi) as (f & Hf & Hfl). destruct (Et i elm Hi) as (t & Ht & Htl).
    exists f, t. done.
  - intros c Hc. split; [exact (Af i elm c Hi Hc) | exact (At i elm c Hi Hc)].
Qed.

Lemma get_hvdc_data_incidence_witness :
  exists data bt', get_hvdc_data hvdc_circuit ex_bus_dict [PQ; REF; PQ; NONE] false 1 =
                     Some (data, bt') /\
    at2 (C_hvdc_bus_f data) 1 2 = Some 1 /\ at2 (C_hvdc_bus_t data) 1 2 = Some 0.
Proof.
  eexists _, _. split; [vm_compute; reflexivity|].
  destruct (get_hvdc_data_incidence hvdc_circuit ex_bus_dict [PQ; REF; PQ; NONE] false 1 _ _
              ltac:(vm_compute; reflexivity) 1%nat _ eq_refl) as [_ H].
  destruct (H 2%nat ltac:(simpl; lia)) as [H1 H2]. rewrite H1, H2.
  split; vm_compute; reflexivity.
Defined.

(** Discharge the step premise of [foldi_writes] for one array written
    by [transformer_step] or [vsc_step]. *)
Ltac step_write :=
  let j := fresh "j" in let x := fresh "x" in let s := fresh "s" in
  let s' := fresh "s'" in let Hs := fresh "Hs" in
  let br := fresh "br" in let ctl := fresh "ctl" in
  intros j x s s' Hs; destruct x as [br ctl]; first [unfold transformer_step in Hs | unfold vsc_step in Hs]; inv_binds;
  eexists; split_and!; [| simpl; eassumption | reflexivity];
  cbv beta; cbn [fst snd]; try reflexivity.


(** X7: when [get_transformer_data] succeeds, entry [i] of
    [tr_bus_to_regulated_idx] is the index of transformer [i]'s to-bus if
    its [bus_to_regulated] flag is set and of its from-bus otherwise, and
    entry [i] of the tap arrays holds transformer [i]'s own tap position,
    tap limits and virtual taps. *)
Theorem get_transformer_data_tap_control (transformers : list (Transformer2W * TransformerCtl))
    (nbus : nat) (bus_dict : BusDict) (data : TransformerData) :
  get_transformer_data transformers nbus bus_dict = Some data ->
  forall i elm, transformers !! i = Some elm ->
  let '(br, ctl) := elm in
  tr_bus_to_regulated_idx data !! i =
    bus_index bus_dict (if trc_bus_to_regulated ctl then tr_bus_to br else tr_bus_from br) /\
  tr_is_bus_to_regulated data !! i = Some (trc_bus_to_regulated ctl) /\
  tr_tap_position data !! i = Some (tc_tap (trc_tap_changer ctl)) /\
  tr_min_tap data !! i = Some (tc_min_tap (trc_tap_changer ctl)) /\
  tr_max_tap data !! i = Some (tc_max_tap (trc_tap_changer ctl)) /\
  tr_tap_f data !! i = Some (trc_virtual_taps ctl).1 /\
  tr_tap_t data !! i = Some (trc_virtual_taps ctl).2.
Proof.
  intros H i [br ctl] Hi. unfold get_transformer_data in H.
  destruct (foldi_writes (transformer_step bus_dict) tr_bus_to_regulated_idx
              (fun x v => bus_index bus_dict
                 (if trc_bus_to_regulated x.2 then tr_bus_to x.1 else tr_bus_from x.1) = Some v) 0
              ltac:(step_write;
                    destruct (trc_bus_to_regulated _); assumption)
              _ _ _ _ H) as (_ & W1 & _).
  destruct (foldi_writes (transformer_step bus_dict) tr_is_bus_to_regulated (fun x v => v = trc_bus_to_regulated x.2) 0
              ltac:(step_write) _ _ _ _ H) as (_ & W2 & _).
  destruct (foldi_writes (transformer_step bus_dict) tr_tap_position (fun x v => v = tc_tap (trc_tap_changer x.2)) 0
              ltac:(step_write) _ _ _ _ H) as (_ & W3 & _).
  destruct (foldi_writes (transformer_step bus_dict) tr_min_tap (fun x v => v = tc_min_tap (trc_tap_changer x.2)) 0
              ltac:(step_write) _ _ _ _ H) as (_ & W4 & _).
  destruct (foldi_writes (transformer_step bus_dict) tr_max_tap (fun x v => v = tc_max_tap (trc_tap_changer x.2)) 0
              ltac:(step_write) _ _ _ _ H) as (_ & W5 & _).
  destruct (foldi_writes (transformer_step bus_dict) tr_tap_f (fun x v => v = (trc_virtual_taps x.2).1) 0
              ltac:(step_write) _ _ _ _ H) as (_ & W6 & _).
  destruct (foldi_writes (transformer_step bus_dict) tr_tap_t (fun x v => v = (trc_virtual_taps x.2).2) 0
              ltac:(step_write) _ _ _ _ H) as (_ & W7 & _).
  destruct (W1 _ _ Hi) as (v1 & E1 & L1). destruct (W2 _ _ Hi) as (v2 & E2 & L2).
  destruct (W3 _ _ Hi) as (v3 & E3 & L3). destruct (W4 _ _ Hi) as (v4 & E4 & L4).
  destruct (W5 _ _ Hi) as (v5 & E5 & L5). destruct (W6 _ _ Hi) as (v6 & E6 & L6).
  destruct (W7 _ _ Hi) as (v7 & E7 & L7). simpl in *. subst.
  split_and!; congruence.
Qed.

Lemma get_transformer_data_tap_control_witness :
  exists data, get_transformer_data ex_transformers 4 ex_bus_dict = Some data /\
    tr_bus_to_regulated_idx data !! 0%nat = Some 3%nat /\
    tr_min_tap data !! 0%nat = Some (-5)%Z /\ tr_max_tap data !! 0%nat = Some 5%Z.
Proof.
  eexists. split; [vm_compute; reflexivity|].
  pose proof (get_transformer_data_tap_control ex_transformers 4 ex_bus_dict _
                ltac:(vm_compute; reflexivity) 0%nat _ eq_refl) as H.
  cbn beta iota in H. destruct H as (H1 & _ & _ & H4 & H5 & _).
  split_and!; [rewrite H1; vm_compute; reflexivity | exact H4 | exact H5].
Defined.

(** [foldi_writes] for a body whose write depends on the loop index and
    needs an invariant of the state. *)
Lemma foldi_writes_inv {A St V} (f : nat -> A -> St -> option St) (proj : St -> list V)
    (P : St -> Prop) (Rel : nat -> A -> V -> Prop) :
  (forall j x s s', f j x s = Some s' -> P s -> P s' /\
     exists v, Rel j x v /\ (j < length (proj s))%nat /\ proj s' = <[j := v]> (proj s)) ->
  forall xs i s s', foldi f i xs s = Some s' -> P s ->
  length (proj s') = length (proj s) /\
  (forall k x, xs !! k = Some x -> exists v, Rel (i + k)%nat x v /\ proj s' !! (i + k)%nat = Some v) /\
  (forall p, (p < i \/ i + length xs <= p)%nat -> proj s' !! p = proj s !! p).
Proof.
  intros Hstep xs. induction xs as [|x xs IH]; intros i s s' Hf HP; simpl in Hf.
  - injection Hf as <-. split; [done|]. split; [|done]. intros k x Hk. done.
  - apply bind_Some in Hf as (s1 & Hs1 & Hrest).
    destruct (Hstep _ _ _ _ Hs1 HP) as (HP1 & v & Hv & Hlt & Heq).
    destruct (IH _ _ _ Hrest HP1) as (Hlen & Hat & Hfr).
    split; [|split].
    + by rewrite Hlen, Heq, length_insert.
    + intros [|k] y Hk; simpl in Hk.
      * injection Hk as <-. exists v. rewrite Nat.add_0_r. split; [done|].
        rewrite Hfr by lia. rewrite Heq. by apply list_lookup_insert_eq.
      * destruct (Hat _ _ Hk) as (w & Hw & Hlk). exists w.
        by replace (i + S k)%nat with (S i + k)%nat by lia.
    + intros p Hp. simpl in Hp. rewrite Hfr by lia. rewrite Heq.
      apply list_lookup_insert_ne. lia.
Qed.

Lemma isub_row_length (row : list Cplx) (vals : list Q) (row' : list Cplx) :
  isub_row row vals = Some row' -> length row' = length row.
Proof.
  unfold isub_row. case_decide as Hl.
  - intros [= <-]. rewrite length_zip_with. lia.
  - destruct vals as [|v [|w ws]]; try done. intros [= <-]. by rewrite length_map.
Qed.

Lemma set_row_lookup {A} (a a' : list (list A)) (k : nat) (r : list A) :
  set_row a k r = Some a' -> exists old, a !! k = Some old /\
    (length r = length old /\ a' = <[k:=r]> a \/
     length r <> length old /\ exists v, r = [v] /\ a' = <[k:=replicate (length old) v]> a).
Proof.
  unfold set_row. intros H. apply bind_Some in H as (old & Hold & H). exists old. split; [done|].
  case_decide as Hl.
  - apply set_at_Some in H as [_ ->]. by left.
  - right. split; [done|]. destruct r as [|v [|w ws]]; try done.
    apply set_at_Some in H as [_ ->]. eauto.
Qed.

Lemma set_row_one {A} (a a' : list (list A)) (k n : nat) (c : A) :
  (forall r row, a !! r = Some row -> length row = n) ->
  set_row a k [c] = Some a' -> (k < length a)%nat /\ a' = <[k:=replicate n c]> a.
Proof.
  intros HP H. destruct (set_row_lookup _ _ _ _ H) as (old & Hold & [[Hl ->]|(_ & v & [= <-] & ->)]);
    rewrite (HP _ _ Hold) in *; split; try (by eapply lookup_lt_Some).
  - simpl in Hl. by subst n.
  - done.
Qed.

Lemma load_step_snapshot_s (bd : BusDict) (res : option OpfResults) (opf : bool) (ntime k : nat)
    (elm : Load) (d d' : LoadData) :
  load_step bd res false opf k elm d = Some d' ->
  (forall r row, load_s d !! r = Some row -> length row = ntime) ->
  (forall r row, load_s d' !! r = Some row -> length row = ntime) /\
  exists v, match res with
            | None => v = replicate ntime (cplx_of (ld_P elm) (ld_Q elm))
            | Some r => exists vals, nd_at (load_shedding r) k = Some vals /\
                          isub_row (replicate ntime (cplx_of (ld_P elm) (ld_Q elm))) vals = Some v
            end /\ (k < length (load_s d))%nat /\ load_s d' = <[k:=v]> (load_s d).
Proof.
  intros H HP. unfold load_step in H. peel H. injection H as <-. simpl.
  match goal with Hs : set_row (load_s d) _ _ ≫= _ = _ |- _ => rename Hs into Hrow end.
  apply bind_Some in Hrow as (s1 & Hs1 & Hrow).
  apply bind_Some in Hrow as (cost & _ & Hrow).
  apply bind_Some in Hrow as (s2 & Hs2 & Hrow). injection Hrow as <- <-.
  destruct (set_row_one _ _ _ _ _ HP Hs1) as [Hk ->].
  assert (HP1 : forall r row, <[k:=replicate ntime (cplx_of (ld_P elm) (ld_Q elm))]> (load_s d) !! r = Some row ->
                  length row = ntime).
  { intros r row Hr. destruct (decide (r = k)) as [->|Hne].
    - rewrite list_lookup_insert_eq in Hr by done. injection Hr as <-. apply length_replicate.
    - rewrite list_lookup_insert_ne in Hr by done. eauto. }
  destruct res as [r|].
  - apply bind_Some in Hs2 as (sh & Hsh & Hs2).
    apply bind_Some in Hs2 as (row & Hrow & Hs2).
    apply bind_Some in Hs2 as (row' & Hrow' & Hs2).
    apply set_at_Some in Hs2 as [_ ->].
    rewrite list_lookup_insert_eq in Hrow by done. injection Hrow as <-.
    split.
    + intros r' row Hr'. destruct (decide (r' = k)) as [->|Hne].
      * rewrite list_lookup_insert_eq in Hr' by (by rewrite length_insert).
        injection Hr' as <-. rewrite (isub_row_length _ _ _ Hrow'). apply length_replicate.
      * rewrite list_lookup_insert_ne in Hr' by done. eauto.
    + eexists. split; [eauto|]. split; [done|]. by rewrite list_insert_insert_eq.
  - injection Hs2 as <-. split; [done|]. eexists. split; [reflexivity|]. done.
Qed.

Lemma load_step_names (bd : BusDict) (res : option OpfResults) (ts opf : bool) (k : nat)
    (elm : Load) (d d' : LoadData) :
  load_step bd res ts opf k elm d = Some d' ->
  (k < length (load_names d))%nat /\ load_names d' = <[k:=ld_name elm]> (load_names d) /\
  (k < length (load_active d))%nat /\ load_active d' = <[k:=ld_active elm]> (load_active d).
Proof.
  unfold load_step. intros H. peel H. injection H as <-. simpl.
  repeat match goal with Hs : set_at _ _ _ = Some _ |- _ => apply set_at_Some in Hs as [? ->] end.
  done.
Qed.

Lemma load_rows_initial (nload nbus ntime : nat) :
  forall r row, load_s (new_LoadData nload nbus ntime) !! r = Some row -> length row = ntime.
Proof.
  intros r row Hr. simpl in Hr. apply lookup_replicate in Hr as [-> _]. apply length_replicate.
Qed.

(** X8: in snapshot mode without previous-stage results, when
    [get_load_data] succeeds, row [k] of [load_s] is load [k]'s complex
    power [P + jQ] repeated over the [ntime] columns, and entry [k] of
    [load_names] and [load_active] is load [k]'s name and active flag. *)
Theorem get_load_data_snapshot (loads : list Load) (nbus : nat) (bus_dict : BusDict)
    (opf : bool) (ntime : nat) (data : LoadData) :
  get_load_data loads nbus bus_dict None false opf ntime = Some data ->
  forall k elm, loads !! k = Some elm ->
  load_s data !! k = Some (replicate ntime (cplx_of (ld_P elm) (ld_Q elm))) /\
  load_names data !! k = Some (ld_name elm) /\ load_active data !! k = Some (ld_active elm).
Proof.
  intros H k elm Hk. unfold get_load_data in H.
  destruct (foldi_writes_inv (load_step bus_dict None false opf) load_s (fun d => forall r row, load_s d !! r = Some row -> length row = ntime)
              (fun j x v => v = replicate ntime (cplx_of (ld_P x) (ld_Q x)))
              (fun j x s s' Hs HP => load_step_snapshot_s _ _ _ _ _ _ _ _ Hs HP)
              _ _ _ _ H (load_rows_initial _ _ _)) as (_ & W1 & _).
  destruct (foldi_writes (load_step bus_dict None false opf) load_names (fun x v => v = ld_name x) 0
              ltac:(intros j x s s' Hs; destruct (load_step_names _ _ _ _ _ _ _ _ Hs) as (L1 & E1 & _);
                    exists (ld_name x); done)
              _ _ _ _ H) as (_ & W2 & _).
  destruct (foldi_writes (load_step bus_dict None false opf) load_active (fun x v => v = ld_active x) 0
              ltac:(intros j x s s' Hs; destruct (load_step_names _ _ _ _ _ _ _ _ Hs) as (_ & _ & L2 & E2);
                    exists (ld_active x); done)
              _ _ _ _ H) as (_ & W3 & _).
  destruct (W1 _ _ Hk) as (v1 & -> & L1). destruct (W2 _ _ Hk) as (v2 & -> & L2).
  destruct (W3 _ _ Hk) as (v3 & -> & L3). done.
Qed.

Lemma isub_row_replicate_one (n : nat) (c : Cplx) (v : Q) :
  isub_row (replicate n c) [v] = Some (replicate n (Csub c (mkC v 0))).
Proof.
  unfold isub_row. rewrite length_replicate. case_decide as Hn.
  - simpl in Hn. subst n. reflexivity.
  - f_equal. clear Hn. induction n as [|n IH]; simpl; congruence.
Qed.

(** X9: in snapshot mode with one-dimensional load-shedding results
    [sh], when [get_load_data] succeeds, [sh] has an entry [v] for every
    load [k], and row [k] of [load_s] is [P + jQ - v] repeated over the
    [ntime] columns: the previous stage's shedding is netted from the
    demand. *)
Theorem get_load_data_snapshot_shedding (loads : list Load) (nbus : nat) (bus_dict : BusDict)
    (sh : list Q) (opf : bool) (ntime : nat) (data : LoadData) :
  get_load_data loads nbus bus_dict (Some {| load_shedding := Arr1 sh |}) false opf ntime =
    Some data ->
  forall k elm, loads !! k = Some elm ->
  exists v, sh !! k = Some v /\
    load_s data !! k = Some (replicate ntime (Csub (cplx_of (ld_P elm) (ld_Q elm)) (mkC v 0))).
Proof.
  intros H k elm Hk. unfold get_load_data in H.
  destruct (foldi_writes_inv (load_step bus_dict (Some {| load_shedding := Arr1 sh |}) false opf)
              load_s (fun d => forall r row, load_s d !! r = Some row -> length row = ntime)
              (fun j x v => exists vals, nd_at (Arr1 sh) j = Some vals /\
                 isub_row (replicate ntime (cplx_of (ld_P x) (ld_Q x))) vals = Some v)
              (fun j x s s' Hs HP => load_step_snapshot_s _ _ _ _ _ _ _ _ Hs HP)
              _ _ _ _ H (load_rows_initial _ _ _)) as (_ & W & _).
  destruct (W _ _ Hk) as (row & (vals & Hvals & Hsub) & Hrow).
  simpl in Hvals. destruct (sh !! k) as [v|] eqn:Hv; [|done]. simpl in Hvals.
  injection Hvals as <-. rewrite isub_row_replicate_one in Hsub. injection Hsub as <-.
  eauto.
Qed.

Lemma get_load_data_snapshot_witness :
  exists data, get_load_data ex_loads 4 ex_bus_dict None false false 2 = Some data /\
    load_s data !! 1%nat = Some [cplx_of 10 5; cplx_of 10 5] /\
    load_names data !! 1%nat = Some "LD2"%string.
Proof.
  eexists. split; [vm_compute; reflexivity|].
  destruct (get_load_data_snapshot ex_loads 4 ex_bus_dict false 2 _
              ltac:(vm_compute; reflexivity) 1%nat _ eq_refl) as (H1 & H2 & _).
  split; [exact H1 | exact H2].
Defined.

Lemma get_load_data_snapshot_shedding_witness :
  exists data, get_load_data ex_loads 4 ex_bus_dict (Some {| load_shedding := Arr1 [1; 0] |})
                 false false 2 = Some data /\
    load_s data !! 0%nat = Some [Csub (cplx_of 10 5) (mkC 1 0); Csub (cplx_of 10 5) (mkC 1 0)].
Proof.
  eexists. split; [vm_compute; reflexivity|].
  destruct (get_load_data_snapshot_shedding ex_loads 4 ex_bus_dict [1; 0] false 2 _
              ltac:(vm_compute; reflexivity) 0%nat _ eq_refl) as (v & Hv & Hs).
  injection Hv as <-. exact Hs.
Defined.

Lemma load_step_ts_s (bd : BusDict) (res : option OpfResults) (opf : bool) (ntime k : nat)
    (elm : Load) (d d' : LoadData) :
  load_step bd res true opf k elm d = Some d' ->
  (forall r row, load_s d !! r = Some row -> length row = ntime) ->
  (forall r row, load_s d' !! r = Some row -> length row = ntime) /\
  exists v, (length (ld_P_prof elm) = ntime -> length (ld_Q_prof elm) = ntime ->
             let prof := zip_with cplx_of (ld_P_prof elm) (ld_Q_prof elm) in
             match res with
             | None => v = prof
             | Some r => exists sh, nd_col (load_shedding r) k = Some sh /\ isub_row prof sh = Some v
             end) /\ (k < length (load_s d))%nat /\ load_s d' = <[k:=v]> (load_s d).
Proof.
  intros H HP. unfold load_step in H. peel H. injection H as <-. simpl.
  match goal with Hs : bcast_with _ _ _ ≫= _ = _ |- _ => rename Hs into Hrow end.
  apply bind_Some in Hrow as (vv & Hvv & Hrow).
  apply bind_Some in Hrow as (s1 & Hs1 & Hrow).
  apply bind_Some in Hrow as (cost & _ & Hrow).
  apply bind_Some in Hrow as (s2 & Hs2 & Hrow). injection Hrow as <- <-.
  destruct (set_row_lookup _ _ _ _ Hs1) as (old & Hold & Hcase).
  pose proof (HP _ _ Hold) as Hlold.
  assert (Hk : (k < length (load_s d))%nat) by (by eapply lookup_lt_Some).
  set (nrow := if decide (length vv = length old) then vv else replicate (length old) (hd C0 vv)).
  assert (Hs1' : s1 = <[k:=nrow]> (load_s d) /\ length nrow = ntime).
  { subst nrow. destruct Hcase as [[Hl ->]|(Hl & c & -> & ->)].
    - rewrite decide_True by done. split; [done|]. lia.
    - rewrite decide_False by done. split; [done|]. by rewrite length_replicate. }
  destruct Hs1' as [-> Hnl]. clear Hcase.
  assert (HP1 : forall r row, <[k:=nrow]> (load_s d) !! r = Some row -> length row = ntime).
  { intros r row Hr. destruct (decide (r = k)) as [->|Hne].
    - rewrite list_lookup_insert_eq in Hr by done. by injection Hr as <-.
    - rewrite list_lookup_insert_ne in Hr by done. eauto. }
  assert (Hprof : length (ld_P_prof elm) = ntime -> length (ld_Q_prof elm) = ntime ->
                  nrow = zip_with cplx_of (ld_P_prof elm) (ld_Q_prof elm)).
  { intros HlP HlQ. unfold bcast_with in Hvv. rewrite decide_True in Hvv by lia.
    injection Hvv as <-. subst nrow. rewrite decide_True; [done|].
    rewrite length_zip_with. lia. }
  destruct res as [r|].
  - apply bind_Some in Hs2 as (sh & Hsh & Hs2).
    apply bind_Some in Hs2 as (row & Hrow & Hs2).
    apply bind_Some in Hs2 as (row' & Hrow' & Hs2).
    apply set_at_Some in Hs2 as [_ ->].
    rewrite list_lookup_insert_eq in Hrow by done. injection Hrow as <-.
    split.
    + intros r' row Hr'. destruct (decide (r' = k)) as [->|Hne].
      * rewrite list_lookup_insert_eq in Hr' by (by rewrite length_insert).
        injection Hr' as <-. by rewrite (isub_row_length _ _ _ Hrow').
      * rewrite list_lookup_insert_ne in Hr' by done. eauto.
    + exists row'. split; [|split; [done|by rewrite list_insert_insert_eq]].
      intros HlP HlQ. simpl. rewrite <- Hprof by done. eauto.
  - injection Hs2 as <-. split; [done|]. exists nrow. split; [|done].
    intros HlP HlQ. simpl. by apply Hprof.
Qed.

Lemma mapM_length' {A B} (f : A -> option B) (l : list A) (k : list B) :
  mapM f l = Some k -> length k = length l.
Proof. intros H. apply mapM_Some_1 in H. symmetry. by eapply Forall2_length. Qed.

(** X10: in time-series mode with two-dimensional (time x load)
    load-shedding results [rows], when [get_load_data] succeeds, for every
    load [k] whose power profiles and the results have [ntime] entries,
    column [k] of [rows] exists and row [k] of [load_s] is
    [P_prof + j Q_prof - rows[:, k]], time step by time step. *)
Theorem get_load_data_time_series_shedding (loads : list Load) (nbus : nat) (bus_dict : BusDict)
    (rows : list (list Q)) (opf : bool) (ntime : nat) (data : LoadData) :
  get_load_data loads nbus bus_dict (Some {| load_shedding := Arr2 rows |}) true opf ntime =
    Some data ->
  forall k elm, loads !! k = Some elm ->
  length (ld_P_prof elm) = ntime -> length (ld_Q_prof elm) = ntime -> length rows = ntime ->
  exists col, mapM (fun row => row !! k) rows = Some col /\
    load_s data !! k = Some (zip_with (fun c v => Csub c (mkC v 0))
                               (zip_with cplx_of (ld_P_prof elm) (ld_Q_prof elm)) col).
Proof.
  intros H k elm Hk HlP HlQ Hlr. unfold get_load_data in H.
  destruct (foldi_writes_inv (load_step bus_dict (Some {| load_shedding := Arr2 rows |}) true opf)
              load_s (fun d => forall r row, load_s d !! r = Some row -> length row = ntime)
              (fun j x v => length (ld_P_prof x) = ntime -> length (ld_Q_prof x) = ntime ->
                 exists sh, nd_col (Arr2 rows) j = Some sh /\
                   isub_row (zip_with cplx_of (ld_P_prof x) (ld_Q_prof x)) sh = Some v)
              (fun j x s s' Hs HP => load_step_ts_s _ _ _ _ _ _ _ _ Hs HP)
              _ _ _ _ H (load_rows_initial _ _ _)) as (_ & W & _).
  destruct (W _ _ Hk) as (row & Hrel & Hrow).
  destruct (Hrel HlP HlQ) as (col & Hcol & Hsub). simpl in Hcol.
  exists col. split; [done|]. simpl in Hrow. rewrite Hrow. f_equal.
  unfold isub_row in Hsub. rewrite decide_True in Hsub.
  - by injection Hsub as <-.
  - rewrite (mapM_length' _ _ _ Hcol), length_zip_with. lia.
Qed.

Lemma get_load_data_time_series_shedding_witness :
  exists data, get_load_data ex_loads 4 ex_bus_dict (Some {| load_shedding := Arr2 [[1; 0]; [2; 0]] |})
                 true false 2 = Some data /\
    load_s data !! 0%nat = Some [Csub (cplx_of 10 5) (mkC 1 0); Csub (cplx_of 12 6) (mkC 2 0)].
Proof.
  eexists. split; [vm_compute; reflexivity|].
  destruct (get_load_data_time_series_shedding ex_loads 4 ex_bus_dict [[1; 0]; [2; 0]] false 2 _
              ltac:(vm_compute; reflexivity) 0%nat _ eq_refl eq_refl eq_refl eq_refl)
    as (col & Hcol & Hs).
  vm_compute in Hcol. injection Hcol as <-. exact Hs.
Defined.

(** ** OpfSimple result accessors after [solve] *)

Lemma Qeq_bool_false (a : Q) : ~ a == 0 -> Qeq_bool a 0 = false.
Proof. intros H. destruct (Qeq_bool a 0) eqn:E; [|done]. apply Qeq_bool_iff in E. contradiction. Qed.

Lemma Qeq_bool_true (a : Q) : a == 0 -> Qeq_bool a 0 = true.
Proof. intros H. by apply Qeq_bool_iff. Qed.

(** [0.0 / (r / Sbase)]: NaN for a zero rating, zero otherwise, whatever
    [Sbase] is. *)
Lemma loading_entry (r Sb : Q) :
  (r == 0 -> fdiv (Fin 0) (fdiv (Fin r) (Fin Sb)) = NaN) /\
  (~ r == 0 -> exists q, fdiv (Fin 0) (fdiv (Fin r) (Fin Sb)) = Fin q /\ q == 0).
Proof.
  split; intros Hr.
  - destruct (Qeq_bool Sb 0) eqn:ES.
    + unfold fdiv at 2. rewrite ES, (Qeq_bool_true r Hr). reflexivity.
    + assert (HSb : ~ Sb == 0) by (intros E; apply Qeq_bool_iff in E; congruence).
      rewrite fdiv_fin by done. unfold fdiv.
      rewrite (Qeq_bool_true (r / Sb)); [reflexivity|].
      rewrite Hr. unfold Qdiv. apply Qmult_0_l.
  - destruct (Qeq_bool Sb 0) eqn:ES.
    + unfold fdiv at 2. rewrite ES, (Qeq_bool_false r Hr).
      destruct (Qpos_bool r); (eexists; split; [reflexivity|reflexivity]).
    + assert (HSb : ~ Sb == 0) by (intros E; apply Qeq_bool_iff in E; congruence).
      rewrite fdiv_fin by done. rewrite fdiv_fin.
      * eexists; split; [reflexivity|]. unfold Qdiv. apply Qmult_0_l.
      * intros E. apply Hr. rewrite <- (Qmult_0_l Sb), <- E. field. done.
Qed.

(** X11: after a successful [solve] on a circuit with one rating per
    branch, [get_loading] returns one entry per branch: NaN for a branch
    whose rating is zero (the 0/0 of [s_from / rating]) and zero for every
    other branch, whatever [Sbase] is. *)
Theorem get_loading_after_solve (nc : NumericalCircuit) (st : OpfSimpleState) (b : bool) :
  solve nc = Some (st, b) -> length (nc_br_rates nc) = nc_nbr nc ->
  exists l, get_loading st = Some l /\ length l = nc_nbr nc /\
  forall k r, nc_br_rates nc !! k = Some r ->
    (r == 0 -> l !! k = Some NaN) /\ (~ r == 0 -> exists q, l !! k = Some (Fin q) /\ q == 0).
Proof.
  intros H Hlen. unfold solve in H.
  apply bind_Some in H as (Pavail & _ & H). apply bind_Some in H as (Pl0 & _ & H).
  injection H as <- _. unfold get_loading. cbn [opf_s_from opf_rating].
  rewrite broadcast2_same_length by (unfold fzeros; by rewrite length_replicate, length_map).
  eexists. split; [reflexivity|]. split.
  - rewrite length_zip_with. unfold fzeros. rewrite length_replicate, length_map. lia.
  - intros k r Hk. rewrite lookup_zip_with.
    pose proof (lookup_lt_Some _ _ _ Hk) as Hlt. unfold fzeros.
    rewrite lookup_replicate_2 by lia. rewrite list_lookup_fmap, Hk.
    cbn [mbind option_bind fmap option_fmap].
    cbn [fmap option_fmap option_map mbind option_bind].
    destruct (loading_entry r (nc_Sbase nc)) as [E1 E2]. split.
    + intros Hr. f_equal. exact (E1 Hr).
    + intros Hr. destruct (E2 Hr) as (q & Eq & Hq). exists q. split; [|done]. f_equal. exact Eq.
Qed.

Lemma load_power_entry (a : bool) (p Sb : Q) :
  (~ Sb == 0 -> exists q, fmul (fdiv (fmul (fbool a) (Fin p)) (Fin Sb)) (Fin Sb) = Fin q /\
                 q == (if a then p else 0)) /\
  (Sb == 0 -> fmul (fdiv (fmul (fbool a) (Fin p)) (Fin Sb)) (Fin Sb) = NaN).
Proof.
  split; intros HSb.
  - unfold fbool. simpl fmul at 2. rewrite fdiv_fin by done.
    eexists. split; [reflexivity|]. destruct a; field; done.
  - unfold fbool. simpl fmul at 2. unfold fdiv. rewrite (Qeq_bool_true Sb HSb).
    destruct (Qeq_bool _ 0); [reflexivity|].
    destruct (Qpos_bool _); simpl; unfold inf_scale; by rewrite (Qeq_bool_true Sb HSb).
Qed.

(** X12: after a successful [solve] on a circuit with one active flag per
    load, [get_load_power] gives back, for every load, its real power
    [P] when it is active and 0 when not (the per-unit value [Pl] times
    [Sbase]) if [Sbase] is nonzero, and NaN for every load if [Sbase] is
    zero. *)
Theorem get_load_power_after_solve (nc : NumericalCircuit) (st : OpfSimpleState) (b : bool) :
  solve nc = Some (st, b) -> length (nc_load_active nc) = length (nc_load_power nc) ->
  length (get_load_power nc st) = length (nc_load_power nc) /\
  forall (k : nat) (a : bool) (p : Cplx), nc_load_active nc !! k = Some a -> nc_load_power nc !! k = Some p ->
    (~ nc_Sbase nc == 0 -> exists q, get_load_power nc st !! k = Some (Fin q) /\
                                     q == (if a then re p else 0)) /\
    (nc_Sbase nc == 0 -> get_load_power nc st !! k = Some NaN).
Proof.
  intros H Hlen. unfold solve in H.
  apply bind_Some in H as (Pavail & _ & H). apply bind_Some in H as (Pl0 & HPl0 & H).
  injection H as <- _. unfold get_load_power. cbn [opf_Pl].
  rewrite broadcast2_same_length in HPl0 by (by rewrite !length_map).
  injection HPl0 as <-. split.
  - rewrite !length_map, length_zip_with, !length_map. lia.
  - intros k a p Ha Hp.
    rewrite !list_lookup_fmap, lookup_zip_with, !list_lookup_fmap, Ha, Hp.
    cbn [mbind option_bind fmap option_fmap].
    cbn [fmap option_fmap option_map mbind option_bind].
    destruct (load_power_entry a (re p) (nc_Sbase nc)) as [E1 E2]. split.
    + intros HSb. destruct (E1 HSb) as (q & Eq & Hq). exists q. split; [|done]. f_equal. exact Eq.
    + intros HSb. f_equal. exact (E2 HSb).
Qed.

Lemma get_loading_after_solve_witness :
  exists st b, solve accessor_nc = Some (st, b) /\
    exists l, get_loading st = Some l /\ l !! 1%nat = Some NaN /\
      exists q, l !! 0%nat = Some (Fin q) /\ q == 0.
Proof.
  eexists _, _. split; [vm_compute; reflexivity|].
  destruct (get_loading_after_solve accessor_nc _ _ ltac:(vm_compute; reflexivity) eq_refl)
    as (l & Hl & _ & H).
  exists l. split; [exact Hl|]. split.
  - apply (proj1 (H 1%nat 0 eq_refl)). reflexivity.
  - apply (proj2 (H 0%nat 100 eq_refl)). discriminate.
Defined.

Lemma get_load_power_after_solve_witness :
  exists st b, solve accessor_nc = Some (st, b) /\
    (exists q, get_load_power accessor_nc st !! 0%nat = Some (Fin q) /\ q == 30) /\
    (exists q, get_load_power accessor_nc st !! 1%nat = Some (Fin q) /\ q == 0).
Proof.
  eexists _, _. split; [vm_compute; reflexivity|].
  destruct (get_load_power_after_solve accessor_nc _ _ ltac:(vm_compute; reflexivity) eq_refl)
    as (_ & H).
  split.
  - apply (proj1 (H 0%nat true (mkC 30 5) eq_refl eq_refl)). discriminate.
  - apply (proj1 (H 1%nat false (mkC 20 1) eq_refl eq_refl)). discriminate.
Defined.

(** ** get_branch_data: when it raises *)


















(** ** calc_power_csr_numba: serial and parallel paths *)



(** ** get_dc_line_data against get_branch_data *)

Lemma dc_line_step_writes (bd : BusDict) (temp : bool) (mode : BranchImpedanceMode)
    (j : nat) (x : DcLine) (s s' : DcLinesData) :
  dc_line_step bd temp mode j x s = Some s' ->
  exists f t, bus_index bd (dc_bus_from x) = Some f /\ bus_index bd (dc_bus_to x) = Some t /\
  (j < length (dc_line_names s))%nat /\ dc_line_names s' = <[j:=dc_name x]> (dc_line_names s) /\
  (j < length (dc_F s))%nat /\ dc_F s' = <[j:=f]> (dc_F s) /\
  (j < length (dc_T s))%nat /\ dc_T s' = <[j:=t]> (dc_T s).
Proof. unfold dc_line_step. intros H. inv_binds. simpl. do 2 eexists. split_and!; eauto. Qed.

(** X15: when both succeed on the same circuit and bus map,
    [get_dc_line_data] and [get_branch_data] agree on every DC line: its
    name and its from- and to-bus indices in the DC-line container equal
    those stored at position [nline + ntr + nvsc + i] of the unified
    branch container, whatever the temperature and tolerance settings of
    each call. *)
Theorem get_dc_line_data_matches_branch_data (circuit : MultiCircuit) (bus_dict : BusDict)
    (temp temp' : bool) (mode mode' : BranchImpedanceMode) (bdata : BranchData)
    (dcdata : DcLinesData) :
  get_branch_data circuit bus_dict temp mode = Some bdata ->
  get_dc_line_data circuit bus_dict temp' mode' = Some dcdata ->
  let off := (length (lines circuit) + length (transformers2w circuit) +
              length (vsc_converters circuit))%nat in
  forall i elm, dc_lines circuit !! i = Some elm ->
  branch_names bdata !! (off + i)%nat = Some (dc_name elm) /\
  dc_line_names dcdata !! i = Some (dc_name elm) /\
  F bdata !! (off + i)%nat = dc_F dcdata !! i /\ is_Some (dc_F dcdata !! i) /\
  T bdata !! (off + i)%nat = dc_T dcdata !! i /\ is_Some (dc_T dcdata !! i).
Proof.
  intros Hb Hd off i elm Hi. unfold get_branch_data in Hb.
  apply bind_Some in Hb as (d1 & _ & Hb). apply bind_Some in Hb as (d2 & _ & Hb).
  apply bind_Some in Hb as (d3 & _ & Hb).
  destruct (foldi_writes (branch_dc_step bus_dict temp mode _ _ _) branch_names (fun x v => v = dc_name x) off
              ltac:(intros; eapply gw_names, branch_dc_step_spec; eauto) _ _ _ _ Hb)
    as (_ & N1 & _).
  destruct (foldi_writes (branch_dc_step bus_dict temp mode _ _ _) F (fun x v => bus_index bus_dict (dc_bus_from x) = Some v) off
              ltac:(intros; eapply gw_F, branch_dc_step_spec; eauto) _ _ _ _ Hb)
    as (_ & F1 & _).
  destruct (foldi_writes (branch_dc_step bus_dict temp mode _ _ _) T (fun x v => bus_index bus_dict (dc_bus_to x) = Some v) off
              ltac:(intros; eapply gw_T, branch_dc_step_spec; eauto) _ _ _ _ Hb)
    as (_ & T1 & _).
  unfold get_dc_line_data in Hd.
  destruct (foldi_writes (dc_line_step bus_dict temp' mode') dc_line_names (fun x v => v = dc_name x) 0
              ltac:(intros j x s s' Hs; destruct (dc_line_step_writes _ _ _ _ _ _ _ Hs)
                      as (f & t & _ & _ & L & E & _); eauto) _ _ _ _ Hd) as (_ & N2 & _).
  destruct (foldi_writes (dc_line_step bus_dict temp' mode') dc_F (fun x v => bus_index bus_dict (dc_bus_from x) = Some v) 0
              ltac:(intros j x s s' Hs; destruct (dc_line_step_writes _ _ _ _ _ _ _ Hs)
                      as (f & t & Hf & _ & _ & _ & L & E & _); eauto) _ _ _ _ Hd) as (_ & F2 & _).
  destruct (foldi_writes (dc_line_step bus_dict temp' mode') dc_T (fun x v => bus_index bus_dict (dc_bus_to x) = Some v) 0
              ltac:(intros j x s s' Hs; destruct (dc_line_step_writes _ _ _ _ _ _ _ Hs)
                      as (f & t & _ & Ht & _ & _ & _ & _ & L & E); eauto) _ _ _ _ Hd) as (_ & T2 & _).
  rewrite Nat.add_0_r in N1, F1, T1.
  destruct (N1 _ _ Hi) as (n1 & -> & En1). destruct (N2 _ _ Hi) as (n2 & -> & En2).
  destruct (F1 _ _ Hi) as (f1 & Hf1 & Ef1). destruct (F2 _ _ Hi) as (f2 & Hf2 & Ef2).
  destruct (T1 _ _ Hi) as (t1 & Ht1 & Et1). destruct (T2 _ _ Hi) as (t2 & Ht2 & Et2).
  simpl in En2, Ef2, Et2.
  split_and!; try done; try congruence; eexists; eassumption.
Qed.

Lemma get_dc_line_data_matches_branch_data_witness :
  exists bdata dcdata,
  get_branch_data ex_circuit ex_bus_dict false Nominal = Some bdata /\
  get_dc_line_data ex_circuit ex_bus_dict true Upper = Some dcdata /\
  branch_names bdata !! 4%nat = Some "D1"%string /\ dc_line_names dcdata !! 0%nat = Some "D1"%string /\
  F bdata !! 4%nat = dc_F dcdata !! 0%nat /\ T bdata !! 4%nat = dc_T dcdata !! 0%nat.
Proof.
  do 2 eexists. split; [vm_compute; reflexivity|]. split; [vm_compute; reflexivity|].
  destruct (get_dc_line_data_matches_branch_data ex_circuit ex_bus_dict false true Nominal Upper _ _
              ltac:(vm_compute; reflexivity) ltac:(vm_compute; reflexivity) 0%nat _ eq_refl)
    as (N1 & N2 & F1 & _ & T1 & _).
  split_and!; [exact N1 | exact N2 | exact F1 | exact T1].
Defined.

(** ** Rows written by get_static_generator_data and get_shunt_data *)

Lemma set_row_inv {A} (a a' : list (list A)) (k n : nat) (r : list A) :
  rows_len a n -> set_row a k r = Some a' ->
  exists nrow, rows_len a' n /\ (k < length a)%nat /\ a' = <[k:=nrow]> a /\
    (length r = n -> nrow = r) /\ (forall c, r = [c] -> nrow = replicate n c).
Proof.
  intros HP H. destruct (set_row_lookup _ _ _ _ H) as (old & Hold & Hcase).
  pose proof (HP _ _ Hold) as Hl. assert (Hk : (k < length a)%nat) by (by eapply lookup_lt_Some).
  destruct Hcase as [[Hr ->]|(Hr & v & -> & ->)].
  - exists r. split_and!; try done.
    + intros r' row Hr'. destruct (decide (r' = k)) as [->|Hne].
      * rewrite list_lookup_insert_eq in Hr' by done. injection Hr' as <-. lia.
      * rewrite list_lookup_insert_ne in Hr' by done. eauto.
    + intros c ->. simpl in Hr. rewrite <- Hl, <- Hr. reflexivity.
  - rewrite Hl. exists (replicate n v). split_and!; try done.
    + intros r' row Hr'. destruct (decide (r' = k)) as [->|Hne].
      * rewrite list_lookup_insert_eq in Hr' by done. injection Hr' as <-. apply length_replicate.
      * rewrite list_lookup_insert_ne in Hr' by done. eauto.
    + intros Hn. simpl in *. lia.
    + by intros c [= ->].
Qed.

Lemma bcast_with_eq {A B C} (f : A -> B -> C) (a : list A) (b : list B) (v : list C) :
  length a = length b -> bcast_with f a b = Some v -> v = zip_with f a b.
Proof. unfold bcast_with. intros Hl. rewrite decide_True by done. by intros [= <-]. Qed.

Lemma bcast_with_length {A B C} (f : A -> B -> C) (a : list A) (b : list B) (n : nat) :
  length a = n -> length b = n -> length (zip_with f a b) = n.
Proof. intros. rewrite length_zip_with. lia. Qed.

Lemma static_generator_step_rows (bd : BusDict) (ts : bool) (ntime k : nat)
    (elm : StaticGenerator) (d d' : StaticGeneratorData) :
  static_generator_step bd ts k elm d = Some d' ->
  rows_len (static_generator_active d) ntime -> rows_len (static_generator_s d) ntime ->
  rows_len (static_generator_active d') ntime /\ rows_len (static_generator_s d') ntime /\
  static_generator_names d' = <[k:=sg_name elm]> (static_generator_names d) /\
  (k < length (static_generator_names d))%nat /\
  exists va vs,
    (k < length (static_generator_active d))%nat /\
    static_generator_active d' = <[k:=va]> (static_generator_active d) /\
    (k < length (static_generator_s d))%nat /\
    static_generator_s d' = <[k:=vs]> (static_generator_s d) /\
    rows_written ts ntime (sg_active elm) (sg_active_prof elm) (cplx_of (sg_P elm) (sg_Q elm))
      (sg_P_prof elm) (sg_Q_prof elm) cplx_of va vs.
Proof.
  intros H HA HS. unfold static_generator_step in H.
  apply bind_Some in H as (i & _ & H). apply bind_Some in H as (names & Hn & H).
  apply bind_Some in H as ([act s] & Hm & H). apply bind_Some in H as (C & _ & H).
  injection H as <-. simpl. apply set_at_Some in Hn as [Hkn ->].
  destruct ts.
  - apply bind_Some in Hm as (act1 & Ha & Hm). apply bind_Some in Hm as (vv & Hvv & Hm).
    apply bind_Some in Hm as (s1 & Hs & Hm). injection Hm as <- <-.
    destruct (set_row_inv _ _ _ _ _ HA Ha) as (va & HA' & Hka & -> & Hva & _).
    destruct (set_row_inv _ _ _ _ _ HS Hs) as (vs & HS' & Hks & -> & Hvs & _).
    split_and!; try done. exists va, vs. split_and!; try done.
    split; [done|]. intros _ La LP LQ. split; [by apply Hva|].
    apply bcast_with_eq in Hvv; [|lia]. subst vv. apply Hvs. by apply bcast_with_length.
  - apply bind_Some in Hm as (act1 & Ha & Hm).
    apply bind_Some in Hm as (s1 & Hs & Hm). injection Hm as <- <-.
    destruct (set_row_inv _ _ _ _ _ HA Ha) as (va & HA' & Hka & -> & _ & Hva).
    destruct (set_row_inv _ _ _ _ _ HS Hs) as (vs & HS' & Hks & -> & _ & Hvs).
    split_and!; try done. exists va, vs. split_and!; try done.
    split; [|done]. intros _. split; [by apply Hva|by apply Hvs].
Qed.

Lemma shunt_step_rows (bd : BusDict) (ts : bool) (ntime k : nat)
    (elm : Shunt) (d d' : ShuntData) :
  shunt_step bd ts k elm d = Some d' ->
  rows_len (shunt_active d) ntime -> rows_len (shunt_admittance d) ntime ->
  rows_len (shunt_active d') ntime /\ rows_len (shunt_admittance d') ntime /\
  shunt_names d' = <[k:=sh_name elm]> (shunt_names d) /\
  (k < length (shunt_names d))%nat /\
  exists va vs,
    (k < length (shunt_active d))%nat /\
    shunt_active d' = <[k:=va]> (shunt_active d) /\
    (k < length (shunt_admittance d))%nat /\
    shunt_admittance d' = <[k:=vs]> (shunt_admittance d) /\
    rows_written ts ntime (sh_active elm) (sh_active_prof elm) (cplx_of (sh_G elm) (sh_B elm))
      (sh_G_prof elm) (sh_B_prof elm) cplx_of va vs.
Proof.
  intros H HA HS. unfold shunt_step in H.
  apply bind_Some in H as (i & _ & H). apply bind_Some in H as (names & Hn & H).
  apply bind_Some in H as ([act s] & Hm & H). apply bind_Some in H as (C & _ & H).
  injection H as <-. simpl. apply set_at_Some in Hn as [Hkn ->].
  destruct ts.
  - apply bind_Some in Hm as (act1 & Ha & Hm). apply bind_Some in Hm as (vv & Hvv & Hm).
    apply bind_Some in Hm as (s1 & Hs & Hm). injection Hm as <- <-.
    destruct (set_row_inv _ _ _ _ _ HA Ha) as (va & HA' & Hka & -> & Hva & _).
    destruct (set_row_inv _ _ _ _ _ HS Hs) as (vs & HS' & Hks & -> & Hvs & _).
    split_and!; try done. exists va, vs. split_and!; try done.
    split; [done|]. intros _ La LP LQ. split; [by apply Hva|].
    apply bcast_with_eq in Hvv; [|lia]. subst vv. apply Hvs. by apply bcast_with_length.
  - apply bind_Some in Hm as (act1 & Ha & Hm).
    apply bind_Some in Hm as (s1 & Hs & Hm). injection Hm as <- <-.
    destruct (set_row_inv _ _ _ _ _ HA Ha) as (va & HA' & Hka & -> & _ & Hva).
    destruct (set_row_inv _ _ _ _ _ HS Hs) as (vs & HS' & Hks & -> & _ & Hvs).
    split_and!; try done. exists va, vs. split_and!; try done.
    split; [|done]. intros _. split; [by apply Hva|by apply Hvs].
Qed.

Lemma rows_len_replicate {A} (m n : nat) (x : A) : rows_len (replicate m (replicate n x)) n.
Proof. intros r row Hr. apply lookup_replicate in Hr as [-> _]. apply length_replicate. Qed.

(** X16: when [get_static_generator_data] succeeds, entry [k] of
    [static_generator_names] is generator [k]'s name; in snapshot mode
    rows [k] of [static_generator_active] and [static_generator_s] are its
    active flag and its power [P + jQ] repeated over the [ntime] columns;
    in time-series mode, when its profiles have [ntime] entries, they are
    its active profile and [P_prof + j Q_prof]. *)
Theorem get_static_generator_data_rows (devices : list StaticGenerator) (nbus : nat)
    (bus_dict : BusDict) (time_series : bool) (ntime : nat) (data : StaticGeneratorData) :
  get_static_generator_data devices nbus bus_dict time_series ntime = Some data ->
  forall k elm, devices !! k = Some elm ->
  static_generator_names data !! k = Some (sg_name elm) /\
  (time_series = false ->
     static_generator_active data !! k = Some (replicate ntime (sg_active elm)) /\
     static_generator_s data !! k = Some (replicate ntime (cplx_of (sg_P elm) (sg_Q elm)))) /\
  (time_series = true -> length (sg_active_prof elm) = ntime ->
     length (sg_P_prof elm) = ntime -> length (sg_Q_prof elm) = ntime ->
     static_generator_active data !! k = Some (sg_active_prof elm) /\
     static_generator_s data !! k = Some (zip_with cplx_of (sg_P_prof elm) (sg_Q_prof elm))).
Proof.
  intros H k elm Hk. unfold get_static_generator_data in H.
  set (P := fun d => rows_len (static_generator_active d) ntime /\
                     rows_len (static_generator_s d) ntime).
  set (W := fun x va vs => rows_written time_series ntime (sg_active x) (sg_active_prof x)
              (cplx_of (sg_P x) (sg_Q x)) (sg_P_prof x) (sg_Q_prof x) cplx_of va vs).
  assert (HP0 : P (new_StaticGeneratorData (length devices) nbus ntime))
    by (split; apply rows_len_replicate).
  destruct (foldi_writes_inv (static_generator_step bus_dict time_series) static_generator_active P
              (fun _ x va => exists vs, W x va vs)
              ltac:(intros j x s s' Hs [HA HS];
                    destruct (static_generator_step_rows _ _ _ _ _ _ _ Hs HA HS)
                      as (HA' & HS' & _ & _ & va & vs & ? & ? & _ & _ & Hw);
                    split; [split; done | exists va; eauto])
              _ _ _ _ H HP0) as (_ & WA & _).
  destruct (foldi_writes_inv (static_generator_step bus_dict time_series) static_generator_s P
              (fun _ x vs => exists va, W x va vs)
              ltac:(intros j x s s' Hs [HA HS];
                    destruct (static_generator_step_rows _ _ _ _ _ _ _ Hs HA HS)
                      as (HA' & HS' & _ & _ & va & vs & _ & _ & ? & ? & Hw);
                    split; [split; done | exists vs; eauto])
              _ _ _ _ H HP0) as (_ & WS & _).
  destruct (foldi_writes_inv (static_generator_step bus_dict time_series) static_generator_names P
              (fun _ x v => v = sg_name x)
              ltac:(intros j x s s' Hs [HA HS];
                    destruct (static_generator_step_rows _ _ _ _ _ _ _ Hs HA HS)
                      as (HA' & HS' & E & L & _);
                    split; [split; done | eauto])
              _ _ _ _ H HP0) as (_ & WN & _).
  destruct (WA _ _ Hk) as (va & (vs' & Wa1 & Wa2) & Ea).
  destruct (WS _ _ Hk) as (vs & (va' & Ws1 & Ws2) & Es).
  destruct (WN _ _ Hk) as (vn & -> & En).
  split_and!; [exact En| |].
  - intros Hts. destruct (Wa1 Hts) as [-> _]. destruct (Ws1 Hts) as [_ ->]. done.
  - intros Hts La LP LQ. destruct (Wa2 Hts La LP LQ) as [-> _].
    destruct (Ws2 Hts La LP LQ) as [_ ->]. done.
Qed.

(** X17: when [get_shunt_data] succeeds, entry [k] of [shunt_names] is
    shunt [k]'s name; in snapshot mode rows [k] of [shunt_active] and
    [shunt_admittance] are its active flag and its admittance [G + jB]
    repeated over the [ntime] columns; in time-series mode, when its
    profiles have [ntime] entries, they are its active profile and
    [G_prof + j B_prof]. *)
Theorem get_shunt_data_rows (devices : list Shunt) (nbus : nat)
    (bus_dict : BusDict) (time_series : bool) (ntime : nat) (data : ShuntData) :
  get_shunt_data devices nbus bus_dict time_series ntime = Some data ->
  forall k elm, devices !! k = Some elm ->
  shunt_names data !! k = Some (sh_name elm) /\
  (time_series = false ->
     shunt_active data !! k = Some (replicate ntime (sh_active elm)) /\
     shunt_admittance data !! k = Some (replicate ntime (cplx_of (sh_G elm) (sh_B elm)))) /\
  (time_series = true -> length (sh_active_prof elm) = ntime ->
     length (sh_G_prof elm) = ntime -> length (sh_B_prof elm) = ntime ->
     shunt_active data !! k = Some (sh_active_prof elm) /\
     shunt_admittance data !! k = Some (zip_with cplx_of (sh_G_prof elm) (sh_B_prof elm))).
Proof.
  intros H k elm Hk. unfold get_shunt_data in H.
  set (P := fun d => rows_len (shunt_active d) ntime /\
                     rows_len (shunt_admittance d) ntime).
  set (W := fun x va vs => rows_written time_series ntime (sh_active x) (sh_active_prof x)
              (cplx_of (sh_G x) (sh_B x)) (sh_G_prof x) (sh_B_prof x) cplx_of va vs).
  assert (HP0 : P (new_ShuntData (length devices) nbus ntime))
    by (split; apply rows_len_replicate).
  destruct (foldi_writes_inv (shunt_step bus_dict time_series) shunt_active P
              (fun _ x va => exists vs, W x va vs)
              ltac:(intros j x s s' Hs [HA HS];
                    destruct (shunt_step_rows _ _ _ _ _ _ _ Hs HA HS)
                      as (HA' & HS' & _ & _ & va & vs & ? & ? & _ & _ & Hw);
                    split; [split; done | exists va; eauto])
              _ _ _ _ H HP0) as (_ & WA & _).
  destruct (foldi_writes_inv (shunt_step bus_dict time_series) shunt_admittance P
              (fun _ x vs => exists va, W x va vs)
              ltac:(intros j x s s' Hs [HA HS];
                    destruct (shunt_step_rows _ _ _ _ _ _ _ Hs HA HS)
                      as (HA' & HS' & _ & _ & va & vs & _ & _ & ? & ? & Hw);
                    split; [split; done | exists vs; eauto])
              _ _ _ _ H HP0) as (_ & WS & _).
  destruct (foldi_writes_inv (shunt_step bus_dict time_series) shunt_names P
              (fun _ x v => v = sh_name x)
              ltac:(intros j x s s' Hs [HA HS];
                    destruct (shunt_step_rows _ _ _ _ _ _ _ Hs HA HS)
                      as (HA' & HS' & E & L & _);
                    split; [split; done | eauto])
              _ _ _ _ H HP0) as (_ & WN & _).
  destruct (WA _ _ Hk) as (va & (vs' & Wa1 & Wa2) & Ea).
  destruct (WS _ _ Hk) as (vs & (va' & Ws1 & Ws2) & Es).
  destruct (WN _ _ Hk) as (vn & -> & En).
  split_and!; [exact En| |].
  - intros Hts. destruct (Wa1 Hts) as [-> _]. destruct (Ws1 Hts) as [_ ->]. done.
  - intros Hts La LP LQ. destruct (Wa2 Hts La LP LQ) as [-> _].
    destruct (Ws2 Hts La LP LQ) as [_ ->]. done.
Qed.

Lemma get_static_generator_data_rows_witness :
  exists d1 d2,
    get_static_generator_data ex_static_generators 4 ex_bus_dict false 2 = Some d1 /\
    get_static_generator_data ex_static_generators 4 ex_bus_dict true 2 = Some d2 /\
    static_generator_s d1 !! 0%nat = Some [cplx_of 3 1; cplx_of 3 1] /\
    static_generator_active d2 !! 0%nat = Some [true; false] /\
    static_generator_s d2 !! 0%nat = Some [cplx_of 3 1; cplx_of 4 1].
Proof.
  do 2 eexists. split; [vm_compute; reflexivity|]. split; [vm_compute; reflexivity|].
  destruct (get_static_generator_data_rows ex_static_generators 4 ex_bus_dict false 2 _
              ltac:(vm_compute; reflexivity) 0%nat _ eq_refl) as (_ & H1 & _).
  destruct (get_static_generator_data_rows ex_static_generators 4 ex_bus_dict true 2 _
              ltac:(vm_compute; reflexivity) 0%nat _ eq_refl) as (_ & _ & H2).
  destruct (H1 eq_refl) as [_ S1].
  destruct (H2 eq_refl eq_refl eq_refl eq_refl) as [A2 S2].
  split_and!; [exact S1 | exact A2 | exact S2].
Defined.

Lemma get_shunt_data_rows_witness :
  exists d1 d2,
    get_shunt_data ex_shunts 4 ex_bus_dict false 2 = Some d1 /\
    get_shunt_data ex_shunts 4 ex_bus_dict true 2 = Some d2 /\
    shunt_admittance d1 !! 0%nat = Some [cplx_of 0 0.5; cplx_of 0 0.5] /\
    shunt_admittance d2 !! 0%nat = Some [cplx_of 0 0.5; cplx_of 0 0.4].
Proof.
  do 2 eexists. split; [vm_compute; reflexivity|]. split; [vm_compute; reflexivity|].
  destruct (get_shunt_data_rows ex_shunts 4 ex_bus_dict false 2 _
              ltac:(vm_compute; reflexivity) 0%nat _ eq_refl) as (_ & H1 & _).
  destruct (get_shunt_data_rows ex_shunts 4 ex_bus_dict true 2 _
              ltac:(vm_compute; reflexivity) 0%nat _ eq_refl) as (_ & _ & H2).
  destruct (H1 eq_refl) as [_ S1].
  destruct (H2 eq_refl eq_refl eq_refl eq_refl) as [_ S2].
  split_and!; [exact S1 | exact S2].
Defined.

(** ** get_line_data against get_branch_data *)

Ltac unfold_branch_setters H :=
  unfold set_generic, set_R_corrected, set_R, set_X, set_G, set_B in H; inv_binds; simpl in *.

Lemma branch_line_step_XB (bd : BusDict) (temp : bool) (mode : BranchImpedanceMode)
    (j : nat) (x : Line) (s s' : BranchData) :
  branch_line_step bd temp mode j x s = Some s' ->
  (j < length (X s))%nat /\ X s' = <[j:=line_X x]> (X s) /\
  (j < length (B s))%nat /\ B s' = <[j:=line_B x]> (B s).
Proof. unfold branch_line_step. intros H. unfold_branch_setters H. done. Qed.

Lemma branch_tr_step_XB (bd : BusDict) (nline j : nat) (x : Transformer2W) (s s' : BranchData) :
  branch_tr_step bd nline j x s = Some s' ->
  (nline + j < length (X s))%nat /\ X s' = <[(nline + j)%nat:=tr_X x]> (X s) /\
  (nline + j < length (B s))%nat /\ B s' = <[(nline + j)%nat:=tr_B x]> (B s).
Proof.
  unfold branch_tr_step. rewrite (Nat.add_comm nline j). intros H. unfold_branch_setters H. done.
Qed.

Lemma branch_vsc_step_XB (bd : BusDict) (nline ntr j : nat) (x : VscConverter) (s s' : BranchData) :
  branch_vsc_step bd nline ntr j x s = Some s' ->
  (nline + ntr + j < length (X s))%nat /\ X s' = <[(nline + ntr + j)%nat:=vsc_X1 x]> (X s) /\
  B s' = B s.
Proof.
  unfold branch_vsc_step. replace (j + nline + ntr)%nat with (nline + ntr + j)%nat by lia.
  intros H. unfold_branch_setters H. done.
Qed.

Lemma branch_dc_step_XB (bd : BusDict) (temp : bool) (mode : BranchImpedanceMode)
    (nline ntr nvsc j : nat) (x : DcLine) (s s' : BranchData) :
  branch_dc_step bd temp mode nline ntr nvsc j x s = Some s' -> X s' = X s /\ B s' = B s.
Proof. unfold branch_dc_step. intros H. unfold_branch_setters H. done. Qed.

Lemma line_step_writes (bd : BusDict) (temp : bool) (mode : BranchImpedanceMode)
    (j : nat) (x : Line) (s s' : LinesData) :
  line_step bd temp mode j x s = Some s' ->
  (j < length (line_names s))%nat /\ line_names s' = <[j:=line_name x]> (line_names s) /\
  (j < length (line_X_arr s))%nat /\ line_X_arr s' = <[j:=line_X x]> (line_X_arr s) /\
  (j < length (line_B_arr s))%nat /\ line_B_arr s' = <[j:=line_B x]> (line_B_arr s).
Proof. unfold line_step. intros H. inv_binds. simpl. done. Qed.

(** X18: when both succeed on the same circuit and bus map,
    [get_line_data] and [get_branch_data] agree on every AC line [i]: its
    name, reactance [X] and susceptance [B] sit at entry [i] of both
    containers, whatever the temperature and tolerance settings of each
    call; the later transformer, converter and DC-line loops of
    [get_branch_data] leave these entries alone. *)
Theorem get_line_data_matches_branch_data (circuit : MultiCircuit) (bus_dict : BusDict)
    (temp temp' : bool) (mode mode' : BranchImpedanceMode) (bdata : BranchData)
    (ldata : LinesData) :
  get_branch_data circuit bus_dict temp mode = Some bdata ->
  get_line_data circuit bus_dict temp' mode' = Some ldata ->
  forall i elm, lines circuit !! i = Some elm ->
  branch_names bdata !! i = Some (line_name elm) /\ line_names ldata !! i = Some (line_name elm) /\
  X bdata !! i = Some (line_X elm) /\ line_X_arr ldata !! i = Some (line_X elm) /\
  B bdata !! i = Some (line_B elm) /\ line_B_arr ldata !! i = Some (line_B elm).
Proof.
  intros Hb Hl i elm Hi. pose proof (lookup_lt_Some _ _ _ Hi) as Hlt.
  unfold get_branch_data in Hb.
  apply bind_Some in Hb as (d1 & H1 & Hb). apply bind_Some in Hb as (d2 & H2 & Hb).
  apply bind_Some in Hb as (d3 & H3 & H4).
  (* names *)
  destruct (stacked_writes _ _ _ _ branch_names
              (fun x v => v = line_name x) (fun x v => v = tr_name x)
              (fun x v => v = vsc_name x) (fun x v => v = dc_name x)
              _ _ _ _ _ _ _ _ _
              ltac:(intros; eapply gw_names, branch_line_step_spec; eauto)
              ltac:(intros; eapply gw_names, branch_tr_step_spec; eauto)
              ltac:(intros; eapply gw_names, branch_vsc_step_spec; eauto)
              ltac:(intros; eapply gw_names, branch_dc_step_spec; eauto)
              H1 H2 H3 H4) as (_ & N1 & _).
  destruct (N1 _ _ Hi) as (n & -> & En).
  (* X *)
  destruct (foldi_writes (branch_line_step bus_dict temp mode) X (fun x v => v = line_X x) 0
              ltac:(intros j x s s' Hs; destruct (branch_line_step_XB _ _ _ _ _ _ _ Hs)
                      as (L & E & _); eauto) _ _ _ _ H1) as (_ & X1 & _).
  destruct (foldi_writes (branch_tr_step bus_dict (length (lines circuit))) X
              (fun x v => v = tr_X x) (length (lines circuit))
              ltac:(intros j x s s' Hs; destruct (branch_tr_step_XB _ _ _ _ _ _ Hs)
                      as (L & E & _); eauto) _ _ _ _ H2) as (_ & _ & X2).
  destruct (foldi_writes (branch_vsc_step bus_dict (length (lines circuit))
                            (length (transformers2w circuit))) X
              (fun x v => v = vsc_X1 x) (length (lines circuit) + length (transformers2w circuit))
              ltac:(intros j x s s' Hs; destruct (branch_vsc_step_XB _ _ _ _ _ _ _ Hs)
                      as (L & E & _); eauto) _ _ _ _ H3) as (_ & _ & X3).
  pose proof (foldi_invariant _ (fun s => X s = X d3)
                (fun j x s s' Hs (E : X s = X d3) =>
                   eq_trans (proj1 (branch_dc_step_XB _ _ _ _ _ _ _ _ _ _ Hs)) E)
                _ _ _ _ H4 eq_refl) as X4.
  (* B *)
  destruct (foldi_writes (branch_line_step bus_dict temp mode) B (fun x v => v = line_B x) 0
              ltac:(intros j x s s' Hs; destruct (branch_line_step_XB _ _ _ _ _ _ _ Hs)
                      as (_ & _ & L & E); eauto) _ _ _ _ H1) as (_ & B1 & _).
  destruct (foldi_writes (branch_tr_step bus_dict (length (lines circuit))) B
              (fun x v => v = tr_B x) (length (lines circuit))
              ltac:(intros j x s s' Hs; destruct (branch_tr_step_XB _ _ _ _ _ _ Hs)
                      as (_ & _ & L & E); eauto) _ _ _ _ H2) as (_ & _ & B2).
  pose proof (foldi_invariant _ (fun s => B s = B d2)
                (fun j x s s' Hs (E : B s = B d2) =>
                   eq_trans (proj2 (proj2 (branch_vsc_step_XB _ _ _ _ _ _ _ Hs))) E)
                _ _ _ _ H3 eq_refl) as B3.
  pose proof (foldi_invariant _ (fun s => B s = B d3)
                (fun j x s s' Hs (E : B s = B d3) =>
                   eq_trans (proj2 (branch_dc_step_XB _ _ _ _ _ _ _ _ _ _ Hs)) E)
                _ _ _ _ H4 eq_refl) as B4.
  (* line data *)
  unfold get_line_data in Hl.
  destruct (foldi_writes (line_step bus_dict temp' mode') line_names (fun x v => v = line_name x) 0
              ltac:(intros j x s s' Hs; destruct (line_step_writes _ _ _ _ _ _ _ Hs)
                      as (L & E & _); eauto) _ _ _ _ Hl) as (_ & LN & _).
  destruct (foldi_writes (line_step bus_dict temp' mode') line_X_arr (fun x v => v = line_X x) 0
              ltac:(intros j x s s' Hs; destruct (line_step_writes _ _ _ _ _ _ _ Hs)
                      as (_ & _ & L & E & _); eauto) _ _ _ _ Hl) as (_ & LX & _).
  destruct (foldi_writes (line_step bus_dict temp' mode') line_B_arr (fun x v => v = line_B x) 0
              ltac:(intros j x s s' Hs; destruct (line_step_writes _ _ _ _ _ _ _ Hs)
                      as (_ & _ & _ & _ & L & E); eauto) _ _ _ _ Hl) as (_ & LB & _).
  destruct (X1 _ _ Hi) as (vx & -> & Ex). destruct (B1 _ _ Hi) as (vb & -> & Eb).
  destruct (LN _ _ Hi) as (ln & -> & Eln). destruct (LX _ _ Hi) as (lx & -> & Elx).
  destruct (LB _ _ Hi) as (lb & -> & Elb).
  simpl in Ex, Eb, Eln, Elx, Elb.
  split_and!; try done.
  - rewrite X4, X3, X2 by lia. exact Ex.
  - rewrite B4, B3, B2 by lia. exact Eb.
Qed.

Lemma get_line_data_matches_branch_data_witness :
  exists bdata ldata,
  get_branch_data ex_circuit ex_bus_dict false Nominal = Some bdata /\
  get_line_data ex_circuit ex_bus_dict true Lower = Some ldata /\
  branch_names bdata !! 1%nat = Some "L2"%string /\ line_names ldata !! 1%nat = Some "L2"%string /\
  X bdata !! 1%nat = Some 0.2 /\ line_X_arr ldata !! 1%nat = Some 0.2.
Proof.
  do 2 eexists. split; [vm_compute; reflexivity|]. split; [vm_compute; reflexivity|].
  destruct (get_line_data_matches_branch_data ex_circuit ex_bus_dict false true Nominal Lower _ _
              ltac:(vm_compute; reflexivity) ltac:(vm_compute; reflexivity) 1%nat _ eq_refl)
    as (N1 & N2 & X1 & X2 & _).
  split_and!; [exact N1 | exact N2 | exact X1 | exact X2].
Defined.
